(** * AdSend: ad placement and rotation (src/js/ad-injector.js)

    A shallow embedding of the ad injector.  JavaScript arrays are lists
    with stdpp's lookup and insert, the [WeakMap] of per-container queues
    is a [gmap] keyed by container handle, module-level variables are the
    fields of one [World] record that every operation threads, and
    exceptions are an explicit outcome of each operation: what a function
    wrote before it threw stays written.

    What is abstracted:
    - [Math.random] is a stream of samples of the half-open unit interval,
      read through a cursor kept in the world; every property holds for
      every stream.
    - The page is the list of the elements that the configured selectors
      match, each with its class list, its id, its data-ad-index
      attribute and the whole tree of nodes below it, in document order.
      These containers lie side by side: a page on which one matched
      element sits inside another is outside the model, and so is a
      container selector that matches what the script creates.  What a
      CSS selector matches, and which selector strings parse, are
      parameters; a selector decides on an element by the element
      itself, not by where it stands.
    - Markup assigned through [innerHTML] is kept as the assigned string.
      The nodes the parser builds from it are not broken down: the
      search for the element to copy asks a parameter for them, and the
      search for an element of class ad-send-banner takes them to hold
      none, as is the case for the markup that the loader builds.
    - The configuration document is typed: entries, banners and selectors
      have the fields of the documented format, each possibly missing.
    - Inline styles, bounding boxes, the animationend listener and the
      injected stylesheet are presentation only and are not part of the
      state.
    - [fetch] and [res.json()] are their outcome; the body of the async
      loader after its last await runs in one piece, as it does on the
      event loop. *)

From Stdlib Require Import QArith Qround.
From Stdlib Require Import Ascii String DecimalString DecimalFacts DecimalNat.
From stdpp Require Import base numbers list gmap strings.

Local Open Scope nat_scope.
Local Open Scope list_scope.

(** ** The random source *)

(** A value returned by [Math.random()]: a rational [v] with [0 <= v < 1]. *)
Record sample := {
  sample_val : Q;
  sample_ok : Qle_bool 0 sample_val && negb (Qle_bool 1 sample_val) = true
}.

(** [Math.floor(r * m)] for a sample [r] and an array length [m]. *)
Definition floor_mul (r : sample) (m : nat) : nat :=
  Z.to_nat (Qfloor (sample_val r * inject_Z (Z.of_nat m))).

(** ** Strings *)

(** The double-quote character used by the banner markup templates. *)
Definition dq : string := String (Ascii.ascii_of_nat 34) EmptyString.

(** [s.startsWith(p)]. *)
Fixpoint startsWith (s p : string) : bool :=
  match p, s with
  | EmptyString, _ => true
  | String _ _, EmptyString => false
  | String b p', String a s' => if Ascii.eqb a b then startsWith s' p' else false
  end.

(** [s.includes(needle)]. *)
Fixpoint includes (s needle : string) : bool :=
  startsWith s needle ||
  match s with
  | EmptyString => false
  | String _ s' => includes s' needle
  end.

(** JavaScript truthiness of a value that is a string or is missing. *)
Definition truthy (o : option string) : bool :=
  match o with
  | Some (String _ _) => true
  | _ => false
  end.

(** ** Data model *)

(** One banner of the configuration document: [{imageUrl, targetUrl?}]. *)
Record banner := {
  imageUrl : option string;
  targetUrl : option string
}.

(** An entry of the [containers] array: a selector string or a [{name}] object. *)
Inductive container_entry :=
| SelString (s : string)
| SelObject (name : option string).

(** One per-site object of the configuration document. *)
Record config := {
  property_id : string;
  url : option string;
  containers : option (list container_entry);
  cfg_banners : option (list banner);
  cfg_copySiblingSelector : option string
}.

(** What [fetch] and [res.json()] can deliver. *)
Inductive json_doc :=
| NotAnArray
| Configs (l : list config).

Inductive response_body :=
| MalformedJson
| ParsedJson (doc : json_doc).

Inductive fetch_result :=
| NetworkError
| Response (ok : bool) (body : response_body).

(** The markup last assigned to an element through [innerHTML]; for an
    element of the page as loaded, its text. *)
Inductive content :=
| Markup (html : string).

(** An element by itself: class list, id, whether its computed display
    differs from none, whether it is an SVG element (whose [className] is
    not a string), and the assigned markup. *)
Record element := {
  el_classes : list string;
  el_id : string;
  el_shown : bool;
  el_svg : bool;
  el_content : content
}.

(** A node by itself: an element or a text node. *)
Inductive node :=
| Element (e : element)
| TextNode (t : string).

(** A node with the nodes below it, in document order. *)
#[warnings="-register-all"]
Inductive tree :=
| Node (e : element) (kids : list tree)
| Text (t : string).

(** A page element matched by a configured selector, with its child
    nodes and all that is below them.  [ct_adIndex] is
    [container.dataset.adIndex], the attribute data-ad-index. *)
Record container := {
  ct_classes : list string;
  ct_id : string;
  ct_adIndex : option string;
  ct_tree : list tree
}.

(** The node at the root of a tree, and the trees below it. *)
Definition top (t : tree) : node :=
  match t with
  | Node e _ => Element e
  | Text s => TextNode s
  end.

Definition kids_of (t : tree) : list tree :=
  match t with
  | Node _ kids => kids
  | Text _ => []
  end.

(** [container.childNodes], each node by itself. *)
Definition ct_nodes (c : container) : list node := top <$> ct_tree c.

(** The callbacks handed to [setInterval]. *)
Inductive callback :=
| RotateAdSlots
| FetchAllBannersFromFile.

(** Module-level variables, the page and the timer table. *)
Record World := {
  banners : list string;
  bannerIndex : nat;
  containerSelectors : list container_entry;
  rotationOffset : nat;
  copySiblingSelector : option string;
  adQueues : gmap nat (list string);
  adRotationQueue : list string;
  adConfigBanners : option (list banner);
  document : list container;
  timers : list (callback * Z);
  console : list string;
  rand_cursor : nat
}.

Definition set_banners (v : list string) (w : World) : World :=
  {| banners := v; bannerIndex := bannerIndex w;
     containerSelectors := containerSelectors w;
     rotationOffset := rotationOffset w;
     copySiblingSelector := copySiblingSelector w;
     adQueues := adQueues w; adRotationQueue := adRotationQueue w;
     adConfigBanners := adConfigBanners w; document := document w;
     timers := timers w; console := console w; rand_cursor := rand_cursor w |}.

Definition set_bannerIndex (v : nat) (w : World) : World :=
  {| banners := banners w; bannerIndex := v;
     containerSelectors := containerSelectors w;
     rotationOffset := rotationOffset w;
     copySiblingSelector := copySiblingSelector w;
     adQueues := adQueues w; adRotationQueue := adRotationQueue w;
     adConfigBanners := adConfigBanners w; document := document w;
     timers := timers w; console := console w; rand_cursor := rand_cursor w |}.

Definition set_containerSelectors (v : list container_entry) (w : World) : World :=
  {| banners := banners w; bannerIndex := bannerIndex w;
     containerSelectors := v;
     rotationOffset := rotationOffset w;
     copySiblingSelector := copySiblingSelector w;
     adQueues := adQueues w; adRotationQueue := adRotationQueue w;
     adConfigBanners := adConfigBanners w; document := document w;
     timers := timers w; console := console w; rand_cursor := rand_cursor w |}.

Definition set_rotationOffset (v : nat) (w : World) : World :=
  {| banners := banners w; bannerIndex := bannerIndex w;
     containerSelectors := containerSelectors w;
     rotationOffset := v;
     copySiblingSelector := copySiblingSelector w;
     adQueues := adQueues w; adRotationQueue := adRotationQueue w;
     adConfigBanners := adConfigBanners w; document := document w;
     timers := timers w; console := console w; rand_cursor := rand_cursor w |}.

Definition set_copySiblingSelector (v : option string) (w : World) : World :=
  {| banners := banners w; bannerIndex := bannerIndex w;
     containerSelectors := containerSelectors w;
     rotationOffset := rotationOffset w;
     copySiblingSelector := v;
     adQueues := adQueues w; adRotationQueue := adRotationQueue w;
     adConfigBanners := adConfigBanners w; document := document w;
     timers := timers w; console := console w; rand_cursor := rand_cursor w |}.

Definition set_adQueues (v : gmap nat (list string)) (w : World) : World :=
  {| banners := banners w; bannerIndex := bannerIndex w;
     containerSelectors := containerSelectors w;
     rotationOffset := rotationOffset w;
     copySiblingSelector := copySiblingSelector w;
     adQueues := v; adRotationQueue := adRotationQueue w;
     adConfigBanners := adConfigBanners w; document := document w;
     timers := timers w; console := console w; rand_cursor := rand_cursor w |}.

Definition set_adRotationQueue (v : list string) (w : World) : World :=
  {| banners := banners w; bannerIndex := bannerIndex w;
     containerSelectors := containerSelectors w;
     rotationOffset := rotationOffset w;
     copySiblingSelector := copySiblingSelector w;
     adQueues := adQueues w; adRotationQueue := v;
     adConfigBanners := adConfigBanners w; document := document w;
     timers := timers w; console := console w; rand_cursor := rand_cursor w |}.

Definition set_adConfigBanners (v : option (list banner)) (w : World) : World :=
  {| banners := banners w; bannerIndex := bannerIndex w;
     containerSelectors := containerSelectors w;
     rotationOffset := rotationOffset w;
     copySiblingSelector := copySiblingSelector w;
     adQueues := adQueues w; adRotationQueue := adRotationQueue w;
     adConfigBanners := v; document := document w;
     timers := timers w; console := console w; rand_cursor := rand_cursor w |}.

Definition set_document (v : list container) (w : World) : World :=
  {| banners := banners w; bannerIndex := bannerIndex w;
     containerSelectors := containerSelectors w;
     rotationOffset := rotationOffset w;
     copySiblingSelector := copySiblingSelector w;
     adQueues := adQueues w; adRotationQueue := adRotationQueue w;
     adConfigBanners := adConfigBanners w; document := v;
     timers := timers w; console := console w; rand_cursor := rand_cursor w |}.

Definition set_timers (v : list (callback * Z)) (w : World) : World :=
  {| banners := banners w; bannerIndex := bannerIndex w;
     containerSelectors := containerSelectors w;
     rotationOffset := rotationOffset w;
     copySiblingSelector := copySiblingSelector w;
     adQueues := adQueues w; adRotationQueue := adRotationQueue w;
     adConfigBanners := adConfigBanners w; document := document w;
     timers := v; console := console w; rand_cursor := rand_cursor w |}.

Definition set_console (v : list string) (w : World) : World :=
  {| banners := banners w; bannerIndex := bannerIndex w;
     containerSelectors := containerSelectors w;
     rotationOffset := rotationOffset w;
     copySiblingSelector := copySiblingSelector w;
     adQueues := adQueues w; adRotationQueue := adRotationQueue w;
     adConfigBanners := adConfigBanners w; document := document w;
     timers := timers w; console := v; rand_cursor := rand_cursor w |}.

Definition set_rand_cursor (v : nat) (w : World) : World :=
  {| banners := banners w; bannerIndex := bannerIndex w;
     containerSelectors := containerSelectors w;
     rotationOffset := rotationOffset w;
     copySiblingSelector := copySiblingSelector w;
     adQueues := adQueues w; adRotationQueue := adRotationQueue w;
     adConfigBanners := adConfigBanners w; document := document w;
     timers := timers w; console := console w; rand_cursor := v |}.

(** ** A state monad with exceptions

    A JavaScript function reads and writes the world and either returns or
    throws; what it wrote before throwing stays written. *)

Inductive outcome (A : Type) :=
| Ret (a : A)
| Throw (e : string).
Arguments Ret {A} a.
Arguments Throw {A} e.

Definition M (A : Type) : Type := World → outcome A * World.

Definition ret {A} (a : A) : M A := λ w, (Ret a, w).

Definition throw {A} (e : string) : M A := λ w, (Throw e, w).

Definition bind {A B} (c : M A) (k : A → M B) : M B :=
  λ w, match c w with
       | (Ret a, w') => k a w'
       | (Throw e, w') => (Throw e, w')
       end.

Notation "'let*' x := c 'in' k" := (bind c (λ x, k))
  (at level 10, x name, c at level 100, k at level 200, only parsing).
Notation "c ;; k" := (bind c (λ _, k))
  (at level 100, k at level 200, right associativity, only parsing).

Definition get {A} (f : World → A) : M A := λ w, (Ret (f w), w).

Definition modify (f : World → World) : M unit := λ w, (Ret tt, f w).

(** [arr.forEach(f)]. *)
Fixpoint forEach {A} (f : A → M unit) (arr : list A) : M unit :=
  match arr with
  | [] => ret tt
  | x :: rest => f x ;; forEach f rest
  end.

(** [console.error(msg)]. *)
Definition console_error (msg : string) : M unit :=
  modify (λ w, set_console (console w ++ [msg]) w).

(** ** Searching in document order *)

Section Search.
Context {A B : Type}.

(** The first result that [f] gives on the items of a list. *)
Fixpoint first_some (f : A → option B) (l : list A) : option B :=
  match l with
  | [] => None
  | x :: rest =>
      match f x with
      | Some y => Some y
      | None => first_some f rest
      end
  end.

(** The same where [f] gives a path with its result: the position of
    the item, counted from [i], is put in front of the path. *)
Fixpoint first_from (f : A → option (list nat * B)) (i : nat) (l : list A)
    : option (list nat * B) :=
  match l with
  | [] => None
  | x :: rest =>
      match f x with
      | Some (p, y) => Some (i :: p, y)
      | None => first_from f (S i) rest
      end
  end.
End Search.

Section AdInjector.

(** The page the script runs in: the stream behind [Math.random], the
    data-property attribute of the script tag, the page URL without query
    and hash, and the meaning of CSS selectors: which selector strings
    parse, which containers of the document a selector matches, which
    elements below a container it matches, and the first element it
    matches among those the parser builds from a markup string. *)
Context (random : nat → sample).
Context (propertyId : option string).
Context (pageUrl : string).
Context (sel_valid : string → bool).
Context (sel_container : string → container → bool).
Context (sel_child : string → element → bool).
Context (sel_markup : string → string → option element).

(** ** Utility functions *)

(** [Math.random()]: the next sample of the stream. *)
Definition Math_random : M sample :=
  λ w, (Ret (random (rand_cursor w)), set_rand_cursor (S (rand_cursor w)) w).

(** The loop of [shuffle] with [m] elements still to place:
    [i = floor(random * m--); t = array[m]; array[m] = array[i]; array[i] = t].
    Both reads are in range whenever [m] is at most the length (lemma
    [shuffle_loop_returns]); the last branch is never reached from [shuffle]. *)
Fixpoint shuffle_loop {A} (m : nat) (array : list A) : M (list A) :=
  match m with
  | 0 => ret array
  | S m' =>
      let* r := Math_random in
      let i := floor_mul r (S m') in
      match array !! m', array !! i with
      | Some t, Some x => shuffle_loop m' (<[i := t]> (<[m' := x]> array))
      | _, _ => throw "shuffle: index out of range"
      end
  end.

(** [shuffle(array)]: Fisher-Yates, in place. *)
Definition shuffle {A} (array : list A) : M (list A) :=
  shuffle_loop (length array) array.

(** ** Ad rotation logic *)

(** [queue.shift()] on the queue stored for [container]. *)
Definition queue_shift (container : nat) (queue : list string) : M (option string) :=
  match queue with
  | [] => ret None
  | ad :: rest =>
      modify (λ w, set_adQueues (<[container := rest]> (adQueues w)) w) ;;
      ret (Some ad)
  end.

(** [getNextAd(container, banners)]: the per-container queue. *)
Definition getNextAd (container : nat) (bs : list string) : M (option string) :=
  let* queue := get (λ w, adQueues w !! container) in
  match queue with
  | Some (ad :: rest) => queue_shift container (ad :: rest)
  | _ =>
      let* fresh := shuffle bs in
      modify (λ w, set_adQueues (<[container := fresh]> (adQueues w)) w) ;;
      queue_shift container fresh
  end.

(** [getNextAdRoundRobin(banners)]: the global queue. *)
Definition getNextAdRoundRobin (bs : list string) : M (option string) :=
  let* queue := get adRotationQueue in
  let* queue :=
    match queue with
    | [] =>
        let* fresh := shuffle bs in
        modify (set_adRotationQueue fresh) ;; ret fresh
    | _ => ret queue
    end in
  match queue with
  | [] => ret None
  | ad :: rest => modify (set_adRotationQueue rest) ;; ret (Some ad)
  end.

(** ** The data-ad-index attribute *)

(** [String(n)] for an array index [n]. *)
Definition string_of_nat (n : nat) : string :=
  NilEmpty.string_of_uint (Nat.to_uint n).

(** White space that [parseInt] skips (code units below 256). *)
Definition is_white (a : Ascii.ascii) : bool :=
  let n := Ascii.nat_of_ascii a in
  ((9 <=? n) && (n <=? 13)) || (n =? 32) || (n =? 160).

Fixpoint skip_white (s : string) : string :=
  match s with
  | String a s' => if is_white a then skip_white s' else s
  | EmptyString => s
  end.

Definition digit_of (a : Ascii.ascii) : option Z :=
  let n := Ascii.nat_of_ascii a in
  if (48 <=? n) && (n <=? 57) then Some (Z.of_nat (n - 48)) else None.

(** The value of the longest prefix of decimal digits; [acc] is [None]
    until a digit has been read. *)
Fixpoint parse_digits (acc : option Z) (s : string) : option Z :=
  match s with
  | String a s' =>
      match digit_of a with
      | Some d => parse_digits (Some (10 * default 0 acc + d)%Z) s'
      | None => acc
      end
  | EmptyString => acc
  end.

(** [parseInt(s, 10)]; [None] is NaN.  The value is exact, where
    JavaScript rounds beyond 2^53; the code only compares it with a child
    count and uses it as an index when it is below that count. *)
Definition parseInt (s : string) : option Z :=
  match skip_white s with
  | String "-"%char s' => Z.opp <$> parse_digits None s'
  | String "+"%char s' => parse_digits None s'
  | s' => parse_digits None s'
  end.

(** Lines 229-242 of [sendAd]: the insertion index among [len] eligible
    children, read back from the attribute or picked afresh, together
    with the value written to the attribute, if one is written.  [None] is
    the early return of line 240. *)
Definition pick_index (adIndex : option string) (len : nat) : M (option (nat * option string)) :=
  match adIndex with
  | Some s =>
      match parseInt s with
      | Some idx =>
          if (idx <? 1)%Z || (Z.of_nat len - 1 <=? idx)%Z
          then ret (Some (1, Some (string_of_nat 1)))
          else ret (Some (Z.to_nat idx, None))
      | None => ret (Some (1, Some (string_of_nat 1)))
      end
  | None =>
      let validIndexes := seq 1 (len - 2) in
      let* r := Math_random in
      match validIndexes !! floor_mul r (length validIndexes) with
      | Some idx => ret (Some (idx, Some (string_of_nat idx)))
      | None => ret None
      end
  end.

(** ** The container and the nodes below it *)

Definition ad_class : string := "ad-send-banner".

Definition has_class (c : string) (cls : list string) : bool :=
  bool_decide (c ∈ cls).

Definition is_ad (e : element) : bool := has_class ad_class (el_classes e).

(** [container.children], each element with its position among the child nodes. *)
Fixpoint elements_from (i : nat) (ns : list node) : list (nat * element) :=
  match ns with
  | [] => []
  | Element e :: rest => (i, e) :: elements_from (S i) rest
  | TextNode _ :: rest => elements_from (S i) rest
  end.

Definition children_of (ns : list node) : list (nat * element) :=
  elements_from 0 ns.

(** The first node, in document order, at or below [t] whose element
    satisfies [P], with the path from [t] down to it. *)
Fixpoint query_tree (P : element → bool) (t : tree) : option (list nat * tree) :=
  match t with
  | Text _ => None
  | Node e kids => if P e then Some ([], t) else first_from (query_tree P) 0 kids
  end.

(** [container.querySelector('.ad-send-banner')]: the first element of
    the class below the container, in document order, with the path to
    it: the positions to take among the child nodes, level by level.  A
    path of length one is a child of the container. *)
Definition query_ad_wrapper (ts : list tree) : option (list nat * tree) :=
  first_from (query_tree is_ad) 0 ts.

(** The elements the parser builds from assigned markup: the first one
    that a selector matches.  The empty string has none. *)
Definition markup_match (sel : string) (c : content) : option element :=
  match c with
  | Markup EmptyString => None
  | Markup html => sel_markup sel html
  end.

(** The first element at or below [t], in document order, that the
    selector matches. *)
Fixpoint query_selector_tree (sel : string) (t : tree) : option element :=
  match t with
  | Text _ => None
  | Node e kids =>
      if sel_child sel e then Some e
      else match markup_match sel (el_content e) with
           | Some x => Some x
           | None => first_some (query_selector_tree sel) kids
           end
  end.

(** [container.querySelector(sel)] for a selector that parses. *)
Definition query_selector (sel : string) (ts : list tree) : option element :=
  first_some (query_selector_tree sel) ts.

(** The children that are not ad wrappers (line 225). *)
Definition eligible_children (ns : list node) : list (nat * element) :=
  List.filter (λ p, negb (is_ad p.2)) (children_of ns).

(** The test of line 170: a preset slot. *)
Definition is_slot (c : container) : bool :=
  has_class ad_class (ct_classes c) || startsWith (ct_id c) "banner-slot-".

(** [document.createElement('div')] with the class and the flex display
    that both branches of [sendAd] give a new wrapper. *)
Definition new_wrapper : element :=
  {| el_classes := [ad_class]; el_id := EmptyString; el_shown := true;
     el_svg := false; el_content := Markup EmptyString |}.

(** Placing [w] after the node at position [pr] (lines 260-264):
    before [refNode.nextSibling] when there is one, else appended. *)
Definition insert_after {A} (pr : nat) (w : A) (ns : list A) : list A :=
  match ns !! S pr with
  | Some _ => take (S pr) ns ++ w :: drop (S pr) ns
  | None => ns ++ [w]
  end.

(** Moving the child at position [pw] after the node at position [pr]
    (lines 267-271): the DOM first detaches the moved node. *)
Definition move_after {A} (pw pr : nat) (ns : list A) : list A :=
  match ns !! pw with
  | Some w =>
      let rest := delete pw ns in
      match ns !! S pr with
      | Some _ =>
          let before := if pw <? S pr then pr else S pr in
          take before rest ++ w :: drop before rest
      | None => rest ++ [w]
      end
  | None => ns
  end.

(** The trees without the node at path [p]: the DOM detaches a node with
    all that is below it. *)
Fixpoint remove_at (p : list nat) (ts : list tree) : list tree :=
  match p with
  | [] => ts
  | [i] => delete i ts
  | i :: p' =>
      alter (λ t, match t with
                  | Node e kids => Node e (remove_at p' kids)
                  | Text _ => t
                  end) i ts
  end.

(** The trees with [f] applied to the node at path [p]. *)
Fixpoint alter_at (f : tree → tree) (p : list nat) (ts : list tree) : list tree :=
  match p with
  | [] => ts
  | [i] => alter f i ts
  | i :: p' =>
      alter (λ t, match t with
                  | Node e kids => Node e (alter_at f p' kids)
                  | Text _ => t
                  end) i ts
  end.

Definition set_tree (ts : list tree) (c : container) : container :=
  {| ct_classes := ct_classes c; ct_id := ct_id c;
     ct_adIndex := ct_adIndex c; ct_tree := ts |}.




Definition set_adIndex (v : option string) (c : container) : container :=
  {| ct_classes := ct_classes c; ct_id := ct_id c;
     ct_adIndex := v; ct_tree := ct_tree c |}.

Definition set_content (v : content) (e : element) : element :=
  {| el_classes := el_classes e; el_id := el_id e;
     el_shown := el_shown e; el_svg := el_svg e; el_content := v |}.

Definition set_classes (v : list string) (e : element) : element :=
  {| el_classes := v; el_id := el_id e;
     el_shown := el_shown e; el_svg := el_svg e; el_content := el_content e |}.

Definition set_shown (v : bool) (e : element) : element :=
  {| el_classes := el_classes e; el_id := el_id e;
     el_shown := v; el_svg := el_svg e; el_content := el_content e |}.

(** Writing to the child node at position [p] of a container, and to
    the element it is. *)
Definition alter_child (g : tree → tree) (p : nat) (c : container) : container :=
  set_tree (alter g p (ct_tree c)) c.

Definition on_element (f : element → element) (t : tree) : tree :=
  match t with
  | Node e kids => Node (f e) kids
  | Text _ => t
  end.

Definition alter_element (f : element → element) (p : nat) (c : container) : container :=
  alter_child (on_element f) p c.

(** Writing to the container behind handle [h]. *)
Definition update_container (h : nat) (f : container → container) : M unit :=
  modify (λ w, set_document (alter f h (document w)) w).

(** [el.innerHTML = v], where [undefined] is written as its name: the
    assigned string is kept and what was below the element is gone. *)
Definition innerHTML_of (v : option string) : content :=
  Markup (default "undefined" v).

Definition write_html (v : option string) (t : tree) : tree :=
  match t with
  | Node e _ => Node (set_content (innerHTML_of v) e) []
  | Text _ => t
  end.

(** ** Style replication and animation *)

(** Lines 72-79 of [replicateSiblingStyles] for a reference sibling whose
    [className] is a string: the class list and the id of the target.
    The assignment to [className] does nothing on a target that is an SVG
    element, where the property is read-only. *)
Definition copy_class_and_id (ref t : element) : element :=
  {| el_classes :=
       if el_svg t then el_classes t
       else List.filter (λ c, negb (String.eqb c EmptyString) &&
                              negb (String.eqb c ad_class)) (el_classes ref)
            ++ [ad_class];
     el_id :=
       if truthy (Some (el_id ref)) && negb (String.eqb (el_id ref) (el_id t))
       then el_id ref +:+ "-ad" else el_id t;
     el_shown := el_shown t;
     el_svg := el_svg t;
     el_content := el_content t |}.

(** [replicateSiblingStyles(target, siblings)] for the target at position
    [target] of container [h].  The reference is the first displayed
    sibling; its computed style is copied first, which makes the target
    displayed; then [ref.className.split] throws when the reference is
    an SVG element. *)
Definition replicateSiblingStyles (h target : nat) (siblings : list (nat * element))
    : M unit :=
  match siblings with
  | [] => ret tt
  | _ =>
      match List.find (λ p, negb (p.1 =? target) && el_shown p.2) siblings with
      | None => ret tt
      | Some (_, ref) =>
          update_container h (alter_element (set_shown true) target) ;;
          if el_svg ref
          then throw "TypeError: ref.className.split is not a function"
          else update_container h (alter_element (copy_class_and_id ref) target)
      end
  end.

Definition animations : list string :=
  ["ad-flip-in"; "ad-bounce-in"; "ad-fade-in"; "ad-slide-in"].

(** [el.classList.add(c)]. *)
Definition classList_add (c : string) (e : element) : element :=
  if has_class c (el_classes e) then e else set_classes (el_classes e ++ [c]) e.

(** [animateAdEntry(adWrapper, refNode)] for the wrapper at position [pw]
    of container [h]: the class toggle; sizes are not modelled. *)
Definition animateAdEntry (h pw : nat) : M unit :=
  update_container h (alter_element
    (λ e, set_classes (List.filter (λ c, negb (has_class c animations)) (el_classes e)) e) pw) ;;
  let* r := Math_random in
  let anim := default "undefined" (animations !! floor_mul r (length animations)) in
  update_container h (alter_element (classList_add anim) pw).

(** ** Ad sending *)

(** The preset-slot branch of [sendAd] (lines 170-222): the wrapper is
    the element the query finds, wherever below the slot it is, or a new
    one that replaces the content of the slot. *)
Definition sendAd_slot (adHtmlArr : list string) (h : nat) (c : container) : M unit :=
  let* p :=
    match query_ad_wrapper (ct_tree c) with
    | Some (p, _) => ret p
    | None => update_container h (set_tree [Node new_wrapper []]) ;; ret [0]
    end in
  let* adHtml := getNextAd h adHtmlArr in
  update_container h (λ c, set_tree (alter_at (write_html adHtml) p (ct_tree c)) c).

(** The link-wrapped markup of line 305. *)
Definition link_wrap (target html : string) : string :=
  "<a href=" +:+ dq +:+ target +:+ dq +:+ " target=" +:+ dq +:+ "_blank" +:+ dq +:+
  " rel=" +:+ dq +:+ "noopener noreferrer" +:+ dq +:+ ">" +:+ html +:+ "</a>".

(** The shallow clone of lines 292-299 with the markup of lines 304-308
    assigned to it. *)
Definition clone_of (customRef : element) (inner : string) : element :=
  {| el_classes := el_classes customRef;
     el_id := if truthy (Some (el_id customRef))
              then el_id customRef +:+ "-ad" else EmptyString;
     el_shown := el_shown customRef;
     el_svg := el_svg customRef;
     el_content := Markup inner |}.

(** Lines 309-310: the wrapper emptied, then the clone appended. *)
Definition hold_clone (clone : element) (t : tree) : tree :=
  match t with
  | Node e _ => Node (set_content (Markup EmptyString) e) [Node clone []]
  | Text _ => t
  end.

(** Lines 280-316: writing the ad into the wrapper, the child at
    position [pw].  The element to copy is sought everywhere below the
    container, the wrapper and what it holds included. *)
Definition inject_content (adHtmlArr : list string) (h pw : nat) : M unit :=
  let* ts := get (λ w, default [] (ct_tree <$> document w !! h)) in
  let siblings :=
    List.filter (λ p, negb (p.1 =? pw) && negb (is_ad p.2))
                (children_of (top <$> ts)) in
  let* adHtml := getNextAd h adHtmlArr in
  let* css := get copySiblingSelector in
  if truthy css then
    let sel := default EmptyString css in
    if sel_valid sel then
      match query_selector sel ts with
      | Some customRef =>
          let* bs := get banners in
          let* acb := get adConfigBanners in
          let* bannerObj :=
            match bs, acb with
            | _ :: _, Some cfgBanners =>
                match adHtml, cfgBanners with
                | Some html, _ =>
                    ret (List.find (λ b, includes html (default "undefined" (imageUrl b)))
                                   cfgBanners)
                | None, [] => ret None
                | None, _ :: _ => throw "TypeError: adHtml is undefined"
                end
            | _, _ => ret None
            end in
          let html := default "undefined" adHtml in
          let inner :=
            match bannerObj with
            | Some b =>
                if truthy (targetUrl b)
                then link_wrap (default EmptyString (targetUrl b)) html
                else html
            | None => html
            end in
          update_container h (alter_child (hold_clone (clone_of customRef inner)) pw)
      | None => ret tt
      end
    else throw "SyntaxError: not a valid selector"
  else
    replicateSiblingStyles h pw siblings ;;
    update_container h (alter_child (write_html adHtml) pw).

(** Lines 247-279: the child nodes once the wrapper sits after the
    reference node at position [pr], and the position of the wrapper.  A
    wrapper that the query found among the children is moved unless it
    already follows the reference node; one found deeper is detached
    from where it is and becomes a child; otherwise a new one is
    inserted. *)
Definition place_wrapper (adWrapper : option (list nat * tree)) (pr : nat)
    (ts : list tree) : list tree * nat :=
  match adWrapper with
  | None => (insert_after pr (Node new_wrapper []) ts, S pr)
  | Some ([pw], _) =>
      if negb (pw =? S pr)
      then (move_after pw pr ts, if pw <? S pr then pr else S pr)
      else (ts, pw)
  | Some (p, t) => (insert_after pr t (remove_at p ts), S pr)
  end.

(** The generic branch of [sendAd] (lines 224-345). *)
Definition sendAd_generic (adHtmlArr : list string) (h : nat) (c : container) : M unit :=
  let adWrapper := query_ad_wrapper (ct_tree c) in
  let children := eligible_children (ct_nodes c) in
  if length children <? 3 then ret tt else
  let* picked := pick_index (ct_adIndex c) (length children) in
  match picked with
  | None => ret tt
  | Some (idx, written) =>
      match written with
      | Some v => update_container h (set_adIndex (Some v))
      | None => ret tt
      end ;;
      match children !! idx with
      | None => throw "TypeError: refNode is undefined"
      | Some (pr, _) =>
          let placed := place_wrapper adWrapper pr (ct_tree c) in
          update_container h (set_tree placed.1) ;;
          inject_content adHtmlArr h placed.2 ;;
          animateAdEntry h placed.2
      end
  end.

(** [sendAd(adHtmlArr, container, isFirstLoad)].  A handle with no
    element behind it does not occur: handles come from [querySelectorAll]. *)
Definition sendAd (adHtmlArr : list string) (h : nat) (isFirstLoad : bool) : M unit :=
  let* oc := get (λ w, document w !! h) in
  match oc with
  | Some c => if is_slot c then sendAd_slot adHtmlArr h c else sendAd_generic adHtmlArr h c
  | None => ret tt
  end.

(** ** Banner fetching and rotation *)

(** The markup built for one banner of the configuration (lines 380-387). *)
Definition banner_markup (b : banner) : string :=
  let img :=
    "<img src=" +:+ dq +:+ default EmptyString (imageUrl b) +:+ dq +:+
    " alt=" +:+ dq +:+ "ad" +:+ dq +:+ " class=" +:+ dq +:+ "ad-img-anim" +:+ dq +:+
    " style=" +:+ dq +:+ "max-width:100%;height:auto;display:block;" +:+ dq +:+ " />" in
  if truthy (imageUrl b) && truthy (targetUrl b) then
    "<a href=" +:+ dq +:+ default EmptyString (targetUrl b) +:+ dq +:+
    " target=" +:+ dq +:+ "_blank" +:+ dq +:+
    " rel=" +:+ dq +:+ "noopener noreferrer" +:+ dq +:+ ">" +:+ img +:+ "</a>"
  else if truthy (imageUrl b) then img
  else EmptyString.

(** Lines 376-379: the selectors of a configuration entry. *)
Definition selectors_of (cfg : config) : list container_entry :=
  let cs := default [] (containers cfg) in
  match cs with
  | SelObject name :: _ =>
      if truthy name then
        omap (λ c, match c with
                   | SelObject n => if truthy n then SelString <$> n else None
                   | SelString _ => None
                   end) cs
      else cs
  | _ => cs
  end.

Definition load_error : string := "[AdSend] Failed to load ad-config.json:".

(** Lines 367-369: the entry of the current site, if the document is an
    array that has one. *)
Definition find_config (configs : json_doc) : option config :=
  match configs with
  | Configs l => List.find (λ cfg, bool_decide (Some (property_id cfg) = propertyId)) l
  | NotAnArray => None
  end.

(** The test of line 375: the entry is for another page. *)
Definition url_mismatch (cfg : config) : bool :=
  truthy (url cfg) && negb (startsWith pageUrl (default EmptyString (url cfg))).

(** Lines 380-388: the markup strings of the banners of an entry. *)
Definition render_banners (cfg : config) : list string :=
  List.filter (λ s, truthy (Some s)) (banner_markup <$> default [] (cfg_banners cfg)).

(** [fetchAllBannersFromFile()], given what the network delivers. *)
Definition fetchAllBannersFromFile (res : fetch_result) : M unit :=
  match res with
  | NetworkError => console_error load_error
  | Response false _ => ret tt
  | Response true MalformedJson => console_error load_error
  | Response true (ParsedJson configs) =>
      match find_config configs with
      | None => ret tt
      | Some cfg =>
          modify (set_adConfigBanners (Some (default [] (cfg_banners cfg)))) ;;
          if url_mismatch cfg then ret tt
          else
            modify (set_containerSelectors (selectors_of cfg)) ;;
            modify (set_banners (render_banners cfg)) ;;
            modify (set_copySiblingSelector
              (if truthy (cfg_copySiblingSelector cfg)
               then cfg_copySiblingSelector cfg else None)) ;;
            modify (set_bannerIndex 0) ;;
            let* r := Math_random in
            modify (set_rotationOffset (floor_mul r 1000))
      end
  end.

(** The ways a configuration load fails. *)
Inductive load_failure : fetch_result → Prop :=
| fail_network : load_failure NetworkError
| fail_not_ok body : load_failure (Response false body)
| fail_malformed : load_failure (Response true MalformedJson)
| fail_no_entry configs :
    find_config configs = None → load_failure (Response true (ParsedJson configs)).

(** A load that runs to its last line with the entry [cfg]. *)
Definition load_success (res : fetch_result) (cfg : config) : Prop :=
  ∃ configs, res = Response true (ParsedJson configs) ∧
             find_config configs = Some cfg ∧ url_mismatch cfg = false.

(** The selector text handed to [querySelectorAll] for an entry. *)
Definition selector_text (c : container_entry) : string :=
  match c with
  | SelString s => s
  | SelObject _ => "[object Object]"
  end.

(** [Array.from(document.querySelectorAll(selector))]: the handles of the
    matching containers in document order, or a SyntaxError. *)
Definition querySelectorAll (selector : string) : M (list nat) :=
  if sel_valid selector then
    get (λ w, fst <$> List.filter (λ p, sel_container selector p.2)
                        (imap (λ i c, (i, c)) (document w)))
  else throw "SyntaxError: not a valid selector".

(** The loop that collects the containers of all selectors. *)
Fixpoint collect_containers (sels : list container_entry) (acc : list nat) : M (list nat) :=
  match sels with
  | [] => ret acc
  | s :: rest =>
      let* found := querySelectorAll (selector_text s) in
      collect_containers rest (acc ++ found)
  end.

Definition rotate_error : string :=
  "[ad-injector] No container selectors found for this page. Please define at least one container/selector.".

(** The containers of one rotation tick in the order they are served
    (lines 401-411); [None] when the tick returns early. *)
Definition rotation_order : M (option (list nat)) :=
  let* bs := get banners in
  match bs with
  | [] => ret None
  | _ =>
      let* sels := get containerSelectors in
      match sels with
      | [] => console_error rotate_error ;; ret None
      | _ =>
          let* allContainers := collect_containers sels [] in
          match allContainers with
          | [] => ret None
          | _ => let* shuffled := shuffle allContainers in ret (Some shuffled)
          end
      end
  end.

(** [rotateAdSlots()]. *)
Definition rotateAdSlots : M unit :=
  let* order := rotation_order in
  match order with
  | None => ret tt
  | Some shuffledContainers =>
      forEach (λ container, let* bs := get banners in sendAd bs container false)
              shuffledContainers
  end.

(** [setInterval(cb, period)]. *)
Definition setInterval (cb : callback) (period : Z) : M unit :=
  modify (λ w, set_timers (timers w ++ [(cb, period)]) w).

Definition init_error : string :=
  "[AdSend] No container selectors found for this page. Please define at least one container/selector in ad-config.json.".

(** [initAdInjector()], given what the network delivers to its fetch. *)
Definition initAdInjector (res : fetch_result) : M unit :=
  fetchAllBannersFromFile res ;;
  let* sels := get containerSelectors in
  match sels with
  | [] => console_error init_error
  | _ =>
      let* allContainers := collect_containers sels [] in
      let* bs := get banners in
      match bs, allContainers with
      | _ :: _, _ :: _ =>
          let* shuffled := shuffle allContainers in
          forEach (λ el, let* bs := get banners in sendAd bs el true) shuffled
      | _, _ => ret tt
      end ;;
      let* bs := get banners in
      if 1 <? length bs then
        setInterval RotateAdSlots 10000%Z ;;
        setInterval FetchAllBannersFromFile (5 * 60 * 1000)%Z
      else ret tt
  end.

(** The timer table after lines 441-442 on a page without timers. *)
Definition both_timers : list (callback * Z) :=
  [(RotateAdSlots, 10000%Z); (FetchAllBannersFromFile, 300000%Z)].

(** The script body: line 353, the guard of line 421, then the
    initialization. *)
Definition script_main (res : fetch_result) : M unit :=
  let* r := Math_random in
  modify (set_rotationOffset (floor_mul r 1000)) ;;
  if truthy propertyId then initAdInjector res else ret tt.

(** What a timer does when it fires. *)
Definition fire (cb : callback) (res : fetch_result) : M unit :=
  match cb with
  | RotateAdSlots => rotateAdSlots
  | FetchAllBannersFromFile => fetchAllBannersFromFile res
  end.

(** One turn of the event loop after the script has run: a registered
    timer fires and its callback runs to its end, returning or throwing. *)
Inductive step (w : World) : World → Prop :=
| step_timer cb period res :
    (cb, period) ∈ timers w → step w (fire cb res w).2.

(** [n] consecutive calls of [getNextAd] for one container. *)
Fixpoint draws (container : nat) (bs : list string) (n : nat) : M (list (option string)) :=
  match n with
  | 0 => ret []
  | S n' =>
      let* ad := getNextAd container bs in
      let* rest := draws container bs n' in
      ret (ad :: rest)
  end.



(** The world when the script starts on a page with the given containers. *)
Definition page_load (doc : list container) : World :=
  {| banners := []; bannerIndex := 0; containerSelectors := [];
     rotationOffset := 0; copySiblingSelector := None;
     adQueues := ∅; adRotationQueue := []; adConfigBanners := None;
     document := doc; timers := []; console := []; rand_cursor := 0 |}.

(** The ad wrappers a container owns: its child elements of class
    ad-send-banner. *)
Definition wrappers (c : container) : list (nat * element) :=
  List.filter (λ p, is_ad p.2) (children_of (ct_nodes c)).


(** The child elements of a container, without their positions. *)
Definition elems (ns : list node) : list element :=
  omap (λ n, match n with Element e => Some e | TextNode _ => None end) ns.

(** The child elements that are not wrappers, and those that are. *)
Definition eligible_elems (ns : list node) : list element :=
  List.filter (λ e, negb (is_ad e)) (elems ns).

Definition ad_elems (ns : list node) : list element :=
  List.filter is_ad (elems ns).

(** A function on trees that leaves an element an element and an ad
    wrapper an ad wrapper. *)
Definition keeps_wrapper (g : tree → tree) : Prop :=
  ∀ e k, ∃ e' k', g (Node e k) = Node e' k' ∧ (is_ad e = true → is_ad e' = true).

(** The child at position [pw] of container [h] was written to, and
    nothing else of the page. *)
Definition rewraps (h pw : nat) : World → World → Prop :=
  λ w w', ∃ g, keeps_wrapper g ∧
               document w' = alter (alter_child g pw) h (document w).

(** The world in which the child at position [pw] of the container [c]
    behind handle [h] is the tree [t]. *)
Definition with_child (h pw : nat) (c : container) (t : tree) (w : World) : World :=
  set_document (<[h := set_tree (<[pw := t]> (ct_tree c)) c]> (document w)) w.

(** No element of class ad-send-banner is at or below one of the trees. *)
Definition clean (ts : list tree) : Prop :=
  Forall (λ t, query_tree is_ad t = None) ts.


(** The child nodes once the wrapper that the query finds, if any, is
    detached. *)
Definition rest_of (ts : list tree) : list tree :=
  match query_ad_wrapper ts with
  | Some (p, _) => remove_at p ts
  | None => ts
  end.

(** The wrapper a placement uses: the one the query finds, or a new one. *)
Definition wrapper_of (ts : list tree) : tree :=
  match query_ad_wrapper ts with
  | Some (_, t) => t
  | None => Node new_wrapper []
  end.

(** No child of the container that is not an ad wrapper is an SVG
    element; and so for every container of the page. *)
Definition html_siblings (c : container) : Prop :=
  Forall (λ e, el_svg e = false) (eligible_elems (ct_nodes c)).

Definition html_page (w : World) : Prop :=
  Forall html_siblings (document w).

(** An operation keeps a relation between the world before and after,
    whether it returns or throws. *)
Definition keeps {A} (R : World → World → Prop) (c : M A) : Prop :=
  ∀ w, R w (c w).2.

(** The relation of a world to one in which [f] reads the same. *)
Definition same {A} (f : World → A) : World → World → Prop :=
  λ w w', f w' = f w.

(** A function of the world that placements, queues and the random
    cursor do not enter. *)
Definition config_field {A} (f : World → A) : Prop :=
  (∀ v w, f (set_document v w) = f w) ∧
  (∀ v w, f (set_adQueues v w) = f w) ∧
  (∀ v w, f (set_rand_cursor v w) = f w).

(** [n] consecutive calls of [getNextAdRoundRobin]. *)
Fixpoint draws_global (bs : list string) (n : nat) : M (list (option string)) :=
  match n with
  | 0 => ret []
  | S n' =>
      let* ad := getNextAdRoundRobin bs in
      let* rest := draws_global bs n' in
      ret (ad :: rest)
  end.

(** The string is empty or starts with a character that is not a decimal
    digit. *)
Definition no_leading_digit (s : string) : Prop :=
  match s with
  | String a _ => digit_of a = None
  | EmptyString => True
  end.



(** [o] is what [getNextAd] draws for container [h] in world [w], and
    [w'] holds what is left of the queue: the head and tail of the
    stored queue, or, when nothing is stored, of a shuffle of [bs]. *)
Definition drawn (h : nat) (bs : list string) (w : World)
    (o : option string) (w' : World) : Prop :=
  (∃ ad rest, adQueues w !! h = Some (ad :: rest) ∧ o = Some ad ∧
              adQueues w' !! h = Some rest) ∨
  (default [] (adQueues w !! h) = [] ∧
   ∃ fresh, fresh ≡ₚ bs ∧ o = head fresh ∧ adQueues w' !! h = Some (tail fresh)).

(** The copy-sibling selector, when one is configured, is a selector
    that parses. *)
Definition copy_selector_ok (w : World) : Prop :=
  truthy (copySiblingSelector w) = true →
  sel_valid (default EmptyString (copySiblingSelector w)) = true.

(** Every configured container selector parses. *)
Definition selectors_ok (w : World) : Prop :=
  Forall (λ s, sel_valid (selector_text s) = true) (containerSelectors w).

(** [Array.from(document.querySelectorAll(selector))] for a selector that
    parses: the handles of the matching containers, in document order. *)
Definition matches_of (selector : string) (doc : list container) : list nat :=
  fst <$> List.filter (λ p, sel_container selector p.2) (imap (λ i c, (i, c)) doc).


(** The id of the style element of [addAdAnimations]. *)
Definition animations_style_id : string := "ad-injector-animations".

(** [addAdAnimations()] (lines 448-486) on the ids of the elements of the
    document: unless [getElementById] finds the id, a style element
    with this id is appended.  The text of the stylesheet is not
    modelled. *)
Definition addAdAnimations (ids : list string) : list string :=
  if bool_decide (animations_style_id ∈ ids) then ids
  else ids ++ [animations_style_id].


(** ** Example inputs *)

Definition half : sample := {| sample_val := 1 # 2; sample_ok := eq_refl |}.
Definition zero_sample : sample := {| sample_val := 0; sample_ok := eq_refl |}.
Definition nine_tenths : sample := {| sample_val := 9 # 10; sample_ok := eq_refl |}.

(** Three streams for [Math.random]: constant ones and one that alternates. *)
Definition rng_half : nat → sample := λ _, half.
Definition rng_zero : nat → sample := λ _, zero_sample.
Definition rng_mixed : nat → sample :=
  λ k, if Nat.even k then nine_tenths else zero_sample.

Definition plain (cls : string) (id : string) : tree :=
  Node {| el_classes := [cls]; el_id := id; el_shown := true;
          el_svg := false; el_content := Markup "item" |} [].

(** A list with four items and white space between them. *)
Definition list4 : container :=
  {| ct_classes := ["products"]; ct_id := "list"; ct_adIndex := None;
     ct_tree := [plain "card" "a"; Text " "; plain "card" "b"; Text " ";
                 plain "card" "c"; plain "card" "d"] |}.

(** A list with only two items. *)
Definition list2 : container :=
  {| ct_classes := ["products"]; ct_id := "short"; ct_adIndex := None;
     ct_tree := [plain "card" "a"; plain "card" "b"] |}.

(** An empty preset slot. *)
Definition slot1 : container :=
  {| ct_classes := ["products"]; ct_id := "banner-slot-1"; ct_adIndex := None;
     ct_tree := [Text "placeholder"] |}.

Definition banner_a : banner :=
  {| imageUrl := Some "a.png"; targetUrl := Some "https://a.example" |}.
Definition banner_b : banner :=
  {| imageUrl := Some "b.png"; targetUrl := None |}.
Definition banner_c : banner :=
  {| imageUrl := Some "c.png"; targetUrl := None |}.

Definition config_of (cs : list container_entry) (bs : list banner) : config :=
  {| property_id := "site-1"; url := None; containers := Some cs;
     cfg_banners := Some bs; cfg_copySiblingSelector := None |}.

Definition ok_response (cfg : config) : fetch_result :=
  Response true (ParsedJson (Configs [cfg])).

(** Selectors of the examples: every string parses and matches a
    container by its first class. *)
Definition by_class (selector : string) (c : container) : bool :=
  bool_decide (head (ct_classes c) = Some selector).
Definition no_child (selector : string) (e : element) : bool := false.
Definition no_markup (selector html : string) : option element := None.
Definition all_valid (selector : string) : bool := true.

(** The list of four items after a placement has persisted index 2. *)
Definition list4_indexed : container := set_adIndex (Some "2") list4.

(** A world in which one banner was loaded earlier. *)
Definition loaded_world : World := set_banners ["old-1"] (page_load []).

(** An entry with two banners and no container selector. *)
Definition no_container_config : config := config_of [] [banner_a; banner_b].

Definition site : option string := Some "site-1".
Definition page : string := "https://shop.example/home".

(** A page with three matched containers and a configuration with one
    selector and three banners. *)
Definition demo_page : list container := [list4; list2; slot1].
Definition demo_response : fetch_result :=
  ok_response (config_of [SelString "products"] [banner_a; banner_b; banner_c]).

(** A sample [r] with [Math.floor(r * m) = i], for [i < m]: the fraction
    [i / m]. *)
Definition sample_of (i m : nat) : sample :=
  let v := (Z.of_nat i # Pos.of_nat m)%Q in
  match Sumbool.sumbool_of_bool (Qle_bool 0 v && negb (Qle_bool 1 v)) with
  | left Hv => {| sample_val := v; sample_ok := Hv |}
  | right _ => zero_sample
  end.


(** An entry for the site that is configured for another page. *)
Definition other_page_config : config :=
  {| property_id := "site-1"; url := Some "https://other.example/";
     containers := Some [SelString "products"];
     cfg_banners := Some [banner_a]; cfg_copySiblingSelector := None |}.

(** A world with one banner and one selector configured. *)
Definition configured_world : World :=
  set_containerSelectors [SelString "products"]
    (set_banners ["ad"] (page_load demo_page)).

(** A child matches a selector when the selector is its first class. *)
Definition child_by_class (selector : string) (e : element) : bool :=
  bool_decide (head (el_classes e) = Some selector).


(** The configured world with both timers running. *)
Definition ticking_world : World :=
  set_timers [(RotateAdSlots, 10000%Z); (FetchAllBannersFromFile, 300000%Z)]
    configured_world.


(** Selectors that parse, except the text an object entry without a
    name turns into. *)
Definition strict_valid (selector : string) : bool :=
  negb (String.eqb selector "[object Object]").

(** A world whose only container entry is an object without a name. *)
Definition broken_world : World :=
  set_containerSelectors [SelObject None]
    (set_banners ["ad"] (page_load demo_page)).

(** The first item of the example lists. *)
Definition card_a : element :=
  {| el_classes := ["card"]; el_id := "a"; el_shown := true;
     el_svg := false; el_content := Markup "item" |}.

(** An element of class ad-send-banner that the page brings along. *)
Definition old_wrapper (id : string) : element :=
  {| el_classes := [ad_class]; el_id := id; el_shown := true;
     el_svg := false; el_content := Markup "old ad" |}.

(** A list item that holds such an element. *)
Definition holder (id : string) : tree :=
  Node {| el_classes := ["card"]; el_id := id; el_shown := true;
          el_svg := false; el_content := Markup EmptyString |}
       [Node (old_wrapper "in") []].

(** A preset slot whose only child holds an element of class
    ad-send-banner. *)
Definition slot_nested : container :=
  {| ct_classes := ["products"]; ct_id := "banner-slot-2"; ct_adIndex := None;
     ct_tree := [holder "a"] |}.

(** A list of four items with a wrapper after the second, whose first
    item holds an element of class ad-send-banner. *)
Definition list4_nested : container :=
  {| ct_classes := ["products"]; ct_id := "list"; ct_adIndex := None;
     ct_tree := [holder "a"; plain "card" "b"; Node (old_wrapper "w") [];
                 plain "card" "c"; plain "card" "d"] |}.

(** A list of four items whose first item is an SVG element. *)
Definition svg_item : element :=
  {| el_classes := ["icon"]; el_id := "s"; el_shown := true;
     el_svg := true; el_content := Markup EmptyString |}.
Definition list4_svg : container :=
  {| ct_classes := ["products"]; ct_id := "list"; ct_adIndex := None;
     ct_tree := [Node svg_item []; plain "card" "b"; plain "card" "c";
                 plain "card" "d"] |}.

(** A list whose last item only is a card, with a wrapper in front of
    it, on a page that copies the element matching the selector card. *)
Definition card_c : element :=
  {| el_classes := ["card"]; el_id := "c"; el_shown := true;
     el_svg := false; el_content := Markup "item" |}.
Definition list_late : container :=
  {| ct_classes := ["products"]; ct_id := "late"; ct_adIndex := None;
     ct_tree := [plain "title" "t"; plain "title" "u"; Node (old_wrapper "w") [];
                 Node card_c []] |}.
Definition copying_world : World :=
  set_copySiblingSelector (Some "card") (page_load [list_late]).


(** * Properties *)

(** ** The random source *)

Lemma sample_range (r : sample) : (0 <= sample_val r)%Q ∧ (sample_val r < 1)%Q.
Proof.
  destruct r as [v Hv]; simpl.
  apply andb_prop in Hv as [H0 H1].
  split; [by apply Qle_bool_iff|].
  apply Qnot_le_lt. intros Hle. apply Qle_bool_iff in Hle.
  rewrite Hle in H1. discriminate.
Qed.

Lemma floor_mul_lt (r : sample) (m : nat) : 0 < m → floor_mul r m < m.
Proof.
  intros Hm. unfold floor_mul.
  destruct (sample_range r) as [H0 H1].
  set (q := (sample_val r * inject_Z (Z.of_nat m))%Q).
  assert (Hq0 : (0 <= q)%Q).
  { unfold q. apply Qmult_le_0_compat; [done|].
    change 0%Q with (inject_Z 0). rewrite <- Zle_Qle. lia. }
  assert (Hq1 : (q < inject_Z (Z.of_nat m))%Q).
  { unfold q. rewrite <- (Qmult_1_l (inject_Z (Z.of_nat m))) at 2.
    apply Qmult_lt_compat_r; [|done].
    change 0%Q with (inject_Z 0). rewrite <- Zlt_Qlt. lia. }
  assert (Hf0 : (0 <= Qfloor q)%Z).
  { change 0%Z with (Qfloor (inject_Z 0)) at 1. by apply Qfloor_resp_le. }
  assert (Hf1 : (Qfloor q < Z.of_nat m)%Z).
  { rewrite Zlt_Qlt. eapply Qle_lt_trans; [apply Qfloor_le|done]. }
  lia.
Qed.

(** ** World bookkeeping *)

Lemma set_rand_cursor_same w : set_rand_cursor (rand_cursor w) w = w.
Proof. by destruct w. Qed.

Lemma set_rand_cursor_twice a b w :
  set_rand_cursor a (set_rand_cursor b w) = set_rand_cursor a w.
Proof. done. Qed.

(** ** Shuffle *)

Lemma insert_perm_delete {A} (l : list A) i b :
  i < length l → <[i:=b]> l ≡ₚ b :: delete i l.
Proof.
  revert i. induction l as [|a l IH]; intros [|i] Hi; simpl in *; try lia.
  - done.
  - rewrite (IH i) by lia. apply Permutation_swap.
Qed.

(** One exchange of the loop: writing the two values read at [m] and [i]
    to each other's place permutes the array. *)
Lemma swap_permutation {A} (l : list A) m i t x :
  l !! m = Some t → l !! i = Some x → <[i:=t]> (<[m:=x]> l) ≡ₚ l.
Proof.
  intros Hm Hi.
  pose proof (lookup_lt_Some _ _ _ Hm) as Hml.
  pose proof (lookup_lt_Some _ _ _ Hi) as Hil.
  destruct (decide (i = m)) as [->|Hne].
  - rewrite list_insert_insert_eq. by rewrite list_insert_id.
  - etrans; [apply insert_perm_delete; by rewrite length_insert|].
    etrans; [|symmetry; apply (delete_Permutation l m t Hm)].
    apply perm_skip. apply (Permutation_cons_inv (a := x)).
    etrans; [symmetry; apply delete_Permutation;
             rewrite list_lookup_insert_ne by done; exact Hi|].
    by apply insert_perm_delete.
Qed.

(** The loop returns: with [m] at most the length both reads are in
    range.  It consumes [m] samples and touches nothing else. *)
Lemma shuffle_loop_returns {A} (m : nat) (array : list A) w :
  m ≤ length array →
  ∃ out, shuffle_loop m array w = (Ret out, set_rand_cursor (m + rand_cursor w) w)
         ∧ out ≡ₚ array.
Proof.
  revert array w. induction m as [|m IH]; intros array w Hm.
  - exists array. simpl. unfold ret. by rewrite set_rand_cursor_same.
  - simpl. unfold bind, Math_random.
    set (i := floor_mul (random (rand_cursor w)) (S m)).
    assert (Hi : i < S m) by (apply floor_mul_lt; lia).
    destruct (lookup_lt_is_Some_2 array m) as [t Ht]; [lia|].
    destruct (lookup_lt_is_Some_2 array i) as [x Hx]; [lia|].
    rewrite Ht, Hx.
    destruct (IH (<[i:=t]> (<[m:=x]> array)) (set_rand_cursor (S (rand_cursor w)) w))
      as (out & Heq & Hperm).
    { rewrite !length_insert. lia. }
    exists out. split.
    + rewrite Heq. f_equal. rewrite set_rand_cursor_twice. f_equal. simpl. lia.
    + rewrite Hperm. by eapply swap_permutation.
Qed.

Lemma shuffle_returns {A} (array : list A) w :
  ∃ out, shuffle array w = (Ret out, set_rand_cursor (length array + rand_cursor w) w)
         ∧ out ≡ₚ array.
Proof. by apply shuffle_loop_returns. Qed.

(** C9.  For every input array, [shuffle] returns, and what it returns is
    a permutation of the input: the same elements with the same
    multiplicities, hence the same length. *)
Theorem shuffle_is_permutation {A} (array : list A) (w : World) :
  ∃ out w', shuffle array w = (Ret out, w') ∧
            out ≡ₚ array ∧ length out = length array.
Proof.
  destruct (shuffle_returns array w) as (out & Heq & Hperm).
  exists out, (set_rand_cursor (length array + rand_cursor w) w).
  split; [done|]. split; [done|]. by rewrite Hperm.
Qed.

(** ** The per-container queue *)

(** A non-empty queue is not refilled: the head is returned, the tail is
    stored, no sample is consumed. *)
Lemma getNextAd_continue c bs w ad rest :
  adQueues w !! c = Some (ad :: rest) →
  getNextAd c bs w = (Ret (Some ad), set_adQueues (<[c:=rest]> (adQueues w)) w).
Proof.
  intros Hq. unfold getNextAd, bind, get. rewrite Hq. reflexivity.
Qed.

(** A missing or exhausted queue is refilled with a shuffle of the banner
    list, whose head is returned. *)
Lemma getNextAd_refill c bs w :
  bs ≠ [] → adQueues w !! c = None ∨ adQueues w !! c = Some [] →
  ∃ ad rest,
    ad :: rest ≡ₚ bs ∧
    getNextAd c bs w =
      (Ret (Some ad),
       set_adQueues (<[c:=rest]> (<[c:=ad :: rest]> (adQueues w)))
                    (set_rand_cursor (length bs + rand_cursor w) w)).
Proof.
  intros Hbs Hq.
  destruct (shuffle_returns bs w) as (fresh & Heq & Hperm).
  destruct fresh as [|ad rest].
  { apply Permutation_nil_l in Hperm. congruence. }
  exists ad, rest. split; [done|].
  unfold getNextAd, bind, get.
  destruct Hq as [-> | ->]; rewrite Heq; reflexivity.
Qed.

(** The answers of [n] calls are the first [n] entries of the stored queue
    followed by a sequence of shuffles of the banner list. *)
Lemma draws_cycles c bs n w :
  bs ≠ [] →
  ∃ out w' cycles,
    draws c bs n w = (Ret out, w') ∧ length out = n ∧
    Forall (λ cyc, cyc ≡ₚ bs) cycles ∧
    out = take n (Some <$> (default [] (adQueues w !! c) ++ concat cycles)).
Proof.
  intros Hbs. revert w. induction n as [|n IH]; intros w.
  - exists [], w, []. by rewrite take_0.
  - destruct (adQueues w !! c) as [[|ad rest]|] eqn:Hq.
    + destruct (getNextAd_refill c bs w Hbs) as (ad & rest & Hperm & Heq); [by right|].
      destruct (IH (set_adQueues (<[c:=rest]> (<[c:=ad :: rest]> (adQueues w)))
                      (set_rand_cursor (length bs + rand_cursor w) w)))
        as (out & w' & cycles & Hd & Hlen & Hall & Hout).
      simpl in Hout. rewrite lookup_insert_eq in Hout. simpl in Hout.
      exists (Some ad :: out), w', ((ad :: rest) :: cycles).
      split; [|split; [simpl; lia|split; [by constructor|]]].
      * simpl. unfold bind at 1. rewrite Heq. unfold bind at 1. by rewrite Hd.
      * simpl. by rewrite Hout.
    + destruct (IH (set_adQueues (<[c:=rest]> (adQueues w)) w))
        as (out & w' & cycles & Hd & Hlen & Hall & Hout).
      simpl in Hout. rewrite lookup_insert_eq in Hout. simpl in Hout.
      exists (Some ad :: out), w', cycles.
      split; [|split; [simpl; lia|split; [done|]]].
      * simpl. unfold bind at 1. rewrite (getNextAd_continue c bs w ad rest Hq).
        unfold bind at 1. by rewrite Hd.
      * simpl. by rewrite Hout.
    + destruct (getNextAd_refill c bs w Hbs) as (ad & rest & Hperm & Heq); [by left|].
      destruct (IH (set_adQueues (<[c:=rest]> (<[c:=ad :: rest]> (adQueues w)))
                      (set_rand_cursor (length bs + rand_cursor w) w)))
        as (out & w' & cycles & Hd & Hlen & Hall & Hout).
      simpl in Hout. rewrite lookup_insert_eq in Hout. simpl in Hout.
      exists (Some ad :: out), w', ((ad :: rest) :: cycles).
      split; [|split; [simpl; lia|split; [by constructor|]]].
      * simpl. unfold bind at 1. rewrite Heq. unfold bind at 1. by rewrite Hd.
      * simpl. by rewrite Hout.
Qed.

(** In a sequence of shuffles of a duplicate-free list, an entry that
    occurs at two positions occurs the second time only after a whole
    shuffle, so after every entry of the list. *)
Lemma cycles_repeat_after_all (bs : list string) cycles i j b :
  NoDup bs → Forall (λ cyc, cyc ≡ₚ bs) cycles →
  i < j → concat cycles !! i = Some b → concat cycles !! j = Some b →
  ∀ b', b' ∈ bs → ∃ i', i' < j ∧ concat cycles !! i' = Some b'.
Proof.
  intros Hnd Hall. revert i j.
  induction Hall as [|cyc cycles Hcyc Hall IH]; intros i j Hij Hi Hj b' Hb'.
  { simpl in Hi. by rewrite lookup_nil in Hi. }
  simpl in *.
  destruct (decide (i < length cyc)) as [Hlt|Hge].
  - destruct (decide (j < length cyc)) as [Hjlt|Hjge].
    + rewrite lookup_app_l in Hi, Hj by done.
      assert (NoDup cyc) as Hndc by (by rewrite Hcyc).
      pose proof (NoDup_lookup _ _ _ _ Hndc Hi Hj). lia.
    + rewrite <- Hcyc in Hb'. apply list_elem_of_lookup in Hb' as [i' Hi'].
      exists i'. split.
      * apply lookup_lt_Some in Hi'. lia.
      * by rewrite lookup_app_l by (by eapply lookup_lt_Some).
  - rewrite lookup_app_r in Hi, Hj by lia.
    destruct (IH (i - length cyc) (j - length cyc) ltac:(lia) Hi Hj b' Hb')
      as (i' & Hlt' & Hi').
    exists (length cyc + i'). split; [lia|].
    rewrite lookup_app_r by lia. by replace (length cyc + i' - length cyc) with i' by lia.
Qed.

(** C1 (as amended).  For a non-empty banner list and a fixed container:
    a queue that still holds banners is never refilled, the call returns
    its head and stores its tail; and starting from a missing or
    exhausted queue, the answers of any number of calls are a prefix of a
    sequence of cycles, each a permutation of the banner list, entry by
    entry.  When the list names no banner twice, a banner is returned a
    second time only after every banner of the list has been returned. *)
Theorem getNextAd_without_replacement (c : nat) (bs : list string) :
  bs ≠ [] →
  (∀ w ad rest,
     adQueues w !! c = Some (ad :: rest) →
     getNextAd c bs w = (Ret (Some ad), set_adQueues (<[c:=rest]> (adQueues w)) w)) ∧
  (∀ w n,
     adQueues w !! c = None ∨ adQueues w !! c = Some [] →
     ∃ out w' cycles,
       draws c bs n w = (Ret out, w') ∧ length out = n ∧
       Forall (λ cyc, cyc ≡ₚ bs) cycles ∧
       out = take n (Some <$> concat cycles) ∧
       (NoDup bs →
        ∀ i j b, i < j → out !! i = Some (Some b) → out !! j = Some (Some b) →
                 ∀ b', b' ∈ bs → ∃ i', i' < j ∧ out !! i' = Some (Some b'))).
Proof.
  intros Hbs. split.
  - intros w ad rest Hq. by apply getNextAd_continue.
  - intros w n Hq.
    destruct (draws_cycles c bs n w Hbs) as (out & w' & cycles & Hd & Hlen & Hall & Hout).
    assert (default [] (adQueues w !! c) = []) as Hempty by (by destruct Hq as [-> | ->]).
    rewrite Hempty in Hout. simpl in Hout.
    exists out, w', cycles. do 4 (split; [done|]).
    intros Hnd i j b Hij Hi Hj b' Hb'.
    assert (Hjn : j < n) by (apply lookup_lt_Some in Hj; lia).
    assert (∀ k x, k < n → out !! k = Some (Some x) → concat cycles !! k = Some x) as Hget.
    { intros k x Hk Hx. rewrite Hout, lookup_take_lt, list_lookup_fmap in Hx by done.
      destruct (concat cycles !! k); simpl in Hx; congruence. }
    destruct (cycles_repeat_after_all bs cycles i j b Hnd Hall Hij
                (Hget i b ltac:(lia) Hi) (Hget j b Hjn Hj) b' Hb') as (i' & Hlt & Hi').
    exists i'. split; [done|].
    rewrite Hout, lookup_take_lt, list_lookup_fmap by lia. by rewrite Hi'.
Qed.

(** ** The configuration load *)

(** The load never throws and never touches the queues, the page or the
    timer table. *)
Lemma fetch_returns res w :
  ∃ w', fetchAllBannersFromFile res w = (Ret tt, w') ∧
        adQueues w' = adQueues w ∧ adRotationQueue w' = adRotationQueue w ∧
        document w' = document w ∧ timers w' = timers w.
Proof.
  destruct res as [|[] [|configs]]; simpl;
    try (eexists; split; [reflexivity|done]).
  destruct (find_config configs) as [cfg|];
    [|eexists; split; [reflexivity|done]].
  unfold bind, modify. destruct (url_mismatch cfg);
    eexists; (split; [reflexivity|done]).
Qed.

(** A failed load changes the log at most. *)
Lemma fetch_failure res w :
  load_failure res →
  fetchAllBannersFromFile res w =
    (Ret tt,
     match res with
     | NetworkError | Response true MalformedJson =>
         set_console (console w ++ [load_error]) w
     | _ => w
     end).
Proof.
  intros [ | body | | configs Hnone]; simpl; try done.
  by rewrite Hnone.
Qed.

(** A successful load replaces the banner list and resets the counter. *)
Lemma fetch_success res cfg w :
  load_success res cfg →
  ∃ w', fetchAllBannersFromFile res w = (Ret tt, w') ∧
        banners w' = render_banners cfg ∧
        containerSelectors w' = selectors_of cfg ∧
        bannerIndex w' = 0 ∧ console w' = console w.
Proof.
  intros (configs & -> & Hfind & Hurl). simpl. rewrite Hfind.
  unfold bind, modify. rewrite Hurl. eexists. split; [reflexivity|done].
Qed.

(** What the reset of lines 390-391 misses.  No load, successful or not,
    writes a per-container queue or the global queue: after a successful
    one the banner list is the newly fetched one and the banner counter
    is zero, yet a queue that still holds banners goes on yielding them,
    head first, without a shuffle; only a missing or exhausted queue
    starts a new cycle, a shuffle of the newly fetched list. *)
Lemma refetch_keeps_queues (res : fetch_result) (w : World) :
  ∃ w',
    fetchAllBannersFromFile res w = (Ret tt, w') ∧
    adQueues w' = adQueues w ∧ adRotationQueue w' = adRotationQueue w ∧
    (∀ cfg, load_success res cfg →
            banners w' = render_banners cfg ∧ bannerIndex w' = 0) ∧
    (∀ c ad rest,
       adQueues w !! c = Some (ad :: rest) →
       getNextAd c (banners w') w' =
         (Ret (Some ad), set_adQueues (<[c:=rest]> (adQueues w')) w')) ∧
    (∀ ad rest,
       adRotationQueue w = ad :: rest →
       getNextAdRoundRobin (banners w') w' = (Ret (Some ad), set_adRotationQueue rest w')) ∧
    (∀ c,
       banners w' ≠ [] → adQueues w !! c = None ∨ adQueues w !! c = Some [] →
       ∃ ad rest w'',
         ad :: rest ≡ₚ banners w' ∧
         getNextAd c (banners w') w' = (Ret (Some ad), w'') ∧
         adQueues w'' !! c = Some rest).
Proof.
  destruct (fetch_returns res w) as (w' & Heq & Hq & Hg & _ & _).
  exists w'. do 3 (split; [done|]). split; [|split; [|split]].
  - intros cfg Hok.
    destruct (fetch_success res cfg w Hok) as (w2 & Heq2 & Hb & _ & Hi & _).
    rewrite Heq in Heq2. by injection Heq2 as <-.
  - intros c ad rest Hc. apply getNextAd_continue. by rewrite Hq.
  - intros ad rest Hc. unfold getNextAdRoundRobin, bind, get. rewrite Hg, Hc.
    reflexivity.
  - intros c Hbs Hc. rewrite <- Hq in Hc.
    destruct (getNextAd_refill c (banners w') w' Hbs Hc) as (ad & rest & Hperm & Hn).
    exists ad, rest. eexists. split; [done|]. split; [exact Hn|].
    simpl. by rewrite lookup_insert_eq.
Qed.

(** C6 (as amended).  A failed configuration load (network error, non-OK
    response, malformed JSON, no entry for the site) throws nothing,
    schedules nothing and changes nothing but the log: the loader logs a
    network error and malformed JSON, and returns silently on a non-OK
    response and on a missing entry.  Banners loaded earlier stay
    configured.  On the initial load, where none were, the initialization
    then logs the missing container selectors, places nothing and starts
    no timer. *)
Theorem load_failure_is_contained (res : fetch_result) (w : World) :
  load_failure res →
  (∃ w',
     fetchAllBannersFromFile res w = (Ret tt, w') ∧
     w' = set_console (console w') w ∧
     (res = NetworkError ∨ res = Response true MalformedJson →
      console w' = console w ++ [load_error]) ∧
     ((∃ body, res = Response false body) ∨
      (∃ configs, res = Response true (ParsedJson configs)) →
      console w' = console w)) ∧
  (∀ doc, ∃ w',
     initAdInjector res (page_load doc) = (Ret tt, w') ∧
     banners w' = [] ∧ document w' = doc ∧ timers w' = [] ∧
     last (console w') = Some init_error).
Proof.
  intros Hfail. split.
  - eexists. split; [by apply fetch_failure|].
    destruct Hfail as [ | body | | configs Hnone]; simpl.
    + split; [by destruct w|]. split; [done|]. by intros [[? ?]|[? ?]].
    + split; [by destruct w|]. split; [by intros [?|?]|done].
    + split; [by destruct w|]. split; [done|]. by intros [[? ?]|[? ?]].
    + split; [by destruct w|]. split; [by intros [?|?]|done].
  - intros doc. unfold initAdInjector, bind at 1.
    rewrite (fetch_failure res _ Hfail).
    destruct Hfail as [ | body | | configs Hnone]; eexists; (split; [reflexivity|done]).
Qed.

(** ** What an operation leaves alone *)

Lemma keeps_bind {A B} (R : World → World → Prop) (c : M A) (k : A → M B) :
  (∀ x y z, R x y → R y z → R x z) →
  keeps R c → (∀ a, keeps R (k a)) → keeps R (bind c k).
Proof.
  intros Htrans Hc Hk w. unfold bind.
  specialize (Hc w). destruct (c w) as [[a|e] w1]; simpl in *; [|done].
  eapply Htrans; [exact Hc|apply Hk].
Qed.

Lemma keeps_ret {A} (R : World → World → Prop) (a : A) :
  (∀ x, R x x) → keeps R (ret a).
Proof. intros Hrefl w. apply Hrefl. Qed.

Lemma keeps_throw {A} (R : World → World → Prop) e :
  (∀ x, R x x) → keeps R (@throw A e).
Proof. intros Hrefl w. apply Hrefl. Qed.

Lemma keeps_get {A} (R : World → World → Prop) (f : World → A) :
  (∀ x, R x x) → keeps R (get f).
Proof. intros Hrefl w. apply Hrefl. Qed.

Lemma keeps_forEach {A} (R : World → World → Prop) (f : A → M unit) arr :
  (∀ x, R x x) → (∀ x y z, R x y → R y z → R x z) →
  (∀ a, keeps R (f a)) → keeps R (forEach f arr).
Proof.
  intros Hrefl Htrans Hf. induction arr as [|a arr IH]; simpl.
  - by apply keeps_ret.
  - apply keeps_bind; [done|apply Hf|by intros _].
Qed.

Lemma same_trans {A} (f : World → A) x y z : same f x y → same f y z → same f x z.
Proof. unfold same. congruence. Qed.

Ltac keeps_easy :=
  repeat first
    [ apply keeps_ret; assumption
    | apply keeps_throw; assumption
    | apply keeps_get; assumption
    | apply keeps_bind; [assumption| |intros ?]
    | match goal with
      | |- keeps _ (match ?x with _ => _ end) => destruct x
      end ].

(** A preorder on worlds that holds across writes to the queues, to the
    random cursor and to the container behind handle [h] holds across
    every placement into [h]. *)
Section Frame.
Context (R : World → World → Prop).
Context (Rrefl : ∀ x, R x x) (Rtrans : ∀ x y z, R x y → R y z → R x z).
Context (h : nat).
Context (Rqueue : ∀ v w, R w (set_adQueues v w)).
Context (Rcursor : ∀ v w, R w (set_rand_cursor v w)).
Context (Rdoc : ∀ g w, R w (set_document (alter g h (document w)) w)).

Lemma Math_random_keeps : keeps R Math_random.
Proof. intros w. apply Rcursor. Qed.

Lemma update_container_keeps g : keeps R (update_container h g).
Proof. intros w. apply Rdoc. Qed.

Lemma set_queue_keeps g : keeps R (modify (λ w, set_adQueues (g w) w)).
Proof. intros w. apply Rqueue. Qed.

Lemma shuffle_keeps {A} (array : list A) : keeps R (shuffle array).
Proof.
  intros w. destruct (shuffle_returns array w) as (out & -> & _). apply Rcursor.
Qed.

Lemma getNextAd_keeps c bs : keeps R (getNextAd c bs).
Proof.
  assert (∀ q, keeps R (queue_shift c q)) as Hshift.
  { intros [|ad rest]; simpl; keeps_easy. apply set_queue_keeps. }
  unfold getNextAd. apply keeps_bind; [done|keeps_easy|].
  intros [[|ad rest]|]; try apply Hshift;
    (apply keeps_bind; [done|apply shuffle_keeps|intros fresh]);
    (apply keeps_bind; [done|apply set_queue_keeps|intros _]);
    apply Hshift.
Qed.

Lemma pick_index_keeps adIndex len : keeps R (pick_index adIndex len).
Proof.
  unfold pick_index. destruct adIndex as [s|].
  - destruct (parseInt s) as [idx|]; [|keeps_easy].
    destruct ((idx <? 1)%Z || (Z.of_nat len - 1 <=? idx)%Z); keeps_easy.
  - apply keeps_bind; [done|apply Math_random_keeps|intros r].
    keeps_easy.
Qed.

Lemma animateAdEntry_keeps pw : keeps R (animateAdEntry h pw).
Proof.
  unfold animateAdEntry.
  apply keeps_bind; [done|apply update_container_keeps|intros _].
  apply keeps_bind; [done|apply Math_random_keeps|intros r].
  apply update_container_keeps.
Qed.

Lemma replicateSiblingStyles_keeps pw siblings :
  keeps R (replicateSiblingStyles h pw siblings).
Proof.
  unfold replicateSiblingStyles. destruct siblings as [|s siblings]; [keeps_easy|].
  destruct (List.find _ _) as [[? ref]|]; [|keeps_easy].
  apply keeps_bind; [done|apply update_container_keeps|intros _].
  destruct (el_svg ref); [keeps_easy|apply update_container_keeps].
Qed.

Lemma inject_content_keeps bs pw : keeps R (inject_content bs h pw).
Proof.
  unfold inject_content.
  apply keeps_bind; [done|keeps_easy|intros ns].
  apply keeps_bind; [done|apply getNextAd_keeps|intros adHtml].
  apply keeps_bind; [done|keeps_easy|intros css].
  destruct (truthy css).
  - destruct (sel_valid _); [|keeps_easy].
    destruct (query_selector _ _) as [customRef|]; [|keeps_easy].
    apply keeps_bind; [done|keeps_easy|intros bs'].
    apply keeps_bind; [done|keeps_easy|intros acb].
    apply keeps_bind; [done| |intros bannerObj].
    + destruct bs', acb as [[|]|], adHtml; keeps_easy.
    + apply update_container_keeps.
  - apply keeps_bind; [done|apply replicateSiblingStyles_keeps|intros _].
    apply update_container_keeps.
Qed.

Lemma sendAd_keeps bs fl : keeps R (sendAd bs h fl).
Proof.
  unfold sendAd. apply keeps_bind; [done|keeps_easy|intros [c|]];
    [|keeps_easy].
  destruct (is_slot c).
  - unfold sendAd_slot.
    apply keeps_bind; [done| |intros pw].
    { destruct (query_ad_wrapper _) as [[? ?]|]; [keeps_easy|].
      apply keeps_bind; [done|apply update_container_keeps|intros _].
      keeps_easy. }
    apply keeps_bind; [done|apply getNextAd_keeps|intros adHtml].
    apply update_container_keeps.
  - unfold sendAd_generic. destruct (_ <? 3); [keeps_easy|].
    apply keeps_bind; [done|apply pick_index_keeps|intros [[idx wr]|]];
      [|keeps_easy].
    apply keeps_bind; [done| |intros _].
    { destruct wr; [apply update_container_keeps|keeps_easy]. }
    destruct (_ !! idx) as [[pr ?]|]; [|keeps_easy].
    apply keeps_bind; [done|apply update_container_keeps|intros _].
    apply keeps_bind; [done|apply inject_content_keeps|intros _].
    apply animateAdEntry_keeps.
Qed.
End Frame.

Lemma sendAd_same {F} (f : World → F) bs h fl :
  config_field f → keeps (same f) (sendAd bs h fl).
Proof.
  intros (Hd & Hq & Hc).
  apply sendAd_keeps; [done|apply same_trans|apply Hq|apply Hc|intros ??; apply Hd].
Qed.

Lemma shuffle_same {F A} (f : World → F) (array : list A) :
  config_field f → keeps (same f) (shuffle array).
Proof. intros (Hd & Hq & Hc). apply shuffle_keeps. apply Hc. Qed.

Lemma serve_all_keeps R fl arr :
  (∀ x, R x x) → (∀ x y z, R x y → R y z → R x z) →
  (∀ bs h, keeps R (sendAd bs h fl)) →
  keeps R (forEach (λ el, let* bs := get banners in sendAd bs el fl) arr).
Proof.
  intros Hrefl Htrans Hsend. apply keeps_forEach; [done|done|intros el].
  apply keeps_bind; [done|by apply keeps_get|intros bs]. apply Hsend.
Qed.

Lemma serve_all_same {F} (f : World → F) fl arr :
  config_field f →
  keeps (same f) (forEach (λ el, let* bs := get banners in sendAd bs el fl) arr).
Proof.
  intros Hf. apply serve_all_keeps; [done|apply same_trans|].
  intros bs h. by apply sendAd_same.
Qed.

Lemma config_field_banners : config_field banners.
Proof. by repeat split. Qed.
Lemma config_field_selectors : config_field containerSelectors.
Proof. by repeat split. Qed.
Lemma config_field_timers : config_field timers.
Proof. by repeat split. Qed.

(** Resolving the selectors reads the page and writes nothing. *)
Lemma collect_containers_pure sels acc w :
  (collect_containers sels acc w).2 = w.
Proof.
  revert acc. induction sels as [|s sels IH]; intros acc; simpl; [done|].
  unfold bind, querySelectorAll. destruct (sel_valid _); simpl; [apply IH|done].
Qed.

(** ** Initialization and timers *)

(** What the initialization leaves behind: the banner list and the
    selectors are those of the load, and both timers are registered
    exactly when the run reaches its last statement with more than one
    banner. *)
Lemma init_shape res w :
  let w1 := (fetchAllBannersFromFile res w).2 in
  let r := initAdInjector res w in
  banners r.2 = banners w1 ∧ containerSelectors r.2 = containerSelectors w1 ∧
  ((r.1 = Ret tt ∧ containerSelectors w1 ≠ [] ∧ 1 < length (banners w1) ∧
    timers r.2 = timers w ++ both_timers) ∨
   ((r.1 ≠ Ret tt ∨ containerSelectors w1 = [] ∨ length (banners w1) ≤ 1) ∧
    timers r.2 = timers w)).
Proof.
  destruct (fetch_returns res w) as (w1 & Heq & _ & _ & _ & Ht).
  rewrite Heq. simpl.
  remember (initAdInjector res w) as r eqn:Hr.
  unfold initAdInjector, bind at 1 in Hr. rewrite Heq in Hr.
  unfold bind at 1, get at 1 in Hr.
  destruct (containerSelectors w1) as [|s sels] eqn:Hsels.
  { subst r. simpl. rewrite Hsels. split; [done|]. split; [done|].
    right. split; [by right; left|done]. }
  unfold bind at 1 in Hr.
  pose proof (collect_containers_pure (s :: sels) [] w1) as Hpure.
  destruct (collect_containers (s :: sels) [] w1) as [[allContainers|e] w1'];
    simpl in Hpure; subst w1'.
  2:{ subst r. simpl. rewrite Hsels. split; [done|]. split; [done|].
      right. split; [by left|done]. }
  unfold bind at 1, get at 1 in Hr. unfold bind at 1 in Hr.
  set (place := match banners w1 with
                | [] => ret tt
                | _ :: _ => _
                end) in Hr.
  assert (∀ {F} (f : World → F), config_field f → f (place w1).2 = f w1) as Hplace.
  { intros F f Hf. subst place. destruct (banners w1); [done|].
    destruct allContainers; [done|].
    apply (keeps_bind (same f)); [apply same_trans|by apply shuffle_same|intros ?].
    by apply serve_all_same. }
  pose proof (Hplace _ banners config_field_banners) as Hb.
  pose proof (Hplace _ containerSelectors config_field_selectors) as Hs.
  pose proof (Hplace _ timers config_field_timers) as Htm.
  destruct (place w1) as [[[]|e] w2]; simpl in Hb, Hs, Htm.
  2:{ subst r. simpl. rewrite Hb, Hs, Hsels, Htm. split; [done|]. split; [done|].
      right. split; [by left|done]. }
  unfold bind at 1, get at 1 in Hr. rewrite Hb in Hr.
  destruct (1 <? length (banners w1)) eqn:Hlen; subst r; simpl.
  - apply Nat.ltb_lt in Hlen. rewrite Hb, Hs, Hsels, Htm, Ht.
    split; [done|]. split; [done|]. left.
    split; [done|]. split; [done|]. split; [done|]. by rewrite <- app_assoc.
  - apply Nat.ltb_ge in Hlen. rewrite Hb, Hs, Hsels, Htm.
    split; [done|]. split; [done|]. right. split; [by right; right|done].
Qed.

(** A rotation tick serves a permutation of the containers that the
    configured selectors match. *)
Lemma rotation_order_permutation w order w' :
  rotation_order w = (Ret (Some order), w') →
  ∃ all, collect_containers (containerSelectors w) [] w = (Ret all, w) ∧
         order ≡ₚ all.
Proof.
  unfold rotation_order, bind at 1, get at 1.
  destruct (banners w) as [|b bs]; [done|].
  unfold bind at 1, get at 1.
  destruct (containerSelectors w) as [|s sels]; [done|].
  unfold bind at 1.
  pose proof (collect_containers_pure (s :: sels) [] w) as Hpure.
  destruct (collect_containers (s :: sels) [] w) as [[all|e] w1];
    simpl in Hpure; subst w1; [|done].
  destruct all as [|a all]; [done|].
  unfold bind. destruct (shuffle_returns (a :: all) w) as (out & -> & Hperm).
  intros [= <- <-]. by exists (a :: all).
Qed.

(** C8 (as amended).  The initialization registers either both timers,
    the rotation with a period of 10000 ms and then the re-fetch with a
    period of 300000 ms, or none; it registers them if and only if it
    runs to its end without an exception, at least one container
    selector was loaded and more than one banner was loaded.  A rotation
    tick that gets as far as serving serves a permutation of all the
    containers the selectors match. *)
Theorem init_starts_timers (res : fetch_result) (w : World) :
  let r := initAdInjector res w in
  (timers r.2 = timers w ++ both_timers ∨ timers r.2 = timers w) ∧
  (timers r.2 = timers w ++ both_timers ↔
   r.1 = Ret tt ∧ containerSelectors r.2 ≠ [] ∧ 1 < length (banners r.2)) ∧
  (∀ w0 order w1,
     rotation_order w0 = (Ret (Some order), w1) →
     ∃ all, collect_containers (containerSelectors w0) [] w0 = (Ret all, w0) ∧
            order ≡ₚ all).
Proof.
  destruct (init_shape res w) as (Hb & Hs & Hcases). simpl in *.
  split; [|split; [|apply rotation_order_permutation]].
  - destruct Hcases as [(_ & _ & _ & ->)|(_ & ->)]; [by left|by right].
  - rewrite Hb, Hs. destruct Hcases as [(? & ? & ? & Ht)|(Hno & Ht)]; rewrite Ht.
    + done.
    + split.
      * intros Happ. apply (f_equal length) in Happ.
        rewrite length_app in Happ. simpl in Happ. lia.
      * intros (? & ? & ?). destruct Hno as [?|[?|?]]; [done|done|lia].
Qed.

(** C10.  If the initial configuration load yields fewer than two
    banners, the initialization registers no timer; on a page where none
    was registered before, no timer ever fires afterwards, so the
    configuration is never fetched again. *)
Theorem few_banners_no_refetch (res : fetch_result) (w : World) :
  length (banners (fetchAllBannersFromFile res w).2) < 2 →
  timers w = [] →
  timers (initAdInjector res w).2 = [] ∧
  ∀ w', ¬ step (initAdInjector res w).2 w'.
Proof.
  intros Hlen Ht.
  destruct (init_shape res w) as (_ & _ & Hcases). simpl in *.
  assert (timers (initAdInjector res w).2 = []) as Hnone.
  { destruct Hcases as [(_ & _ & ? & _)|(_ & ->)]; [lia|done]. }
  split; [done|].
  intros w' Hstep. destruct Hstep as [cb period res' Hin].
  rewrite Hnone in Hin. by apply not_elem_of_nil in Hin.
Qed.

(** ** The persisted index reads back *)

Lemma parse_digits_uint (d : Decimal.uint) (a : nat) :
  parse_digits (Some (Z.of_nat a)) (NilEmpty.string_of_uint d) =
  Some (Z.of_nat (Nat.of_uint_acc d a)).
Proof.
  revert a. induction d as [|d IH|d IH|d IH|d IH|d IH|d IH|d IH|d IH|d IH|d IH];
    intros a; [done|..]; cbn [NilEmpty.string_of_uint parse_digits Nat.of_uint_acc].
  all: change (digit_of "0") with (Some 0%Z); change (digit_of "1") with (Some 1%Z);
    change (digit_of "2") with (Some 2%Z); change (digit_of "3") with (Some 3%Z);
    change (digit_of "4") with (Some 4%Z); change (digit_of "5") with (Some 5%Z);
    change (digit_of "6") with (Some 6%Z); change (digit_of "7") with (Some 7%Z);
    change (digit_of "8") with (Some 8%Z); change (digit_of "9") with (Some 9%Z);
    cbn [default]; rewrite <- IH; f_equal; f_equal;
    rewrite Nat.tail_mul_spec; unfold id; lia.
Qed.

(** What a placement writes to the attribute, [String(idx)], is read back
    by [parseInt] as [idx]. *)
Lemma parseInt_string_of_nat (n : nat) :
  parseInt (string_of_nat n) = Some (Z.of_nat n).
Proof.
  unfold string_of_nat.
  rewrite <- (DecimalNat.Unsigned.of_to n) at 2.
  unfold Nat.of_uint.
  assert (Nat.to_uint n ≠ Decimal.Nil) as Hnil.
  { rewrite <- (DecimalNat.Unsigned.of_to n), DecimalNat.Unsigned.to_of.
    apply DecimalFacts.unorm_nonnil. }
  destruct (Nat.to_uint n) as [|d|d|d|d|d|d|d|d|d|d]; [done|..];
    unfold parseInt; cbn [NilEmpty.string_of_uint skip_white];
    (change (is_white _) with false; cbv iota);
    cbn [parse_digits];
    change (digit_of "0") with (Some 0%Z); change (digit_of "1") with (Some 1%Z);
    change (digit_of "2") with (Some 2%Z); change (digit_of "3") with (Some 3%Z);
    change (digit_of "4") with (Some 4%Z); change (digit_of "5") with (Some 5%Z);
    change (digit_of "6") with (Some 6%Z); change (digit_of "7") with (Some 7%Z);
    change (digit_of "8") with (Some 8%Z); change (digit_of "9") with (Some 9%Z);
    cbn [default Nat.of_uint_acc];
    rewrite <- parse_digits_uint; f_equal.
Qed.

(** ** The insertion index *)

(** With at least three eligible children the index is always chosen, it
    lies strictly between the first and the last child, and the attribute
    afterwards reads back as this index.  An attribute value that parses
    to an index in bounds is used as it is and not rewritten; any other
    value is replaced by 1. *)
Lemma pick_index_spec adIndex len w :
  3 ≤ len →
  ∃ idx written k,
    pick_index adIndex len w = (Ret (Some (idx, written)), set_rand_cursor k w) ∧
    1 ≤ idx ≤ len - 2 ∧
    (∃ s, from_option Some adIndex written = Some s ∧
          parseInt s = Some (Z.of_nat idx)) ∧
    (∀ s z, adIndex = Some s → parseInt s = Some z →
            (1 ≤ z < Z.of_nat len - 1)%Z → idx = Z.to_nat z ∧ written = None) ∧
    (∀ s, adIndex = Some s →
          (∀ z, parseInt s = Some z → ¬ (1 ≤ z < Z.of_nat len - 1)%Z) →
          idx = 1 ∧ written = Some (string_of_nat 1)).
Proof.
  intros Hlen. unfold pick_index. destruct adIndex as [s|].
  - destruct (parseInt s) as [z|] eqn:Hparse.
    + destruct ((z <? 1)%Z || (Z.of_nat len - 1 <=? z)%Z) eqn:Htest.
      * exists 1, (Some (string_of_nat 1)), (rand_cursor w).
        rewrite set_rand_cursor_same. split; [done|]. split; [lia|].
        split; [exists (string_of_nat 1); split; [done|apply parseInt_string_of_nat]|].
        split; [|done].
        intros s' z' [= <-] Hz' Hin. assert (z' = z) as -> by congruence.
        apply orb_true_iff in Htest as [Ht|Ht]; lia.
      * exists (Z.to_nat z), None, (rand_cursor w).
        apply orb_false_iff in Htest as [Ht1 Ht2].
        rewrite set_rand_cursor_same. split; [done|]. split; [lia|].
        split; [exists s; split; [done|rewrite Hparse; f_equal; lia]|].
        split.
        -- intros s' z' [= <-] Hz' Hin. by assert (z' = z) as -> by congruence.
        -- intros s' [= <-] Hout. destruct (Hout z Hparse). lia.
    + exists 1, (Some (string_of_nat 1)), (rand_cursor w).
      rewrite set_rand_cursor_same. split; [done|]. split; [lia|].
      split; [exists (string_of_nat 1); split; [done|apply parseInt_string_of_nat]|].
      split; [|done]. intros s' z' [= <-] Hz'. congruence.
  - unfold bind, Math_random. rewrite length_seq.
    set (i := floor_mul (random (rand_cursor w)) (len - 2)).
    assert (i < len - 2) as Hi by (apply floor_mul_lt; lia).
    rewrite lookup_seq_lt by done.
    exists (1 + i), (Some (string_of_nat (1 + i))), (S (rand_cursor w)).
    split; [done|]. split; [lia|].
    split; [eexists; split; [done|apply parseInt_string_of_nat]|].
    split; by intros.
Qed.

(** ** Child nodes and positions *)

Lemma elems_app l1 l2 : elems (l1 ++ l2) = elems l1 ++ elems l2.
Proof. apply omap_app. Qed.

Lemma eligible_elems_app l1 l2 :
  eligible_elems (l1 ++ l2) = eligible_elems l1 ++ eligible_elems l2.
Proof. unfold eligible_elems. by rewrite elems_app, List.filter_app. Qed.

Lemma ad_elems_app l1 l2 : ad_elems (l1 ++ l2) = ad_elems l1 ++ ad_elems l2.
Proof. unfold ad_elems. by rewrite elems_app, List.filter_app. Qed.

Lemma eligible_elems_cons e l :
  eligible_elems (Element e :: l) =
  if is_ad e then eligible_elems l else e :: eligible_elems l.
Proof. unfold eligible_elems. simpl. by destruct (is_ad e). Qed.

Lemma ad_elems_cons e l :
  ad_elems (Element e :: l) = if is_ad e then e :: ad_elems l else ad_elems l.
Proof. unfold ad_elems. simpl. by destruct (is_ad e). Qed.

Lemma elements_from_snd i ns : (elements_from i ns).*2 = elems ns.
Proof.
  revert i. induction ns as [|[e|t] ns IH]; intros i; simpl; [done| |apply IH].
  by rewrite IH.
Qed.

Lemma filter_snd (P : element → bool) (l : list (nat * element)) :
  (List.filter (λ q, P q.2) l).*2 = List.filter P (l.*2).
Proof.
  induction l as [|[p e] l IH]; simpl; [done|].
  destruct (P e); simpl; [f_equal|]; exact IH.
Qed.

Lemma eligible_children_elems ns : (eligible_children ns).*2 = eligible_elems ns.
Proof.
  unfold eligible_children, children_of, eligible_elems.
  rewrite <- (elements_from_snd 0). apply (filter_snd (λ e, negb (is_ad e))).
Qed.

Lemma eligible_children_length ns :
  length (eligible_children ns) = length (eligible_elems ns).
Proof. by rewrite <- eligible_children_elems, length_fmap. Qed.



(** The [k]-th eligible child splits the child nodes at its position. *)
Lemma eligible_split ns i k p e :
  List.filter (λ q, negb (is_ad q.2)) (elements_from i ns) !! k = Some (p, e) →
  ∃ pre post,
    ns = pre ++ Element e :: post ∧ p = length pre + i ∧
    is_ad e = false ∧ length (eligible_elems pre) = k.
Proof.
  revert i k. induction ns as [|[a|t] ns IH]; intros i k; simpl.
  - by rewrite lookup_nil.
  - destruct (is_ad a) eqn:Ha; simpl.
    + intros Hk. destruct (IH _ _ Hk) as (pre & post & -> & -> & He & Hlen).
      exists (Element a :: pre), post.
      rewrite eligible_elems_cons, Ha. simpl. split; [done|]. split; [lia|done].
    + destruct k as [|k]; simpl.
      * intros [= <- <-]. by exists [], ns.
      * intros Hk. destruct (IH _ _ Hk) as (pre & post & -> & -> & He & Hlen).
        exists (Element a :: pre), post.
        rewrite eligible_elems_cons, Ha. simpl. split; [done|]. split; [lia|].
        split; [done|lia].
  - intros Hk. destruct (IH _ _ Hk) as (pre & post & -> & -> & He & Hlen).
    exists (TextNode t :: pre), post. simpl. split; [done|]. split; [lia|done].
Qed.

(** ** Searching below a container *)

Lemma first_from_none {A B} (f : A → option (list nat * B)) i l :
  first_from f i l = None ↔ Forall (λ x, f x = None) l.
Proof.
  revert i. induction l as [|x l IH]; intros i; simpl; [done|].
  destruct (f x) as [[p y]|] eqn:Hx.
  - split; [done|]. intros Hall. apply Forall_cons in Hall as [Hnone _]. congruence.
  - rewrite IH. split; [by constructor|]. by intros [_ ?]%Forall_cons.
Qed.


Lemma first_from_some {A B} (f : A → option (list nat * B)) i l p y :
  first_from f i l = Some (p, y) →
  ∃ a x b q,
    l = a ++ x :: b ∧ Forall (λ x, f x = None) a ∧
    f x = Some (q, y) ∧ p = (i + length a) :: q.
Proof.
  revert i. induction l as [|x l IH]; intros i; simpl; [done|].
  destruct (f x) as [[q z]|] eqn:Hx.
  - intros [= <- <-]. exists [], x, l, q. simpl. by rewrite Nat.add_0_r.
  - intros Hl. destruct (IH _ Hl) as (a & x' & b & q & -> & Ha & Hx' & ->).
    exists (x :: a), x', b, q. simpl. split; [done|]. split; [by constructor|].
    split; [done|]. do 2 f_equal. lia.
Qed.

(** What a query finds is an element that satisfies the test. *)
Lemma query_tree_root P p t x :
  query_tree P t = Some (p, x) → ∃ e k, x = Node e k ∧ P e = true.
Proof.
  revert t. induction p as [|i q IH]; intros [e kids|s]; simpl; try done.
  - destruct (P e) eqn:HP; [intros [= <-]; by exists e, kids|].
    by intros (? & ? & ? & ? & _ & _ & _ & ?)%first_from_some.
  - destruct (P e) eqn:HP; [done|].
    intros (a & t & b & q' & _ & _ & Ht & [= _ <-])%first_from_some.
    by apply (IH t).
Qed.



Lemma clean_query ts : query_ad_wrapper ts = None ↔ clean ts.
Proof. apply first_from_none. Qed.


(** What [querySelector('.ad-send-banner')] can find: nothing, and then
    nothing is there; a child, with nothing before it; or an element
    below a child that is not an ad wrapper itself. *)
Lemma query_cases ts :
  (query_ad_wrapper ts = None ∧ clean ts) ∨
  (∃ a W k b,
     query_ad_wrapper ts = Some ([length a], Node W k) ∧
     ts = a ++ Node W k :: b ∧ is_ad W = true ∧ clean a) ∨
  (∃ a X kx b i q t,
     query_ad_wrapper ts = Some (length a :: i :: q, t) ∧
     ts = a ++ Node X kx :: b ∧ is_ad X = false ∧ clean a ∧
     query_ad_wrapper kx = Some (i :: q, t)).
Proof.
  destruct (query_ad_wrapper ts) as [[p t]|] eqn:Hq.
  - right. apply first_from_some in Hq as (a & x & b & q & -> & Ha & Hx & ->).
    destruct x as [e kx|s]; [|done]. simpl in Hx.
    destruct (is_ad e) eqn:He.
    + injection Hx as <- <-. left. by exists a, e, kx, b.
    + right. pose proof Hx as Hx'.
      apply first_from_some in Hx' as (? & ? & ? & ? & _ & _ & _ & ->).
      by eexists a, e, kx, b, _, _, t.
  - left. split; [done|]. by apply clean_query.
Qed.

(** ** Placing the wrapper *)

Lemma insert_after_cons {A} pr (w y : A) ns :
  insert_after (S pr) w (y :: ns) = y :: insert_after pr w ns.
Proof. unfold insert_after. simpl. by destruct (ns !! S pr). Qed.

Lemma insert_after_here {A} pre (x w : A) post :
  insert_after (length pre) w (pre ++ x :: post) = pre ++ x :: w :: post.
Proof.
  induction pre as [|y pre IH]; simpl.
  - unfold insert_after. simpl. by destruct post.
  - by rewrite insert_after_cons, IH.
Qed.

Lemma move_after_cons {A} pw pr (y : A) ns :
  move_after (S pw) (S pr) (y :: ns) = y :: move_after pw pr ns.
Proof.
  unfold move_after. simpl. destruct (ns !! pw) as [w|]; [|done].
  destruct (ns !! S pr); [|done].
  change (S pw <? S (S pr)) with (pw <? S pr). by destruct (pw <? S pr).
Qed.

(** A wrapper that stands before the reference node moves forward. *)
Lemma move_after_forward {A} (a : list A) w mid x post :
  move_after (length a) (length a + S (length mid)) (a ++ w :: mid ++ x :: post) =
  a ++ mid ++ x :: w :: post.
Proof.
  induction a as [|y a IH]; simpl.
  - unfold move_after. simpl.
    assert (take (S (length mid)) (mid ++ x :: post) = mid ++ [x]) as Htake.
    { rewrite (cons_middle x), app_assoc.
      apply take_app_length'. rewrite length_app. simpl. lia. }
    assert (drop (S (length mid)) (mid ++ x :: post) = post) as Hdrop.
    { rewrite (cons_middle x), app_assoc.
      apply drop_app_length'. rewrite length_app. simpl. lia. }
    destruct ((mid ++ x :: post) !! S (length mid)) eqn:Hnext.
    + rewrite Htake, Hdrop. by rewrite <- app_assoc.
    + assert (post = []) as ->.
      { apply lookup_ge_None in Hnext. rewrite length_app in Hnext. simpl in Hnext.
        destruct post; [done|simpl in Hnext; lia]. }
      by rewrite <- app_assoc.
  - by rewrite move_after_cons, IH.
Qed.

(** A wrapper that stands further back moves up to the reference node. *)
Lemma move_after_backward {A} (pre : list A) x m mid w post :
  move_after (length pre + S (S (length mid))) (length pre)
             (pre ++ x :: m :: mid ++ w :: post) =
  pre ++ x :: w :: m :: mid ++ post.
Proof.
  induction pre as [|y pre IH]; simpl.
  - unfold move_after. simpl.
    rewrite list_lookup_middle by done. by rewrite delete_middle.
  - by rewrite move_after_cons, IH.
Qed.

Lemma delete_middle_app {A} (l1 m : list A) y l2 :
  delete (length l1 + length m) (l1 ++ m ++ y :: l2) = l1 ++ m ++ l2.
Proof. rewrite app_assoc, <- length_app, delete_middle. by rewrite <- app_assoc. Qed.

Ltac nodes_norm :=
  repeat progress
    (rewrite ?fmap_app, ?fmap_cons, ?eligible_elems_app, ?ad_elems_app,
             ?eligible_elems_cons, ?ad_elems_cons, ?length_app;
     cbn [top]).

(** The [k]-th eligible child splits the trees below a container at its
    position. *)
Lemma eligible_split_tree ts k p e :
  eligible_children (top <$> ts) !! k = Some (p, e) →
  ∃ pre rt post,
    ts = pre ++ rt :: post ∧ top rt = Element e ∧ p = length pre ∧
    is_ad e = false ∧ length (eligible_elems (top <$> pre)) = k.
Proof.
  intros Hk. apply eligible_split in Hk as (pre & post & Heq & -> & He & Hlen).
  apply fmap_app_inv in Heq as (pre' & rest & -> & Hrest & ->).
  symmetry in Hrest. apply fmap_cons_inv in Hrest as (rt & post' & Hrt & -> & ->).
  exists pre', rt, post'. rewrite length_fmap, Nat.add_0_r. by rewrite Hrt.
Qed.

(** Detaching the wrapper leaves the children that are not wrappers. *)
Lemma rest_of_eligible ts :
  eligible_elems (top <$> rest_of ts) = eligible_elems (top <$> ts).
Proof.
  unfold rest_of.
  destruct (query_cases ts)
    as [[-> _]|[(a & W & k & b & -> & -> & HW & _)|
                (a & X & kx & b & i & q & t & -> & -> & HX & _ & _)]]; [done|..].
  - cbn [remove_at]. rewrite delete_middle. nodes_norm. by rewrite HW.
  - cbn [remove_at]. rewrite alter_app_r_alt, Nat.sub_diag by lia.
    cbn [alter list_alter]. by nodes_norm.
Qed.

(** After lines 247-279 the wrapper is the node that follows the
    reference child; around the two stand the child nodes that are left
    when the wrapper the query found is detached. *)
Lemma place_wrapper_shape ts idx pr ref :
  eligible_children (top <$> ts) !! idx = Some (pr, ref) →
  ∃ pre rt W k post,
    place_wrapper (query_ad_wrapper ts) pr ts =
      (pre ++ rt :: Node W k :: post, S (length pre)) ∧
    top rt = Element ref ∧ is_ad ref = false ∧ is_ad W = true ∧
    Node W k = wrapper_of ts ∧
    length (eligible_elems (top <$> pre)) = idx ∧
    pre ++ rt :: post = rest_of ts.
Proof.
  intros Hk. unfold rest_of, wrapper_of.
  destruct (query_cases ts)
    as [[Hq _]|[(a & W & k & b & Hq & Hts & HW & Ha)|
                (a & X & kx & b & i & q & t & Hq & Hts & HX & Ha & Hx)]];
    rewrite Hq; unfold place_wrapper.
  - apply eligible_split_tree in Hk as (pre & rt & post & -> & Hrt & -> & Href & Hidx).
    exists pre, rt, new_wrapper, [], post. by rewrite insert_after_here.
  - apply eligible_split_tree in Hk as (pre & rt & post & Heq & Hrt & -> & Href & Hidx).
    rewrite Hts in Heq. symmetry in Heq.
    apply app_eq_app in Heq as (l & [(Hpre & Hb) | (Ha' & Hpost)]).
    + destruct l as [|x l]; simpl in Hb.
      { injection Hb as Hx _. subst rt. simpl in Hrt. congruence. }
      injection Hb as <- ->. subst pre ts.
      exists (a ++ l), rt, W, k, post.
      rewrite length_app. simpl.
      replace (length a =? S (length a + S (length l))) with false
        by (symmetry; apply Nat.eqb_neq; lia).
      replace (length a <? S (length a + S (length l))) with true
        by (symmetry; apply Nat.ltb_lt; lia).
      cbn [negb]. rewrite <- !app_assoc. cbn [app].
      rewrite move_after_forward.
      split; [f_equal; rewrite length_app; lia|].
      do 4 (split; [done|]). split.
      * revert Hidx. nodes_norm. rewrite HW. simpl. lia.
      * cbn [remove_at]. by rewrite delete_middle.
    + destruct l as [|x l]; simpl in Hpost.
      { injection Hpost as Hx _. subst rt. simpl in Hrt. congruence. }
      injection Hpost as <- ->. subst a ts.
      exists pre, rt, W, k, (l ++ b).
      rewrite <- app_assoc. cbn [app]. rewrite length_app. cbn [length].
      destruct l as [|m mid]; cbn [length app].
      * replace (length pre + 1 =? S (length pre)) with true
          by (symmetry; apply Nat.eqb_eq; lia).
        cbn [negb].
        split; [f_equal; lia|]. do 5 (split; [done|]).
        cbn [remove_at]. symmetry. apply (delete_middle_app pre [rt]).
      * replace (length pre + S (S (length mid)) =? S (length pre)) with false
          by (symmetry; apply Nat.eqb_neq; lia).
        replace (length pre + S (S (length mid)) <? S (length pre)) with false
          by (symmetry; apply Nat.ltb_ge; lia).
        cbn [negb]. rewrite move_after_backward. split; [done|].
        do 5 (split; [done|]).
        cbn [remove_at]. symmetry. apply (delete_middle_app pre (rt :: m :: mid)).
  - destruct (query_tree_root is_ad (i :: q) (Node X kx) t) as (W & k & -> & HW).
    { simpl. by rewrite HX. }
    assert (remove_at (length a :: i :: q) ts =
            a ++ Node X (remove_at (i :: q) kx) :: b) as Hrest.
    { rewrite Hts. cbn [remove_at].
      by rewrite alter_app_r_alt, Nat.sub_diag by lia. }
    assert (top <$> remove_at (length a :: i :: q) ts = top <$> ts) as Htop.
    { rewrite Hrest, Hts. by nodes_norm. }
    rewrite <- Htop in Hk.
    apply eligible_split_tree in Hk as (pre & rt & post & Heq & Hrt & -> & Href & Hidx).
    exists pre, rt, W, k, post. rewrite Heq, insert_after_here. done.
Qed.

(** ** Writing into the wrapper *)

Lemma list_alter_lookup {A} (f : A → A) (l : list A) i x :
  l !! i = Some x → alter f i l = <[i := f x]> l.
Proof.
  intros Hx. pose proof (lookup_lt_Some _ _ _ Hx) as Hi.
  apply list_eq. intros j. destruct (decide (j = i)) as [->|Hne].
  - by rewrite list_lookup_alter_eq, list_lookup_insert_eq, Hx.
  - by rewrite list_lookup_alter_ne, list_lookup_insert_ne.
Qed.




(** A write to the child at position [pw] of container [h], and a
    second write to the same child. *)
Lemma update_child_explicit h pw g w c t :
  document w !! h = Some c → ct_tree c !! pw = Some t →
  update_container h (alter_child g pw) w = (Ret tt, with_child h pw c (g t) w).
Proof.
  intros Hc Ht. unfold update_container, modify, with_child. f_equal. f_equal.
  rewrite (list_alter_lookup _ _ _ c Hc). f_equal.
  unfold alter_child. f_equal. by rewrite (list_alter_lookup _ _ _ t Ht).
Qed.

Lemma update_child_again h pw g w c t :
  h < length (document w) → pw < length (ct_tree c) →
  update_container h (alter_child g pw) (with_child h pw c t w) =
    (Ret tt, with_child h pw c (g t) w).
Proof.
  intros Hh Hpw. unfold update_container, modify, with_child. f_equal.
  unfold set_document. simpl. f_equal.
  rewrite (list_alter_lookup _ _ _ (set_tree (<[pw := t]> (ct_tree c)) c))
    by (by apply list_lookup_insert_eq).
  rewrite list_insert_insert_eq. f_equal.
  unfold alter_child, set_tree. simpl. f_equal.
  rewrite (list_alter_lookup _ _ _ t) by (by apply list_lookup_insert_eq).
  by rewrite list_insert_insert_eq.
Qed.

Lemma alter_child_id pw c : alter_child (λ t, t) pw c = c.
Proof. unfold alter_child. rewrite list_alter_id by done. by destruct c. Qed.

Lemma alter_child_compose g2 g1 pw c :
  alter_child g2 pw (alter_child g1 pw c) = alter_child (g2 ∘ g1) pw c.
Proof.
  unfold alter_child, set_tree. simpl. f_equal. apply list_alter_alter_eq.
Qed.

Lemma keeps_wrapper_id : keeps_wrapper (λ t, t).
Proof. intros e k. by exists e, k. Qed.

Lemma keeps_wrapper_compose g2 g1 :
  keeps_wrapper g1 → keeps_wrapper g2 → keeps_wrapper (g2 ∘ g1).
Proof.
  intros H1 H2 e k. destruct (H1 e k) as (e1 & k1 & Hg1 & Had1).
  destruct (H2 e1 k1) as (e2 & k2 & Hg2 & Had2).
  exists e2, k2. simpl. rewrite Hg1. split; [done|]. intros He. by apply Had2, Had1.
Qed.

Lemma keeps_wrapper_on_element f :
  (∀ e, is_ad e = true → is_ad (f e) = true) → keeps_wrapper (on_element f).
Proof. intros Hf e k. exists (f e), k. split; [done|apply Hf]. Qed.

Lemma keeps_wrapper_write_html v : keeps_wrapper (write_html v).
Proof. intros e k. by eexists _, _. Qed.

Lemma keeps_wrapper_hold_clone clone : keeps_wrapper (hold_clone clone).
Proof. intros e k. by eexists _, _. Qed.

Lemma rewraps_refl h pw w : rewraps h pw w w.
Proof.
  exists (λ t, t). split; [apply keeps_wrapper_id|].
  symmetry. apply list_alter_id. intros c. apply alter_child_id.
Qed.

Lemma rewraps_trans h pw x y z :
  rewraps h pw x y → rewraps h pw y z → rewraps h pw x z.
Proof.
  intros (g1 & Hg1 & H1) (g2 & Hg2 & H2). exists (g2 ∘ g1).
  split; [by apply keeps_wrapper_compose|].
  rewrite H2, H1, list_alter_alter_eq. apply list_alter_ext; [|done].
  intros c _. apply alter_child_compose.
Qed.

Lemma rewraps_update h pw g :
  keeps_wrapper g → keeps (rewraps h pw) (update_container h (alter_child g pw)).
Proof. intros Hg w. by exists g. Qed.

Lemma rewraps_same_document h pw w w' :
  document w' = document w → rewraps h pw w w'.
Proof.
  intros Hdoc. exists (λ t, t). split; [apply keeps_wrapper_id|].
  rewrite Hdoc. symmetry. apply list_alter_id. intros c. apply alter_child_id.
Qed.

Lemma is_ad_copy_class_and_id ref e :
  is_ad e = true → is_ad (copy_class_and_id ref e) = true.
Proof.
  intros He. unfold is_ad, copy_class_and_id. simpl.
  destruct (el_svg e); [done|].
  unfold has_class. apply bool_decide_eq_true.
  apply elem_of_app. right. by apply list_elem_of_singleton.
Qed.

Lemma is_ad_animation_off e :
  is_ad e = true →
  is_ad (set_classes (List.filter (λ c, negb (has_class c animations)) (el_classes e)) e)
  = true.
Proof.
  unfold is_ad, has_class. simpl. intros He.
  apply bool_decide_eq_true in He. apply bool_decide_eq_true.
  apply list_elem_of_In, List.filter_In. split; [by apply list_elem_of_In|done].
Qed.

Lemma is_ad_classList_add c e : is_ad e = true → is_ad (classList_add c e) = true.
Proof.
  intros He. unfold classList_add. destruct (has_class c (el_classes e)); [done|].
  unfold is_ad, has_class in *. simpl.
  apply bool_decide_eq_true in He. apply bool_decide_eq_true.
  apply elem_of_app. by left.
Qed.

Lemma getNextAd_rewraps h pw c bs : keeps (rewraps h pw) (getNextAd c bs).
Proof.
  apply getNextAd_keeps;
    [apply rewraps_refl|apply rewraps_trans| |];
    intros v w; by apply rewraps_same_document.
Qed.

Lemma replicateSiblingStyles_rewraps h pw siblings :
  keeps (rewraps h pw) (replicateSiblingStyles h pw siblings).
Proof.
  pose proof (rewraps_refl h pw) as Hrefl.
  pose proof (rewraps_trans h pw) as Htrans.
  unfold replicateSiblingStyles. destruct siblings as [|s siblings]; [keeps_easy|].
  destruct (List.find _ _) as [[? ref]|]; [|keeps_easy].
  apply keeps_bind; [done| |intros _].
  { apply rewraps_update. by apply keeps_wrapper_on_element. }
  destruct (el_svg ref); [keeps_easy|].
  apply rewraps_update, keeps_wrapper_on_element, is_ad_copy_class_and_id.
Qed.

Lemma inject_content_rewraps bs h pw : keeps (rewraps h pw) (inject_content bs h pw).
Proof.
  pose proof (rewraps_refl h pw) as Hrefl.
  pose proof (rewraps_trans h pw) as Htrans.
  unfold inject_content.
  apply keeps_bind; [done|keeps_easy|intros ns].
  apply keeps_bind; [done|apply getNextAd_rewraps|intros adHtml].
  apply keeps_bind; [done|keeps_easy|intros css].
  destruct (truthy css).
  - destruct (sel_valid _); [|keeps_easy].
    destruct (query_selector _ _) as [customRef|]; [|keeps_easy].
    apply keeps_bind; [done|keeps_easy|intros bs'].
    apply keeps_bind; [done|keeps_easy|intros acb].
    apply keeps_bind; [done| |intros bannerObj].
    + destruct bs', acb as [[|]|], adHtml; keeps_easy.
    + apply rewraps_update, keeps_wrapper_hold_clone.
  - apply keeps_bind; [done|apply replicateSiblingStyles_rewraps|intros _].
    apply rewraps_update, keeps_wrapper_write_html.
Qed.

Lemma animateAdEntry_rewraps h pw : keeps (rewraps h pw) (animateAdEntry h pw).
Proof.
  pose proof (rewraps_refl h pw) as Hrefl.
  pose proof (rewraps_trans h pw) as Htrans.
  unfold animateAdEntry.
  apply keeps_bind; [done| |intros _].
  { apply rewraps_update, keeps_wrapper_on_element, is_ad_animation_off. }
  apply keeps_bind; [done| |intros r].
  { intros w. by apply rewraps_same_document. }
  apply rewraps_update, keeps_wrapper_on_element, is_ad_classList_add.
Qed.

(** ** A placement into a generic container *)

(** What [sendAd] leaves in a generic container with at least three
    eligible children, whether it returns or throws after the placement:
    the index is chosen and persisted, the wrapper follows the reference
    child, and around them stand the child nodes that are left when the
    wrapper the query found is detached. *)
Lemma sendAd_generic_deep bs h fl w c :
  document w !! h = Some c → is_slot c = false →
  3 ≤ length (eligible_children (ct_nodes c)) →
  ∃ idx written c' pre rt ref W k post,
    1 ≤ idx ≤ length (eligible_children (ct_nodes c)) - 2 ∧
    (∃ s, ct_adIndex c' = Some s ∧ parseInt s = Some (Z.of_nat idx)) ∧
    (∀ s z, ct_adIndex c = Some s → parseInt s = Some z →
            (1 ≤ z < Z.of_nat (length (eligible_children (ct_nodes c))) - 1)%Z →
            idx = Z.to_nat z ∧ written = None) ∧
    (∀ s, ct_adIndex c = Some s →
          (∀ z, parseInt s = Some z →
                ¬ (1 ≤ z < Z.of_nat (length (eligible_children (ct_nodes c))) - 1)%Z) →
          idx = 1 ∧ written = Some (string_of_nat 1)) ∧
    document (sendAd bs h fl w).2 !! h = Some c' ∧
    ct_classes c' = ct_classes c ∧ ct_id c' = ct_id c ∧
    ct_adIndex c' = from_option Some (ct_adIndex c) written ∧
    ct_tree c' = pre ++ rt :: Node W k :: post ∧
    top rt = Element ref ∧
    eligible_elems (ct_nodes c) !! idx = Some ref ∧
    is_ad ref = false ∧ is_ad W = true ∧
    length (eligible_elems (top <$> pre)) = idx ∧
    pre ++ rt :: post = rest_of (ct_tree c).
Proof.
  intros Hdoc Hslot Hlen.
  set (len := length (eligible_children (ct_nodes c))) in *.
  destruct (pick_index_spec (ct_adIndex c) len w Hlen)
    as (idx & written & k0 & Hpick & Hidx & Hattr & Hkeep & Hreplace).
  destruct (lookup_lt_is_Some_2 (eligible_children (ct_nodes c)) idx) as [[pr ref] Href];
    [fold len; lia|].
  destruct (place_wrapper_shape _ _ _ _ Href)
    as (pre & rt & W & k & post & Hplace & Hrt & Hnad & Had & _ & Hcount & Hrest).
  assert (sendAd bs h fl w =
    (match written with
     | Some v => update_container h (set_adIndex (Some v))
     | None => ret tt
     end ;;
     update_container h (set_tree (pre ++ rt :: Node W k :: post)) ;;
     inject_content bs h (S (length pre)) ;;
     animateAdEntry h (S (length pre))) (set_rand_cursor k0 w)) as Hsend.
  { unfold sendAd, bind at 1, get at 1. rewrite Hdoc, Hslot.
    unfold sendAd_generic. fold len.
    replace (len <? 3) with false by (symmetry; apply Nat.ltb_ge; lia).
    unfold bind at 1. rewrite Hpick. rewrite Href, Hplace. reflexivity. }
  set (c1 := set_tree (pre ++ rt :: Node W k :: post)
               (set_adIndex (from_option Some (ct_adIndex c) written) c)).
  assert (∃ w3, document w3 = <[h:=c1]> (document w) ∧
                (sendAd bs h fl w).2 =
                  ((inject_content bs h (S (length pre)) ;;
                    animateAdEntry h (S (length pre))) w3).2) as (w3 & Hw3 & Hfin).
  { rewrite Hsend. destruct written as [v|]; eexists; (split; [|reflexivity]); simpl.
    - rewrite list_alter_alter_eq.
      apply list_eq. intros i. destruct (decide (i = h)) as [->|Hne].
      + rewrite list_lookup_alter_eq, list_lookup_insert_eq, Hdoc
          by (by eapply lookup_lt_Some). done.
      + by rewrite list_lookup_alter_ne, list_lookup_insert_ne.
    - apply list_eq. intros i. destruct (decide (i = h)) as [->|Hne].
      + rewrite list_lookup_alter_eq, list_lookup_insert_eq, Hdoc
          by (by eapply lookup_lt_Some). done.
      + by rewrite list_lookup_alter_ne, list_lookup_insert_ne. }
  assert (rewraps h (S (length pre)) w3 (sendAd bs h fl w).2) as (g & Hg & Hfinal).
  { rewrite Hfin.
    apply (keeps_bind (rewraps h (S (length pre))));
      [apply rewraps_trans|apply inject_content_rewraps|intros _].
    apply animateAdEntry_rewraps. }
  destruct (Hg W k) as (W' & k' & HgW & Had').
  exists idx, written, (alter_child g (S (length pre)) c1), pre, rt, ref, W', k', post.
  split; [done|]. split.
  { destruct Hattr as (s & Hs & Hparse). exists s. by split. }
  split; [done|]. split; [done|]. split.
  { rewrite Hfinal, Hw3, list_lookup_alter_eq, list_lookup_insert_eq
      by (by eapply lookup_lt_Some). done. }
  do 3 (split; [done|]). split.
  { simpl. rewrite (cons_middle rt), app_assoc.
    replace (S (length pre)) with (length (pre ++ [rt]) + 0)
      by (rewrite length_app; simpl; lia).
    rewrite alter_app_r. simpl. by rewrite HgW, <- app_assoc. }
  split; [done|]. split.
  { by rewrite <- eligible_children_elems, list_lookup_fmap, Href. }
  split; [done|]. split; [by apply Had'|]. done.
Qed.

(** The same seen from the child nodes alone. *)
Lemma sendAd_generic_spec bs h fl w c :
  document w !! h = Some c → is_slot c = false →
  3 ≤ length (eligible_children (ct_nodes c)) →
  ∃ idx written c' pre ref W post,
    1 ≤ idx ≤ length (eligible_children (ct_nodes c)) - 2 ∧
    (∃ s, ct_adIndex c' = Some s ∧ parseInt s = Some (Z.of_nat idx)) ∧
    (∀ s z, ct_adIndex c = Some s → parseInt s = Some z →
            (1 ≤ z < Z.of_nat (length (eligible_children (ct_nodes c))) - 1)%Z →
            idx = Z.to_nat z ∧ written = None) ∧
    (∀ s, ct_adIndex c = Some s →
          (∀ z, parseInt s = Some z →
                ¬ (1 ≤ z < Z.of_nat (length (eligible_children (ct_nodes c))) - 1)%Z) →
          idx = 1 ∧ written = Some (string_of_nat 1)) ∧
    document (sendAd bs h fl w).2 !! h = Some c' ∧
    ct_classes c' = ct_classes c ∧ ct_id c' = ct_id c ∧
    ct_adIndex c' = from_option Some (ct_adIndex c) written ∧
    ct_nodes c' = pre ++ Element ref :: Element W :: post ∧
    eligible_elems (ct_nodes c) !! idx = Some ref ∧
    is_ad ref = false ∧ is_ad W = true ∧
    length (eligible_elems pre) = idx ∧
    eligible_elems (pre ++ Element ref :: post) = eligible_elems (ct_nodes c).
Proof.
  intros Hdoc Hslot Hlen.
  destruct (sendAd_generic_deep bs h fl w c Hdoc Hslot Hlen)
    as (idx & written & c' & pre & rt & ref & W & k & post & Hidx & Hs & Hkeep &
        Hreplace & Hdoc' & Hcls & Hid & Hattr & Htree & Hrt & Href & Hnad & Had &
        Hcount & Hrest).
  exists idx, written, c', (top <$> pre), ref, W, (top <$> post).
  do 8 (split; [done|]). split.
  { unfold ct_nodes. rewrite Htree, fmap_app, !fmap_cons, Hrt. done. }
  do 4 (split; [done|]).
  unfold ct_nodes. rewrite <- rest_of_eligible, <- Hrest, fmap_app, fmap_cons, Hrt.
  done.
Qed.

(** The guard of line 228. *)
Lemma sendAd_small bs h fl w c :
  document w !! h = Some c → is_slot c = false →
  length (eligible_children (ct_nodes c)) < 3 →
  sendAd bs h fl w = (Ret tt, w).
Proof.
  intros Hdoc Hslot Hlen. unfold sendAd, bind, get. rewrite Hdoc, Hslot.
  unfold sendAd_generic.
  by replace (_ <? 3) with true by (symmetry; apply Nat.ltb_lt; lia).
Qed.

(** C4.  For a generic container with fewer than three children that are
    not ad wrappers, [sendAd] returns at once: no wrapper is created or
    inserted, and the container, like the rest of the world, is left as
    it was. *)
Theorem sendAd_skips_small_container
    (bs : list string) (h : nat) (fl : bool) (w : World) (c : container) :
  document w !! h = Some c → is_slot c = false →
  length (eligible_children (ct_nodes c)) < 3 →
  sendAd bs h fl w = (Ret tt, w) ∧
  document (sendAd bs h fl w).2 !! h = Some c.
Proof.
  intros Hdoc Hslot Hlen.
  rewrite (sendAd_small bs h fl w c Hdoc Hslot Hlen). done.
Qed.

(** C7.  For a generic container with at least three children that are
    not ad wrappers, the insertion index that [sendAd] uses, freshly
    picked or read back, is at least 1 and at most the number of those
    children minus 2; it is what the attribute reads back as afterwards;
    and the wrapper is the node that follows the child with this index,
    so at least one eligible child stands before the reference child and
    at least one after the wrapper. *)
Theorem insertion_index_between
    (bs : list string) (h : nat) (fl : bool) (w : World) (c : container) :
  document w !! h = Some c → is_slot c = false →
  3 ≤ length (eligible_children (ct_nodes c)) →
  ∃ idx c' s pre ref W post,
    1 ≤ idx ≤ length (eligible_children (ct_nodes c)) - 2 ∧
    document (sendAd bs h fl w).2 !! h = Some c' ∧
    ct_adIndex c' = Some s ∧ parseInt s = Some (Z.of_nat idx) ∧
    (eligible_children (ct_nodes c)).*2 !! idx = Some ref ∧
    ct_nodes c' = pre ++ Element ref :: Element W :: post ∧ is_ad W = true ∧
    length (eligible_children pre) = idx ∧
    length (eligible_children post) =
      length (eligible_children (ct_nodes c)) - 1 - idx.
Proof.
  intros Hdoc Hslot Hlen.
  destruct (sendAd_generic_spec bs h fl w c Hdoc Hslot Hlen)
    as (idx & written & c' & pre & ref & W & post & Hidx & (s & Hs & Hparse) & _ & _ &
        Hdoc' & _ & _ & _ & Hnodes & Href & Hnad & Had & Hcount & Helig).
  exists idx, c', s, pre, ref, W, post.
  rewrite !eligible_children_length, eligible_children_elems in *.
  do 7 (split; [done|]). split; [done|].
  apply (f_equal length) in Helig.
  rewrite eligible_elems_app, eligible_elems_cons, Hnad, length_app in Helig.
  simpl in Helig. lia.
Qed.

(** C3.  For a generic container whose attribute data-ad-index holds a
    value that reads as the index [z] (as does every value written by an
    earlier placement, lemma [parseInt_string_of_nat]): if [z] is within
    bounds, at least 1 and below the number of eligible children minus 1,
    [sendAd] leaves the attribute as it is and puts the wrapper right
    after the eligible child with index [z]; the attribute is replaced
    only when [z] is out of bounds, and then, if the container is served
    at all, by 1. *)
Theorem persisted_index_is_stable
    (bs : list string) (h : nat) (fl : bool) (w : World) (c : container)
    (s : string) (z : Z) :
  document w !! h = Some c → is_slot c = false →
  ct_adIndex c = Some s → parseInt s = Some z →
  ∃ c',
    document (sendAd bs h fl w).2 !! h = Some c' ∧
    ((1 ≤ z < Z.of_nat (length (eligible_children (ct_nodes c))) - 1)%Z →
     ct_adIndex c' = Some s ∧
     ∃ pre ref W post,
       (eligible_children (ct_nodes c)).*2 !! Z.to_nat z = Some ref ∧
       ct_nodes c' = pre ++ Element ref :: Element W :: post ∧ is_ad W = true ∧
       length (eligible_children pre) = Z.to_nat z) ∧
    (ct_adIndex c' ≠ Some s →
     ¬ (1 ≤ z < Z.of_nat (length (eligible_children (ct_nodes c))) - 1)%Z) ∧
    (¬ (1 ≤ z < Z.of_nat (length (eligible_children (ct_nodes c))) - 1)%Z →
     3 ≤ length (eligible_children (ct_nodes c)) →
     ct_adIndex c' = Some (string_of_nat 1)).
Proof.
  intros Hdoc Hslot Hattr Hparse.
  destruct (decide (3 ≤ length (eligible_children (ct_nodes c)))) as [Hlen|Hlen].
  - destruct (sendAd_generic_spec bs h fl w c Hdoc Hslot Hlen)
      as (idx & written & c' & pre & ref & W & post & Hidx & _ & Hkeep & Hreplace &
          Hdoc' & _ & _ & Hattr' & Hnodes & Href & Hnad & Had & Hcount & _).
    exists c'. split; [done|].
    assert ((1 ≤ z < Z.of_nat (length (eligible_children (ct_nodes c))) - 1)%Z →
            ct_adIndex c' = Some s ∧ idx = Z.to_nat z) as Hin.
    { intros Hz. destruct (Hkeep s z Hattr Hparse Hz) as [-> ->].
      by rewrite Hattr', Hattr. }
    split; [|split].
    + intros Hz. destruct (Hin Hz) as [Hs <-]. split; [done|].
      exists pre, ref, W, post.
      by rewrite eligible_children_length, eligible_children_elems.
    + intros Hne Hz. by destruct (Hin Hz).
    + intros Hz _. destruct (Hreplace s Hattr) as [_ ->]; [|by rewrite Hattr'].
      intros z' Hz'. by assert (z' = z) as -> by congruence.
  - exists c.
    rewrite (sendAd_small bs h fl w c Hdoc Hslot) by lia.
    split; [done|]. split; [intros; lia|]. split; [done|]. intros; lia.
Qed.

(** ** One wrapper per container *)


(** What a call of [getNextAd] does, case by case: it continues a stored
    queue, or it stores the tail of a fresh shuffle. *)
Lemma getNextAd_cases c bs w :
  (∃ ad rest,
     adQueues w !! c = Some (ad :: rest) ∧
     getNextAd c bs w =
       (Ret (Some ad), set_adQueues (<[c:=rest]> (adQueues w)) w)) ∨
  (default [] (adQueues w !! c) = [] ∧
   ∃ fresh,
     fresh ≡ₚ bs ∧
     getNextAd c bs w =
       (Ret (head fresh),
        set_adQueues (<[c:=tail fresh]> (adQueues w))
                     (set_rand_cursor (length bs + rand_cursor w) w))).
Proof.
  destruct (adQueues w !! c) as [[|ad rest]|] eqn:Hq.
  - right. split; [done|].
    destruct (shuffle_returns bs w) as (fresh & Heq & Hperm).
    exists fresh. split; [done|].
    unfold getNextAd, bind, get. rewrite Hq, Heq.
    destruct fresh as [|ad rest]; simpl; [done|].
    unfold bind, modify, ret. simpl. by rewrite insert_insert_eq.
  - left. exists ad, rest. split; [done|]. by apply getNextAd_continue.
  - right. split; [done|].
    destruct (shuffle_returns bs w) as (fresh & Heq & Hperm).
    exists fresh. split; [done|].
    unfold getNextAd, bind, get. rewrite Hq, Heq.
    destruct fresh as [|ad rest]; simpl; [done|].
    unfold bind, modify, ret. simpl. by rewrite insert_insert_eq.
Qed.

(** [getNextAd] reads the queues and the cursor only: it draws the same
    ad on any page. *)
Lemma getNextAd_drawn c bs w :
  ∃ o q k,
    getNextAd c bs w =
      (Ret o, set_adQueues (<[c:=q]> (adQueues w)) (set_rand_cursor k w)) ∧
    (bs ≠ [] → o ≠ None) ∧
    ∀ w', adQueues w' = <[c:=q]> (adQueues w) → drawn c bs w o w'.
Proof.
  destruct (getNextAd_cases c bs w)
    as [(ad & rest & Hq & ->)|(Hq & fresh & Hperm & ->)].
  - exists (Some ad), rest, (rand_cursor w). rewrite set_rand_cursor_same.
    split; [done|]. split; [done|]. intros w' Hw'. left.
    exists ad, rest. by rewrite Hw', lookup_insert_eq.
  - eexists (head fresh), (tail fresh), _. split; [done|]. split.
    + intros Hbs. destruct fresh; [|done]. by apply Permutation_nil_l in Hperm.
    + intros w' Hw'. right. split; [done|]. exists fresh.
      by rewrite Hw', lookup_insert_eq.
Qed.

(** The preset-slot branch, step by step: it returns, and the ad it drew
    is written into the element the query finds, in its place, or into
    a new wrapper that replaces all that was below the slot. *)
Lemma sendAd_slot_explicit
    (bs : list string) (h : nat) (fl : bool) (w : World) (c : container) :
  document w !! h = Some c → is_slot c = true →
  ∃ o c' w',
    sendAd bs h fl w = (Ret tt, w') ∧ document w' !! h = Some c' ∧
    drawn h bs w o w' ∧
    ct_classes c' = ct_classes c ∧ ct_id c' = ct_id c ∧
    ct_adIndex c' = ct_adIndex c ∧
    ct_tree c' =
      match query_ad_wrapper (ct_tree c) with
      | Some (p, _) => alter_at (write_html o) p (ct_tree c)
      | None => [Node (set_content (innerHTML_of o) new_wrapper) []]
      end.
Proof.
  intros Hdoc Hslot.
  pose proof (lookup_lt_Some _ _ _ Hdoc) as Hh.
  unfold sendAd, bind at 1, get at 1. rewrite Hdoc, Hslot. unfold sendAd_slot.
  destruct (query_ad_wrapper (ct_tree c)) as [[p t]|] eqn:Hq.
  - unfold bind at 1, ret at 1.
    destruct (getNextAd_drawn h bs w) as (o & q & k & Heq & _ & Hdrawn).
    unfold bind. rewrite Heq. unfold update_container, modify. simpl.
    eexists o, _, _. split; [reflexivity|]. simpl.
    split; [by rewrite list_lookup_alter_eq, Hdoc|].
    split; [by apply Hdrawn|]. done.
  - unfold bind at 1, update_container at 1, modify at 1. unfold bind at 1, ret at 1.
    set (w3 := set_document _ w).
    destruct (getNextAd_drawn h bs w3) as (o & q & k & Heq & _ & Hdrawn).
    unfold bind. rewrite Heq. unfold update_container, modify. simpl.
    eexists o, _, _. split; [reflexivity|]. simpl.
    split; [by rewrite !list_lookup_alter_eq, Hdoc|].
    split; [|done].
    destruct (Hdrawn (set_adQueues (<[h:=q]> (adQueues w)) w) eq_refl)
      as [(ad & rest & H1 & H2 & H3)|(H1 & fresh & H2 & H3 & H4)].
    + left. exists ad, rest. done.
    + right. split; [done|]. by exists fresh.
Qed.












(** * Further properties of the code *)

(** ** The queues *)

Lemma roundRobin_continue bs w ad rest :
  adRotationQueue w = ad :: rest →
  getNextAdRoundRobin bs w = (Ret (Some ad), set_adRotationQueue rest w).
Proof.
  intros Hq. unfold getNextAdRoundRobin, bind, get. rewrite Hq. reflexivity.
Qed.

Lemma roundRobin_refill bs w :
  bs ≠ [] → adRotationQueue w = [] →
  ∃ ad rest,
    ad :: rest ≡ₚ bs ∧
    getNextAdRoundRobin bs w =
      (Ret (Some ad),
       set_adRotationQueue rest (set_rand_cursor (length bs + rand_cursor w) w)).
Proof.
  intros Hbs Hq.
  destruct (shuffle_returns bs w) as (fresh & Heq & Hperm).
  destruct fresh as [|ad rest].
  { apply Permutation_nil_l in Hperm. congruence. }
  exists ad, rest. split; [done|].
  unfold getNextAdRoundRobin, bind, get. rewrite Hq, Heq. reflexivity.
Qed.

Lemma draws_global_cycles bs n w :
  bs ≠ [] →
  ∃ out w' cycles,
    draws_global bs n w = (Ret out, w') ∧ length out = n ∧
    Forall (λ cyc, cyc ≡ₚ bs) cycles ∧
    out = take n (Some <$> (adRotationQueue w ++ concat cycles)).
Proof.
  intros Hbs. revert w. induction n as [|n IH]; intros w.
  - exists [], w, []. by rewrite take_0.
  - destruct (adRotationQueue w) as [|ad rest] eqn:Hq.
    + destruct (roundRobin_refill bs w Hbs Hq) as (ad & rest & Hperm & Heq).
      destruct (IH (set_adRotationQueue rest
                      (set_rand_cursor (length bs + rand_cursor w) w)))
        as (out & w' & cycles & Hd & Hlen & Hall & Hout).
      simpl in Hout.
      exists (Some ad :: out), w', ((ad :: rest) :: cycles).
      split; [|split; [simpl; lia|split; [by constructor|]]].
      * simpl. unfold bind at 1. rewrite Heq. unfold bind at 1. by rewrite Hd.
      * simpl. by rewrite Hout.
    + destruct (IH (set_adRotationQueue rest w))
        as (out & w' & cycles & Hd & Hlen & Hall & Hout).
      simpl in Hout.
      exists (Some ad :: out), w', cycles.
      split; [|split; [simpl; lia|split; [done|]]].
      * simpl. unfold bind at 1. rewrite (roundRobin_continue bs w ad rest Hq).
        unfold bind at 1. by rewrite Hd.
      * simpl. by rewrite Hout.
Qed.

(** X1.  The global queue of [getNextAdRoundRobin] rotates like the
    per-container one: for a non-empty banner list the answers of any
    number of calls are the banners still queued followed by whole
    shuffles of the list; starting from the empty queue and a list
    without duplicates, a banner comes again only after every banner has
    come. *)
Theorem roundRobin_without_replacement (bs : list string) (w : World) (n : nat) :
  bs ≠ [] →
  ∃ out w' cycles,
    draws_global bs n w = (Ret out, w') ∧ length out = n ∧
    Forall (λ cyc, cyc ≡ₚ bs) cycles ∧
    out = take n (Some <$> (adRotationQueue w ++ concat cycles)) ∧
    (adRotationQueue w = [] → NoDup bs →
     ∀ i j b, i < j → out !! i = Some (Some b) → out !! j = Some (Some b) →
              ∀ b', b' ∈ bs → ∃ i', i' < j ∧ out !! i' = Some (Some b')).
Proof.
  intros Hbs.
  destruct (draws_global_cycles bs n w Hbs) as (out & w' & cycles & Hd & Hlen & Hall & Hout).
  exists out, w', cycles. do 4 (split; [done|]).
  intros Hempty Hnd i j b Hij Hi Hj b' Hb'.
  rewrite Hempty in Hout. simpl in Hout.
  assert (Hjn : j < n) by (apply lookup_lt_Some in Hj; lia).
  assert (∀ k x, k < n → out !! k = Some (Some x) → concat cycles !! k = Some x) as Hget.
  { intros k x Hk Hx. rewrite Hout, lookup_take_lt, list_lookup_fmap in Hx by done.
    destruct (concat cycles !! k); simpl in Hx; congruence. }
  destruct (cycles_repeat_after_all bs cycles i j b Hnd Hall Hij
              (Hget i b ltac:(lia) Hi) (Hget j b Hjn Hj) b' Hb') as (i' & Hlt & Hi').
  exists i'. split; [done|].
  rewrite Hout, lookup_take_lt, list_lookup_fmap by lia. by rewrite Hi'.
Qed.

(** X2.  With an empty banner list and nothing queued, [getNextAd]
    returns undefined; it stores the empty queue for the container and
    consumes no random sample. *)
Theorem getNextAd_no_banners (c : nat) (w : World) :
  adQueues w !! c = None ∨ adQueues w !! c = Some [] →
  getNextAd c [] w = (Ret None, set_adQueues (<[c:=[]]> (adQueues w)) w).
Proof.
  intros Hq. unfold getNextAd, bind, get, shuffle. simpl.
  destruct Hq as [-> | ->]; reflexivity.
Qed.

(** X3.  A call of [getNextAd] for one container writes the queue of
    that container and the random cursor and nothing else: the queues of
    all other containers, the global queue, the page, the banner list,
    the selectors, the timers and the log are as before.  A call of
    [getNextAdRoundRobin] leaves every per-container queue as it was. *)
Theorem getNextAd_isolated (c : nat) (bs : list string) (w : World) :
  (∃ o q k,
     getNextAd c bs w =
       (Ret o, set_adQueues (<[c:=q]> (adQueues w)) (set_rand_cursor k w))) ∧
  (∀ c', c' ≠ c → adQueues (getNextAd c bs w).2 !! c' = adQueues w !! c') ∧
  adQueues (getNextAdRoundRobin bs w).2 = adQueues w.
Proof.
  split; [|split].
  - destruct (getNextAd_cases c bs w) as [(ad & rest & _ & ->)|(_ & fresh & _ & ->)].
    + exists (Some ad), rest, (rand_cursor w). by rewrite set_rand_cursor_same.
    + by eexists _, _, _.
  - intros c' Hne.
    destruct (getNextAd_cases c bs w) as [(ad & rest & _ & ->)|(_ & fresh & _ & ->)];
      simpl; by rewrite lookup_insert_ne.
  - unfold getNextAdRoundRobin, bind, get.
    destruct (adRotationQueue w) as [|ad rest]; [|reflexivity].
    destruct (shuffle_returns bs w) as (fresh & -> & _). simpl. by destruct fresh.
Qed.

(** X4.  What [getNextAd] returns: the head of the stored queue when
    there is one, else the head of a shuffle of the banner list.  So it
    returns undefined exactly when nothing is queued and the banner list
    is empty, and a banner it returns was queued or is in the list. *)
Theorem getNextAd_result (c : nat) (bs : list string) (w : World) :
  ∃ o,
    (getNextAd c bs w).1 = Ret o ∧
    (o = None ↔ default [] (adQueues w !! c) = [] ∧ bs = []) ∧
    (∀ ad, o = Some ad → ad ∈ default [] (adQueues w !! c) ∨ ad ∈ bs) ∧
    (∀ ad rest, adQueues w !! c = Some (ad :: rest) → o = Some ad).
Proof.
  destruct (getNextAd_cases c bs w)
    as [(ad & rest & Hq & ->)|(Hq & fresh & Hperm & ->)]; simpl.
  - exists (Some ad). split; [done|]. rewrite Hq. simpl. split; [|split].
    + split; [done|]. by intros [? _].
    + intros ? [= <-]. left. by left.
    + by intros ?? [= <- _].
  - exists (head fresh). split; [done|]. rewrite Hq. split; [|split].
    + split.
      * intros Hnone. split; [done|].
        destruct fresh; [|done]. by apply Permutation_nil_l in Hperm.
      * intros [_ ->]. by apply Permutation_nil_r in Hperm as ->.
    + intros ad Had. right. rewrite <- Hperm.
      destruct fresh; [done|]. injection Had as ->. by left.
    + intros ad rest Hc. destruct (adQueues w !! c) as [[|]|]; simpl in *; congruence.
Qed.

(** ** Shuffle and the random source *)

(** X6.  [shuffle] consumes one random sample per element and writes
    nothing but the random cursor; an array with at most one element is
    returned as it is. *)
Theorem shuffle_effect {A} (array : list A) (w : World) :
  ∃ out,
    shuffle array w =
      (Ret out, set_rand_cursor (length array + rand_cursor w) w) ∧
    (length array ≤ 1 → out = array).
Proof.
  destruct (shuffle_returns array w) as (out & Heq & Hperm).
  exists out. split; [done|]. intros Hlen.
  destruct array as [|a [|b array]]; simpl in Hlen; [| |lia].
  - by apply Permutation_nil_r in Hperm.
  - by apply Permutation_singleton_r in Hperm.
Qed.

(** ** Reading the attribute *)

Lemma parse_digits_stop (acc : option Z) (rest : string) :
  no_leading_digit rest → parse_digits acc rest = acc.
Proof. destruct rest as [|a rest]; simpl; [done|]. by intros ->. Qed.

Lemma append_cons (a : Ascii.ascii) (s rest : string) :
  String a s +:+ rest = String a (s +:+ rest).
Proof. reflexivity. Qed.

Lemma parse_digits_uint_app (d : Decimal.uint) (a : nat) (rest : string) :
  no_leading_digit rest →
  parse_digits (Some (Z.of_nat a)) (NilEmpty.string_of_uint d +:+ rest) =
  Some (Z.of_nat (Nat.of_uint_acc d a)).
Proof.
  intros Hrest. revert a.
  induction d as [|d IH|d IH|d IH|d IH|d IH|d IH|d IH|d IH|d IH|d IH];
    intros a; [by apply parse_digits_stop|..];
    cbn [NilEmpty.string_of_uint Nat.of_uint_acc]; rewrite append_cons;
    cbn [parse_digits].
  all: change (digit_of "0") with (Some 0%Z); change (digit_of "1") with (Some 1%Z);
    change (digit_of "2") with (Some 2%Z); change (digit_of "3") with (Some 3%Z);
    change (digit_of "4") with (Some 4%Z); change (digit_of "5") with (Some 5%Z);
    change (digit_of "6") with (Some 6%Z); change (digit_of "7") with (Some 7%Z);
    change (digit_of "8") with (Some 8%Z); change (digit_of "9") with (Some 9%Z);
    cbn [default]; rewrite <- IH; f_equal; f_equal;
    rewrite Nat.tail_mul_spec; unfold id; lia.
Qed.

(** X8.  The attribute round trip: the decimal string that a placement
    writes for an index reads back through [parseInt] as that index, also
    when text that does not start with a digit follows it. *)
Theorem parseInt_reads_written_index (n : nat) (rest : string) :
  no_leading_digit rest →
  parseInt (string_of_nat n +:+ rest) = Some (Z.of_nat n).
Proof.
  intros Hrest. unfold string_of_nat.
  rewrite <- (DecimalNat.Unsigned.of_to n) at 2.
  unfold Nat.of_uint.
  assert (Nat.to_uint n ≠ Decimal.Nil) as Hnil.
  { rewrite <- (DecimalNat.Unsigned.of_to n), DecimalNat.Unsigned.to_of.
    apply DecimalFacts.unorm_nonnil. }
  destruct (Nat.to_uint n) as [|d|d|d|d|d|d|d|d|d|d]; [done|..];
    unfold parseInt; cbn [NilEmpty.string_of_uint]; rewrite append_cons;
    cbn [skip_white]; (change (is_white _) with false; cbv iota);
    cbn [parse_digits];
    change (digit_of "0") with (Some 0%Z); change (digit_of "1") with (Some 1%Z);
    change (digit_of "2") with (Some 2%Z); change (digit_of "3") with (Some 3%Z);
    change (digit_of "4") with (Some 4%Z); change (digit_of "5") with (Some 5%Z);
    change (digit_of "6") with (Some 6%Z); change (digit_of "7") with (Some 7%Z);
    change (digit_of "8") with (Some 8%Z); change (digit_of "9") with (Some 9%Z);
    cbn [default Nat.of_uint_acc];
    rewrite <- (parse_digits_uint_app d _ rest Hrest); f_equal.
Qed.

(** ** Style replication and animation *)


(** X9.  [replicateSiblingStyles] on a target that is a child of the
    container.  With no displayed sibling it changes nothing.  With one
    that is an SVG element it copies the computed style, which makes the
    target displayed, and then throws.  Otherwise it returns, and the
    class list of the target is exactly the class list of the sibling,
    in order, without empty names and without ad-send-banner, followed
    by ad-send-banner once (unless the target is an SVG element, whose
    classes stay); the id is the sibling's with -ad appended, or stays;
    and replicating again from the same sibling changes nothing more. *)
Theorem replicateSiblingStyles_settles
    (h pw : nat) (siblings : list (nat * element)) (w : World)
    (c : container) (t : element) (k : list tree) :
  document w !! h = Some c → ct_tree c !! pw = Some (Node t k) →
  let found := List.find (λ p, negb (p.1 =? pw) && el_shown p.2) siblings in
  (found = None → replicateSiblingStyles h pw siblings w = (Ret tt, w)) ∧
  (∀ p ref, found = Some (p, ref) → el_svg ref = true →
     replicateSiblingStyles h pw siblings w =
       (Throw "TypeError: ref.className.split is not a function",
        with_child h pw c (Node (set_shown true t) k) w)) ∧
  (∀ p ref, found = Some (p, ref) → el_svg ref = false →
     ∃ t',
       replicateSiblingStyles h pw siblings w =
         (Ret tt, with_child h pw c (Node t' k) w) ∧
       el_shown t' = true ∧ el_svg t' = el_svg t ∧ el_content t' = el_content t ∧
       el_classes t' =
         (if el_svg t then el_classes t
          else List.filter (λ c, negb (String.eqb c EmptyString) &&
                                 negb (String.eqb c ad_class)) (el_classes ref)
               ++ [ad_class]) ∧
       el_id t' =
         (if truthy (Some (el_id ref)) && negb (String.eqb (el_id ref) (el_id t))
          then el_id ref +:+ "-ad" else el_id t) ∧
       copy_class_and_id ref t' = t').
Proof.
  intros Hc Ht. cbv zeta. unfold replicateSiblingStyles.
  pose proof (lookup_lt_Some _ _ _ Hc) as Hh.
  pose proof (lookup_lt_Some _ _ _ Ht) as Hpw.
  split; [|split].
  - intros Hfind. destruct siblings as [|s siblings]; [done|]. by rewrite Hfind.
  - intros p ref Hfind Hsvg. destruct siblings as [|s siblings]; [done|].
    rewrite Hfind. unfold bind, alter_element.
    rewrite (update_child_explicit h pw _ w c _ Hc Ht). by rewrite Hsvg.
  - intros p ref Hfind Hsvg. destruct siblings as [|s siblings]; [done|].
    rewrite Hfind. unfold bind, alter_element.
    rewrite (update_child_explicit h pw _ w c _ Hc Ht). rewrite Hsvg.
    rewrite update_child_again by done.
    exists (copy_class_and_id ref (set_shown true t)).
    split; [done|]. do 5 (split; [done|]).
    unfold copy_class_and_id. cbn [el_id el_classes el_shown el_svg el_content set_shown].
    f_equal; [by destruct (el_svg t)|].
    destruct (truthy (Some (el_id ref))); [|done].
    destruct (String.eqb (el_id ref) (el_id t)) eqn:Hid; cbn [andb negb].
    + by rewrite Hid.
    + by destruct (negb _).
Qed.


(** ** Placements in detail *)

(** X11.  A placement into a preset slot never throws.  It draws an ad
    and writes it into the first element of class ad-send-banner below
    the slot, wherever that element is: the element keeps its place, its
    classes and its id, and what was below it is replaced by the ad,
    while everything else below the slot stays.  When no element of the
    class is below the slot, all that was below it is removed and a
    single new wrapper with the drawn ad is put in its place.  Classes,
    id and data-ad-index of the slot stay. *)
Theorem sendAd_slot_placement
    (bs : list string) (h : nat) (fl : bool) (w : World) (c : container) :
  document w !! h = Some c → is_slot c = true →
  ∃ o c' w',
    sendAd bs h fl w = (Ret tt, w') ∧ document w' !! h = Some c' ∧
    drawn h bs w o w' ∧
    ct_classes c' = ct_classes c ∧ ct_id c' = ct_id c ∧
    ct_adIndex c' = ct_adIndex c ∧
    ct_tree c' =
      match query_ad_wrapper (ct_tree c) with
      | Some (p, _) => alter_at (write_html o) p (ct_tree c)
      | None => [Node (set_content (innerHTML_of o) new_wrapper) []]
      end.
Proof. apply sendAd_slot_explicit. Qed.






Lemma bind_ret {A B} (a : A) (k : A → M B) w : bind (ret a) k w = k a w.
Proof. reflexivity. Qed.

Lemma bind_update {B} h f (k : unit → M B) w :
  bind (update_container h f) k w =
  k tt (set_document (alter f h (document w)) w).
Proof. reflexivity. Qed.

(** The generic branch up to line 279: the index is chosen, persisted
    where the code persists it, and the wrapper is placed; what remains
    is to write the ad and to animate. *)
Lemma sendAd_generic_unfold bs h fl w c :
  document w !! h = Some c → is_slot c = false →
  3 ≤ length (eligible_children (ct_nodes c)) →
  ∃ written k0 pre rt ref W k post c1,
    top rt = Element ref ∧ is_ad ref = false ∧ is_ad W = true ∧
    pre ++ rt :: post = rest_of (ct_tree c) ∧
    c1 = set_tree (pre ++ rt :: Node W k :: post)
           (set_adIndex (from_option Some (ct_adIndex c) written) c) ∧
    sendAd bs h fl w =
      (inject_content bs h (S (length pre)) ;; animateAdEntry h (S (length pre)))
        (set_document (<[h := c1]> (document w)) (set_rand_cursor k0 w)).
Proof.
  intros Hdoc Hslot Hlen.
  pose proof (lookup_lt_Some _ _ _ Hdoc) as Hh.
  set (len := length (eligible_children (ct_nodes c))) in *.
  destruct (pick_index_spec (ct_adIndex c) len w Hlen)
    as (idx & written & k0 & Hpick & Hidx & _).
  destruct (lookup_lt_is_Some_2 (eligible_children (ct_nodes c)) idx) as [[pr ref] Href];
    [fold len; lia|].
  destruct (place_wrapper_shape _ _ _ _ Href)
    as (pre & rt & W & k & post & Hplace & Hrt & Hnad & Had & _ & _ & Hrest).
  exists written, k0, pre, rt, ref, W, k, post. eexists.
  do 4 (split; [done|]). split; [reflexivity|].
  unfold sendAd, bind at 1, get at 1. rewrite Hdoc, Hslot.
  unfold sendAd_generic. fold len.
  replace (len <? 3) with false by (symmetry; apply Nat.ltb_ge; lia).
  unfold bind at 1. rewrite Hpick. rewrite Href, Hplace. cbv zeta. cbn [fst snd].
  assert (∀ (k1 k2 : M unit) w1 w2, w1 = w2 → (k1 ;; k2) w1 = (k1 ;; k2) w2) as Hcong
    by (by intros ???? ->).
  destruct written as [v|]; rewrite ?bind_ret, !bind_update;
    apply Hcong; unfold set_document, set_rand_cursor; simpl; f_equal.
  - rewrite list_alter_alter_eq.
    apply list_eq. intros i. destruct (decide (i = h)) as [->|Hne].
    + by rewrite list_lookup_alter_eq, list_lookup_insert_eq, Hdoc.
    + by rewrite list_lookup_alter_ne, list_lookup_insert_ne.
  - apply list_eq. intros i. destruct (decide (i = h)) as [->|Hne].
    + by rewrite list_lookup_alter_eq, list_lookup_insert_eq, Hdoc.
    + by rewrite list_lookup_alter_ne, list_lookup_insert_ne.
Qed.

Lemma lookup_after_ref {A} (pre post : list A) (ref W : A) :
  (pre ++ ref :: W :: post) !! S (length pre) = Some W.
Proof.
  rewrite (cons_middle ref), app_assoc.
  rewrite list_lookup_middle; [done|]. rewrite length_app. simpl. lia.
Qed.

Lemma insert_after_ref {A} (pre post : list A) (ref W W' : A) :
  <[S (length pre) := W']> (pre ++ ref :: W :: post) = pre ++ ref :: W' :: post.
Proof.
  rewrite (cons_middle ref), app_assoc.
  replace (S (length pre)) with (length (pre ++ [ref]) + 0)
    by (rewrite length_app; simpl; lia).
  rewrite insert_app_r. simpl. by rewrite <- app_assoc.
Qed.

(** The siblings that [replicateSiblingStyles] is given are eligible
    children of the container. *)
Lemma siblings_eligible (ns : list node) pw p e :
  List.find (λ p, negb (p.1 =? pw) && el_shown p.2)
            (List.filter (λ p, negb (p.1 =? pw) && negb (is_ad p.2)) (children_of ns))
    = Some (p, e) →
  e ∈ eligible_elems ns.
Proof.
  intros Hfind. apply find_some in Hfind as [Hin _].
  apply List.filter_In in Hin as [Hin Hp]. apply andb_true_iff in Hp as [_ Hp].
  rewrite <- eligible_children_elems. apply list_elem_of_fmap.
  exists (p, e). split; [done|]. apply list_elem_of_In, List.filter_In. by split.
Qed.

(** What [inject_content] does when no copy-sibling selector is
    configured and no eligible child is an SVG element: it returns, the
    ad it drew is the content of the wrapper, and nothing is left below
    the wrapper. *)
Lemma inject_content_default bs h pw w c W k :
  truthy (copySiblingSelector w) = false →
  document w !! h = Some c → ct_tree c !! pw = Some (Node W k) →
  html_siblings c →
  ∃ o q k0 W',
    inject_content bs h pw w =
      (Ret tt,
       with_child h pw c (Node W' [])
         (set_adQueues (<[h:=q]> (adQueues w)) (set_rand_cursor k0 w))) ∧
    el_content W' = innerHTML_of o ∧
    (is_ad W = true → is_ad W' = true) ∧
    (bs ≠ [] → o ≠ None) ∧
    (∀ w', adQueues w' = <[h:=q]> (adQueues w) → drawn h bs w o w').
Proof.
  intros Hcss Hc Ht Hhtml.
  pose proof (lookup_lt_Some _ _ _ Hc) as Hh.
  pose proof (lookup_lt_Some _ _ _ Ht) as Hpw.
  destruct (getNextAd_drawn h bs w) as (o & q & k0 & Heq & Hsome & Hdrawn).
  set (w1 := set_adQueues (<[h:=q]> (adQueues w)) (set_rand_cursor k0 w)) in *.
  assert (document w1 !! h = Some c) as Hc1 by done.
  unfold inject_content, bind at 1, get at 1. rewrite Hc. cbn [fmap option_fmap option_map default].
  set (siblings := List.filter _ _).
  unfold bind at 1. rewrite Heq. unfold bind at 1, get at 1.
  change (copySiblingSelector w1) with (copySiblingSelector w). rewrite Hcss.
  destruct (replicateSiblingStyles_settles h pw siblings w1 c W k Hc1 Ht)
    as (Hnone & Hsvg & Hcopy).
  destruct (List.find (λ p, negb (p.1 =? pw) && el_shown p.2) siblings)
    as [[p ref]|] eqn:Hfind.
  - assert (el_svg ref = false) as Href.
    { apply siblings_eligible in Hfind.
      by apply (proj1 (Forall_forall _ _) Hhtml). }
    destruct (Hcopy p ref eq_refl Href) as (t' & Hrep & _ & _ & _ & Hcls & _).
    unfold bind. rewrite Hrep. rewrite update_child_again by done.
    exists o, q, k0, (set_content (innerHTML_of o) t').
    split; [done|]. split; [done|]. split; [|done].
    intros HW. unfold is_ad. cbn [set_content el_classes]. rewrite Hcls.
    destruct (el_svg W); [done|].
    unfold has_class. apply bool_decide_eq_true. apply elem_of_app. right.
    by apply list_elem_of_singleton.
  - unfold bind. rewrite (Hnone eq_refl).
    rewrite (update_child_explicit h pw _ w1 c _ Hc1 Ht).
    exists o, q, k0, (set_content (innerHTML_of o) W). done.
Qed.

(** [animateAdEntry] as one write to the wrapper, which keeps its
    content and its id and stays a wrapper. *)
Lemma animateAdEntry_explicit h pw w c W k :
  h < length (document w) → pw < length (ct_tree c) →
  ∃ W',
    animateAdEntry h pw (with_child h pw c (Node W k) w) =
      (Ret tt,
       with_child h pw c (Node W' k) (set_rand_cursor (S (rand_cursor w)) w)) ∧
    el_content W' = el_content W ∧ el_id W' = el_id W ∧
    (is_ad W = true → is_ad W' = true).
Proof.
  intros Hh Hpw.
  set (anim := default "undefined"
                 (animations !! floor_mul (random (rand_cursor w)) (length animations))).
  exists (classList_add anim
            (set_classes (List.filter (λ c, negb (has_class c animations))
                                      (el_classes W)) W)).
  split; [|split; [|split]].
  - unfold animateAdEntry, bind, alter_element. rewrite update_child_again by done.
    unfold Math_random.
    change (set_rand_cursor ?v (with_child h pw c ?t w))
      with (with_child h pw c t (set_rand_cursor v w)).
    rewrite update_child_again by done. done.
  - unfold classList_add. by destruct (has_class _ _).
  - unfold classList_add. by destruct (has_class _ _).
  - intros He. by apply is_ad_classList_add, is_ad_animation_off.
Qed.

(** X13.  With no copy-sibling selector configured and no SVG element
    among the eligible children, a placement into a generic container
    with at least three eligible children never throws.  Afterwards the
    wrapper, the node after the reference child, holds the ad that was
    drawn for the container and nothing else: the head of its stored
    queue, or of a fresh shuffle of the banner list when nothing was
    stored; the queue holds the rest.  Around the wrapper stand the
    child nodes of before, the found wrapper detached. *)
Theorem sendAd_shows_drawn_ad
    (bs : list string) (h : nat) (fl : bool) (w : World) (c : container) :
  document w !! h = Some c → is_slot c = false →
  3 ≤ length (eligible_children (ct_nodes c)) →
  truthy (copySiblingSelector w) = false →
  html_siblings c →
  ∃ o c' w' pre rt ref W post,
    sendAd bs h fl w = (Ret tt, w') ∧ document w' !! h = Some c' ∧
    drawn h bs w o w' ∧
    ct_tree c' = pre ++ rt :: Node W [] :: post ∧
    top rt = Element ref ∧ is_ad ref = false ∧ is_ad W = true ∧
    el_content W = innerHTML_of o ∧
    pre ++ rt :: post = rest_of (ct_tree c).
Proof.
  intros Hdoc Hslot Hlen Hcss Hhtml.
  pose proof (lookup_lt_Some _ _ _ Hdoc) as Hh.
  destruct (sendAd_generic_unfold bs h fl w c Hdoc Hslot Hlen)
    as (written & k0 & pre & rt & ref & W & k & post & c1 & Hrt & Hnad & Had &
        Hrest & Hc1 & Hsend).
  set (w3 := set_document _ _) in Hsend.
  assert (document w3 !! h = Some c1) as Hdoc3
    by (by apply list_lookup_insert_eq).
  assert (ct_tree c1 !! S (length pre) = Some (Node W k)) as HW.
  { rewrite Hc1. apply lookup_after_ref. }
  assert (html_siblings c1) as Hhtml1.
  { unfold html_siblings, ct_nodes in *. rewrite Hc1. cbn [ct_tree set_tree].
    rewrite <- (rest_of_eligible (ct_tree c)), <- Hrest in Hhtml.
    revert Hhtml. rewrite !fmap_app, !fmap_cons, Hrt. nodes_norm. by rewrite Had. }
  destruct (inject_content_default bs h (S (length pre)) w3 c1 W k Hcss Hdoc3 HW Hhtml1)
    as (o & q & k1 & W1 & Hinject & Hcontent & Had1 & _ & Hdrawn).
  set (w4 := set_adQueues _ _) in Hinject.
  destruct (animateAdEntry_explicit h (S (length pre)) w4 c1 W1 [])
    as (W2 & Hanim & Hkeep & _ & Had2);
    [by eapply lookup_lt_Some|by eapply lookup_lt_Some|].
  exists o. eexists _, _, pre, rt, ref, W2, post.
  split.
  { rewrite Hsend. unfold bind. rewrite Hinject. exact Hanim. }
  split.
  { unfold with_child. simpl. apply list_lookup_insert_eq.
    by rewrite length_insert. }
  split; [by apply (Hdrawn _)|].
  split.
  { cbn [ct_tree set_tree]. rewrite Hc1. cbn [ct_tree set_tree].
    apply insert_after_ref. }
  do 2 (split; [done|]). split; [by apply Had2, Had1|].
  split; [by rewrite Hkeep, Hcontent|done].
Qed.

(** ** What can throw *)

Lemma replicateSiblingStyles_returns h pw siblings w :
  (∀ p ref, List.find (λ p, negb (p.1 =? pw) && el_shown p.2) siblings = Some (p, ref) →
            el_svg ref = false) →
  ∃ w', replicateSiblingStyles h pw siblings w = (Ret tt, w').
Proof.
  intros Hhtml. unfold replicateSiblingStyles.
  destruct siblings as [|s siblings]; [by eexists|].
  destruct (List.find _ (s :: siblings)) as [[p ref]|]; [|by eexists].
  rewrite (Hhtml p ref eq_refl). by eexists.
Qed.

Lemma animateAdEntry_returns h pw w : ∃ w', animateAdEntry h pw w = (Ret tt, w').
Proof. unfold animateAdEntry, bind, update_container, modify, Math_random. by eexists. Qed.

Lemma inject_content_returns bs h pw w :
  bs ≠ [] → copy_selector_ok w →
  (∀ c, document w !! h = Some c → html_siblings c) →
  ∃ w', inject_content bs h pw w = (Ret tt, w').
Proof.
  intros Hbs Hok Hhtml.
  destruct (getNextAd_drawn h bs w) as (o & q & k & Heq & Hsome & _).
  destruct o as [ad|]; [|by destruct (Hsome Hbs)].
  unfold inject_content, bind at 1, get at 1.
  set (ts := default [] _). set (siblings := List.filter _ _).
  unfold bind at 1. rewrite Heq. unfold bind at 1, get at 1. simpl.
  destruct (truthy (copySiblingSelector w)) eqn:Hcss.
  - rewrite (Hok Hcss).
    destruct (query_selector _ _) as [customRef|]; [|by eexists].
    unfold bind at 1, get at 1. unfold bind at 1, get at 1. simpl.
    destruct (banners w), (adConfigBanners w); unfold bind at 1; by eexists.
  - set (w1 := set_adQueues _ _).
    destruct (replicateSiblingStyles_returns h pw siblings w1) as (w2 & Hrep).
    { intros p ref Hfind. subst siblings ts.
      destruct (document w !! h) as [c|] eqn:Hc; [|done].
      apply siblings_eligible in Hfind.
      by apply (proj1 (Forall_forall _ _) (Hhtml c eq_refl)). }
    unfold bind. rewrite Hrep. by eexists.
Qed.

Lemma sendAd_returns bs h fl w :
  bs ≠ [] → copy_selector_ok w →
  (∀ c, document w !! h = Some c → html_siblings c) →
  ∃ w', sendAd bs h fl w = (Ret tt, w').
Proof.
  intros Hbs Hok Hhtml.
  destruct (document w !! h) as [c|] eqn:Hdoc.
  2:{ exists w. unfold sendAd, bind, get. by rewrite Hdoc. }
  destruct (is_slot c) eqn:Hslot.
  { destruct (sendAd_slot_explicit bs h fl w c Hdoc Hslot) as (o & c' & w' & Heq & _).
    by exists w'. }
  destruct (decide (3 ≤ length (eligible_children (ct_nodes c)))) as [Hlen|Hlen].
  2:{ exists w. apply (sendAd_small bs h fl w c Hdoc Hslot). lia. }
  pose proof (lookup_lt_Some _ _ _ Hdoc) as Hh.
  destruct (sendAd_generic_unfold bs h fl w c Hdoc Hslot Hlen)
    as (written & k0 & pre & rt & ref & W & k & post & c1 & Hrt & Hnad & Had &
        Hrest & Hc1 & Hsend).
  rewrite Hsend. set (w3 := set_document _ _).
  destruct (inject_content_returns bs h (S (length pre)) w3 Hbs Hok) as (w4 & Hinject).
  { intros c0 Hc0. unfold w3 in Hc0. simpl in Hc0.
    rewrite list_lookup_insert_eq in Hc0 by done. injection Hc0 as <-.
    specialize (Hhtml c eq_refl).
    unfold html_siblings, ct_nodes in *. rewrite Hc1. cbn [ct_tree set_tree].
    rewrite <- (rest_of_eligible (ct_tree c)), <- Hrest in Hhtml.
    revert Hhtml. rewrite !fmap_app, !fmap_cons, Hrt. nodes_norm. by rewrite Had. }
  destruct (animateAdEntry_returns h (S (length pre)) w4) as (w5 & Hanim).
  unfold bind. rewrite Hinject, Hanim. by eexists.
Qed.

(** X14.  With a non-empty banner list, a placement returns whenever the
    copy-sibling selector, if one is configured, is a valid selector and
    no eligible child of the container is an SVG element, for every
    container, page and stream of random samples. *)
Theorem sendAd_never_throws
    (bs : list string) (h : nat) (fl : bool) (w : World) :
  bs ≠ [] → copy_selector_ok w →
  (∀ c, document w !! h = Some c → html_siblings c) →
  ∃ w', sendAd bs h fl w = (Ret tt, w').
Proof. apply sendAd_returns. Qed.

Lemma config_field_copySiblingSelector : config_field copySiblingSelector.
Proof. by repeat split. Qed.

(** A placement leaves every other container as it is. *)
Lemma sendAd_other_container bs h fl w h' :
  h' ≠ h → document (sendAd bs h fl w).2 !! h' = document w !! h'.
Proof.
  intros Hne.
  apply (sendAd_keeps (λ w w', document w' !! h' = document w !! h')); try done.
  - intros x y z Hxy Hyz. by rewrite Hyz.
  - intros g w0. simpl. by apply list_lookup_alter_ne.
Qed.

(** A placement leaves the eligible children of its container, or none. *)
Lemma sendAd_eligible bs h fl w c :
  document w !! h = Some c →
  ∃ c',
    document (sendAd bs h fl w).2 !! h = Some c' ∧
    (eligible_elems (ct_nodes c') = eligible_elems (ct_nodes c) ∨
     eligible_elems (ct_nodes c') = []).
Proof.
  intros Hdoc. destruct (is_slot c) eqn:Hslot.
  - destruct (sendAd_slot_explicit bs h fl w c Hdoc Hslot)
      as (o & c' & w' & Heq & Hdoc' & _ & _ & _ & _ & Htree).
    exists c'. rewrite Heq. split; [done|]. unfold ct_nodes. rewrite Htree.
    destruct (query_cases (ct_tree c))
      as [[Hq _]|[(a & W & k & b & Hq & Hts & HW & _)|
                  (a & X & kx & b & i & q & t & Hq & Hts & HX & _ & _)]];
      rewrite Hq.
    + by right.
    + left. rewrite Hts. cbn [alter_at].
      rewrite alter_app_r_alt, Nat.sub_diag by lia. cbn [alter list_alter write_html].
      nodes_norm. unfold is_ad at 1. simpl. fold (is_ad W). by rewrite HW.
    + left. rewrite Hts. cbn [alter_at].
      rewrite alter_app_r_alt, Nat.sub_diag by lia. cbn [alter list_alter].
      by nodes_norm.
  - destruct (decide (3 ≤ length (eligible_children (ct_nodes c)))) as [Hlen|Hlen].
    + destruct (sendAd_generic_deep bs h fl w c Hdoc Hslot Hlen)
        as (idx & written & c' & pre & rt & ref & W & k & post & _ & _ & _ & _ &
            Hdoc' & _ & _ & _ & Htree & Hrt & _ & Hnad & Had & _ & Hrest).
      exists c'. split; [done|]. left. unfold ct_nodes.
      rewrite Htree, <- (rest_of_eligible (ct_tree c)), <- Hrest.
      rewrite !fmap_app, !fmap_cons, Hrt. nodes_norm. by rewrite Had.
    + exists c. rewrite (sendAd_small bs h fl w c Hdoc Hslot) by lia.
      split; [done|]. by left.
Qed.

Lemma sendAd_html_page bs h fl w :
  html_page w → html_page (sendAd bs h fl w).2.
Proof.
  intros Hpage. apply Forall_lookup. intros i c' Hi.
  destruct (decide (i = h)) as [->|Hne].
  - destruct (document w !! h) as [c|] eqn:Hdoc.
    + destruct (sendAd_eligible bs h fl w c Hdoc) as (c2 & Hdoc2 & Hel).
      rewrite Hdoc2 in Hi. injection Hi as ->.
      pose proof (proj1 (Forall_lookup _ _) Hpage h c Hdoc) as Hc.
      unfold html_siblings in *. destruct Hel as [-> | ->]; [done|constructor].
    + unfold sendAd, bind, get in Hi. rewrite Hdoc in Hi. simpl in Hi. congruence.
  - rewrite sendAd_other_container in Hi by done.
    by apply (proj1 (Forall_lookup _ _) Hpage i).
Qed.

Lemma serve_all_returns fl arr w :
  banners w ≠ [] → copy_selector_ok w → html_page w →
  ∃ w',
    forEach (λ el, let* bs := get banners in sendAd bs el fl) arr w = (Ret tt, w') ∧
    banners w' = banners w ∧ copySiblingSelector w' = copySiblingSelector w.
Proof.
  revert w. induction arr as [|el arr IH]; intros w Hbs Hok Hpage; simpl.
  - by exists w.
  - unfold bind at 1. unfold bind at 1, get at 1.
    destruct (sendAd_returns (banners w) el fl w Hbs Hok) as (w1 & Heq).
    { intros c Hc. by apply (proj1 (Forall_lookup _ _) Hpage el). }
    pose proof (sendAd_same banners (banners w) el fl config_field_banners w) as Hb.
    pose proof (sendAd_same copySiblingSelector (banners w) el fl
                  config_field_copySiblingSelector w) as Hc.
    pose proof (sendAd_html_page (banners w) el fl w Hpage) as Hp.
    unfold same in Hb, Hc. rewrite Heq in Hb, Hc, Hp |- *. simpl in Hb, Hc, Hp.
    destruct (IH w1) as (w' & Hrest & Hb' & Hc').
    { by rewrite Hb. }
    { unfold copy_selector_ok. by rewrite Hc. }
    { done. }
    exists w'. split; [done|]. split; congruence.
Qed.

Lemma querySelectorAll_valid selector w :
  sel_valid selector = true →
  querySelectorAll selector w = (Ret (matches_of selector (document w)), w).
Proof. intros Hv. unfold querySelectorAll. by rewrite Hv. Qed.

Lemma collect_containers_valid sels acc w :
  Forall (λ s, sel_valid (selector_text s) = true) sels →
  collect_containers sels acc w =
    (Ret (acc ++ concat ((λ s, matches_of (selector_text s) (document w)) <$> sels)), w).
Proof.
  intros Hall. revert acc. induction Hall as [|s sels Hs Hall IH]; intros acc; simpl.
  - by rewrite app_nil_r.
  - unfold bind. rewrite (querySelectorAll_valid _ w Hs). rewrite IH.
    by rewrite <- app_assoc.
Qed.

Lemma collect_containers_invalid sels acc w :
  Exists (λ s, sel_valid (selector_text s) = false) sels →
  ∃ e, collect_containers sels acc w = (Throw e, w).
Proof.
  intros Hex. revert acc. induction sels as [|s sels IH]; intros acc.
  - by apply Exists_nil in Hex.
  - simpl. unfold bind, querySelectorAll.
    destruct (sel_valid (selector_text s)) eqn:Hs.
    + simpl. apply IH. apply Exists_cons in Hex as [Hex|Hex]; [congruence|done].
    + by eexists.
Qed.

(** X15.  A rotation tick never throws when every configured container
    selector, and the copy-sibling selector if there is one, is a valid
    selector and no eligible child of a container of the page is an SVG
    element. *)
Theorem rotateAdSlots_never_throws (w : World) :
  selectors_ok w → copy_selector_ok w → html_page w →
  ∃ w', rotateAdSlots w = (Ret tt, w').
Proof.
  intros Hsels Hok Hpage. unfold rotateAdSlots, rotation_order.
  unfold bind at 1. unfold bind at 1, get at 1.
  destruct (banners w) as [|b bs] eqn:Hb; [by eexists|].
  unfold bind at 1, get at 1.
  destruct (containerSelectors w) as [|s sels] eqn:Hs; [by eexists|].
  unfold bind at 1. rewrite (collect_containers_valid _ _ w); [|by rewrite <- Hs].
  rewrite app_nil_l.
  destruct (concat _) as [|a all]; [by eexists|].
  unfold bind at 1. destruct (shuffle_returns (a :: all) w) as (out & -> & _).
  unfold ret at 1.
  destruct (serve_all_returns false out
              (set_rand_cursor (length (a :: all) + rand_cursor w) w))
    as (w' & Heq & _).
  { simpl. by rewrite Hb. }
  { exact Hok. }
  { exact Hpage. }
  exists w'. exact Heq.
Qed.

(** X16.  The initialization never throws when, after the load, every
    configured container selector, and the copy-sibling selector if
    there is one, is a valid selector and no eligible child of a
    container of the page is an SVG element. *)
Theorem initAdInjector_never_throws (res : fetch_result) (w : World) :
  selectors_ok (fetchAllBannersFromFile res w).2 →
  copy_selector_ok (fetchAllBannersFromFile res w).2 →
  html_page (fetchAllBannersFromFile res w).2 →
  ∃ w', initAdInjector res w = (Ret tt, w').
Proof.
  destruct (fetch_returns res w) as (w1 & Heq & _). rewrite Heq. simpl.
  intros Hsels Hok Hpage. unfold initAdInjector, bind at 1. rewrite Heq.
  unfold bind at 1, get at 1.
  destruct (containerSelectors w1) as [|s sels] eqn:Hs; [by eexists|].
  unfold bind at 1. rewrite (collect_containers_valid _ _ w1); [|by rewrite <- Hs].
  rewrite app_nil_l. set (all := concat _).
  unfold bind at 1, get at 1. unfold bind at 1.
  assert (∃ w2, match banners w1 with
                | [] => ret tt
                | _ :: _ =>
                    match all with
                    | [] => ret tt
                    | _ :: _ =>
                        let* shuffled := shuffle all in
                        forEach (λ el, let* bs := get banners in sendAd bs el true)
                                shuffled
                    end
                end w1 = (Ret tt, w2)) as (w2 & ->).
  { destruct (banners w1) as [|b bs] eqn:Hb; [by eexists|].
    destruct all as [|a all']; [by eexists|].
    unfold bind. destruct (shuffle_returns (a :: all') w1) as (out & -> & _).
    destruct (serve_all_returns true out
                (set_rand_cursor (length (a :: all') + rand_cursor w1) w1))
      as (w2 & Hserve & _); [by simpl; rewrite Hb|exact Hok|exact Hpage|].
    by exists w2. }
  unfold bind at 1, get at 1.
  destruct (1 <? length (banners w2)); by eexists.
Qed.

(** X17.  A container selector that is not a valid selector stops a
    rotation tick and the initialization with an exception before
    anything is placed: a tick with banners leaves the world as it was,
    and the initialization leaves it as the load left it, so that no
    timer is started either. *)
Theorem invalid_selector_stops_all (w : World) :
  (banners w ≠ [] →
   Exists (λ s, sel_valid (selector_text s) = false) (containerSelectors w) →
   ∃ e, rotateAdSlots w = (Throw e, w)) ∧
  (∀ res,
     Exists (λ s, sel_valid (selector_text s) = false)
            (containerSelectors (fetchAllBannersFromFile res w).2) →
     ∃ e, initAdInjector res w = (Throw e, (fetchAllBannersFromFile res w).2)).
Proof.
  split.
  - intros Hb Hex. unfold rotateAdSlots, rotation_order.
    unfold bind at 1. unfold bind at 1, get at 1.
    destruct (banners w) as [|b bs]; [done|].
    unfold bind at 1, get at 1.
    destruct (containerSelectors w) as [|s sels]; [by apply Exists_nil in Hex|].
    unfold bind at 1.
    destruct (collect_containers_invalid (s :: sels) [] w Hex) as (e & ->).
    by exists e.
  - intros res. destruct (fetch_returns res w) as (w1 & Heq & _). rewrite Heq. simpl.
    intros Hex. unfold initAdInjector, bind at 1. rewrite Heq.
    unfold bind at 1, get at 1.
    destruct (containerSelectors w1) as [|s sels]; [by apply Exists_nil in Hex|].
    unfold bind at 1.
    destruct (collect_containers_invalid (s :: sels) [] w1 Hex) as (e & ->).
    by exists e.
Qed.

(** ** What a placement leaves alone *)

(** The frame of a placement for a relation that holds across draws for
    container [h] only. *)
Section FrameAt.
Context (R : World → World → Prop).
Context (Rrefl : ∀ x, R x x) (Rtrans : ∀ x y z, R x y → R y z → R x z).
Context (h : nat).
Context (Rdraw : ∀ bs, keeps R (getNextAd h bs)).
Context (Rcursor : ∀ v w, R w (set_rand_cursor v w)).
Context (Rdoc : ∀ g w, R w (set_document (alter g h (document w)) w)).

Lemma replicateSiblingStyles_keeps_at pw siblings :
  keeps R (replicateSiblingStyles h pw siblings).
Proof.
  unfold replicateSiblingStyles. destruct siblings as [|s siblings]; [keeps_easy|].
  destruct (List.find _ _) as [[? ref]|]; [|keeps_easy].
  apply keeps_bind; [done|by apply update_container_keeps|intros _].
  destruct (el_svg ref); [keeps_easy|by apply update_container_keeps].
Qed.

Lemma inject_content_keeps_at bs pw : keeps R (inject_content bs h pw).
Proof.
  unfold inject_content.
  apply keeps_bind; [done|keeps_easy|intros ns].
  apply keeps_bind; [done|apply Rdraw|intros adHtml].
  apply keeps_bind; [done|keeps_easy|intros css].
  destruct (truthy css).
  - destruct (sel_valid _); [|keeps_easy].
    destruct (query_selector _ _) as [customRef|]; [|keeps_easy].
    apply keeps_bind; [done|keeps_easy|intros bs'].
    apply keeps_bind; [done|keeps_easy|intros acb].
    apply keeps_bind; [done| |intros bannerObj].
    + destruct bs', acb as [[|]|], adHtml; keeps_easy.
    + by apply update_container_keeps.
  - apply keeps_bind; [done|apply replicateSiblingStyles_keeps_at|intros _].
    by apply update_container_keeps.
Qed.

Lemma sendAd_keeps_at bs fl : keeps R (sendAd bs h fl).
Proof.
  unfold sendAd. apply keeps_bind; [done|keeps_easy|intros [c|]];
    [|keeps_easy].
  destruct (is_slot c).
  - unfold sendAd_slot.
    apply keeps_bind; [done| |intros pw].
    { destruct (query_ad_wrapper _) as [[? ?]|]; [keeps_easy|].
      apply keeps_bind; [done|by apply update_container_keeps|intros _].
      keeps_easy. }
    apply keeps_bind; [done|apply Rdraw|intros adHtml].
    by apply update_container_keeps.
  - unfold sendAd_generic. destruct (_ <? 3); [keeps_easy|].
    apply keeps_bind; [done|by apply pick_index_keeps|intros [[idx wr]|]];
      [|keeps_easy].
    apply keeps_bind; [done| |intros _].
    { destruct wr; [by apply update_container_keeps|keeps_easy]. }
    destruct (_ !! idx) as [[pr ?]|]; [|keeps_easy].
    apply keeps_bind; [done|by apply update_container_keeps|intros _].
    apply keeps_bind; [done|apply inject_content_keeps_at|intros _].
    by apply animateAdEntry_keeps.
Qed.
End FrameAt.

Lemma sendAd_other_queue c bs h fl w :
  c ≠ h → adQueues (sendAd bs h fl w).2 !! c = adQueues w !! c.
Proof.
  intros Hne.
  apply (sendAd_keeps_at (λ w w', adQueues w' !! c = adQueues w !! c));
    try done.
  - intros x y z Hxy Hyz. by rewrite Hyz.
  - intros bs' w0.
    destruct (getNextAd_cases h bs' w0) as [(ad & rest & _ & ->)|(_ & fresh & _ & ->)];
      simpl; by rewrite lookup_insert_ne.
Qed.

(** X18.  A placement writes the page, the queue of its container and
    the random cursor, and nothing else of the script's state: the queue
    of every other container, the banner list, the selectors, the
    copy-sibling selector, the configured banners, the global queue, the
    timers and the log are as before. *)
Theorem sendAd_frame (bs : list string) (h : nat) (fl : bool) (w : World) :
  (∀ h', h' ≠ h → adQueues (sendAd bs h fl w).2 !! h' = adQueues w !! h') ∧
  banners (sendAd bs h fl w).2 = banners w ∧
  containerSelectors (sendAd bs h fl w).2 = containerSelectors w ∧
  copySiblingSelector (sendAd bs h fl w).2 = copySiblingSelector w ∧
  adConfigBanners (sendAd bs h fl w).2 = adConfigBanners w ∧
  adRotationQueue (sendAd bs h fl w).2 = adRotationQueue w ∧
  timers (sendAd bs h fl w).2 = timers w ∧
  console (sendAd bs h fl w).2 = console w ∧
  bannerIndex (sendAd bs h fl w).2 = bannerIndex w ∧
  rotationOffset (sendAd bs h fl w).2 = rotationOffset w.
Proof.
  split.
  - intros h' Hne. by apply sendAd_other_queue.
  - repeat split;
      match goal with
      | |- ?f _ = _ => apply (sendAd_same f bs h fl); by repeat split
      end.
Qed.

(** ** Resolving the selectors *)

Lemma matches_of_elem selector doc h :
  h ∈ matches_of selector doc ↔
  ∃ c, doc !! h = Some c ∧ sel_container selector c = true.
Proof.
  unfold matches_of. rewrite list_elem_of_fmap. split.
  - intros ([i c] & -> & Hin).
    apply list_elem_of_In, List.filter_In in Hin as [Hin Hsel].
    apply list_elem_of_In, elem_of_lookup_imap_1 in Hin as (j & y & [= -> ->] & Hy).
    by exists y.
  - intros (c & Hc & Hsel). exists (h, c). split; [done|].
    apply list_elem_of_In, List.filter_In. split; [|done].
    apply list_elem_of_In. by apply (elem_of_lookup_imap_2 (λ i c, (i, c))).
Qed.

Lemma filter_fst_NoDup {A B} (P : A * B → bool) (l : list (A * B)) :
  NoDup (l.*1) → NoDup ((List.filter P l).*1).
Proof.
  induction l as [|[a b] l IH]; simpl; [done|].
  intros [Hnotin Hnd]%NoDup_cons.
  destruct (P (a, b)); simpl; [|by apply IH].
  apply NoDup_cons. split; [|by apply IH].
  intros ([a' b'] & Heq & Hin)%list_elem_of_fmap. simpl in Heq. subst a'.
  apply Hnotin. apply list_elem_of_fmap. exists (a, b'). split; [done|].
  apply list_elem_of_In. by apply list_elem_of_In, List.filter_In in Hin as [Hin _].
Qed.

Lemma matches_of_NoDup selector doc : NoDup (matches_of selector doc).
Proof.
  unfold matches_of. apply filter_fst_NoDup.
  rewrite fmap_imap.
  rewrite (imap_ext _ (λ j _, j)) by done.
  rewrite (imap_seq_0 doc (λ j, j)), list_fmap_id. apply NoDup_seq.
Qed.

(** X19.  When every configured selector is valid, the containers of a
    rotation tick or of the initial load are collected without
    exception and without touching the world, selector by selector in
    the configured order: for each selector the handles of the
    containers it matches, each once.  Nothing removes duplicates across
    selectors, so a container is listed, and then served, once for every
    configured selector that matches it. *)
Theorem collect_containers_lists_matches (sels : list container_entry) (w : World) :
  Forall (λ s, sel_valid (selector_text s) = true) sels →
  collect_containers sels [] w =
    (Ret (concat ((λ s, matches_of (selector_text s) (document w)) <$> sels)), w) ∧
  (∀ s, s ∈ sels → NoDup (matches_of (selector_text s) (document w))) ∧
  (∀ s h, h ∈ matches_of (selector_text s) (document w) ↔
          ∃ c, document w !! h = Some c ∧ sel_container (selector_text s) c = true).
Proof.
  intros Hall. split; [|split].
  - by rewrite (collect_containers_valid sels [] w Hall).
  - intros s _. apply matches_of_NoDup.
  - intros s h. apply matches_of_elem.
Qed.

(** ** Idle ticks and the timer table *)

Lemma concat_all_nil {A B} (f : A → list B) (l : list A) :
  Forall (λ x, f x = []) l → concat (f <$> l) = [].
Proof. induction 1 as [|x l Hx _ IH]; [done|]. rewrite fmap_cons. simpl. rewrite Hx. exact IH. Qed.

(** X20.  A rotation tick that has nothing to do does nothing: without
    banners, or with valid selectors that match no container, it returns
    with the world as it was, consuming no random sample; with banners
    but without selectors it only logs the configuration error. *)
Theorem rotateAdSlots_idle (w : World) :
  (banners w = [] → rotateAdSlots w = (Ret tt, w)) ∧
  (banners w ≠ [] → containerSelectors w = [] →
   rotateAdSlots w = (Ret tt, set_console (console w ++ [rotate_error]) w)) ∧
  (banners w ≠ [] → containerSelectors w ≠ [] → selectors_ok w →
   Forall (λ s, matches_of (selector_text s) (document w) = [])
          (containerSelectors w) →
   rotateAdSlots w = (Ret tt, w)).
Proof.
  split; [|split].
  - intros Hb. unfold rotateAdSlots, rotation_order, bind, get. by rewrite Hb.
  - intros Hb Hs. unfold rotateAdSlots, rotation_order, bind, get.
    destruct (banners w); [done|]. by rewrite Hs.
  - intros Hb Hs Hok Hnone. unfold rotateAdSlots, rotation_order.
    unfold bind at 1. unfold bind at 1, get at 1.
    destruct (banners w) as [|b bs]; [done|]. unfold bind at 1, get at 1.
    unfold selectors_ok in Hok.
    destruct (containerSelectors w) as [|s sels]; [done|].
    unfold bind at 1. rewrite (collect_containers_valid _ _ w Hok).
    rewrite app_nil_l, (concat_all_nil _ _ Hnone). reflexivity.
Qed.

Lemma rotation_order_field {F} (f : World → F) w :
  (∀ v w, f (set_console v w) = f w) → (∀ v w, f (set_rand_cursor v w) = f w) →
  f (rotation_order w).2 = f w.
Proof.
  intros Hconsole Hcursor. unfold rotation_order, bind at 1, get at 1.
  destruct (banners w) as [|b bs]; [done|]. unfold bind at 1, get at 1.
  destruct (containerSelectors w) as [|s sels]; [apply Hconsole|]. unfold bind at 1.
  pose proof (collect_containers_pure (s :: sels) [] w) as Hpure.
  destruct (collect_containers (s :: sels) [] w) as [[all|e] w1];
    simpl in Hpure; subst w1; [|done].
  destruct all as [|a all]; [done|].
  unfold bind. destruct (shuffle_returns (a :: all) w) as (out & -> & _).
  apply Hcursor.
Qed.

Lemma rotateAdSlots_timers w : timers (rotateAdSlots w).2 = timers w.
Proof.
  unfold rotateAdSlots, bind.
  pose proof (rotation_order_field timers w ltac:(done) ltac:(done)) as Hord.
  destruct (rotation_order w) as [[[order|]|e] w1]; simpl in Hord; try done.
  rewrite <- Hord. apply (serve_all_same timers false order config_field_timers).
Qed.

(** X21.  Once the script has run, the timer table never changes: no
    tick of a timer registers another timer or cancels one, whatever the
    network delivers and whether the tick returns or throws. *)
Theorem timers_are_permanent (w w' : World) :
  rtc step w w' → timers w' = timers w.
Proof.
  induction 1 as [w|w w1 w2 Hstep _ IH]; [done|].
  rewrite IH.
  destruct Hstep as [[] period res _]; simpl.
  - apply rotateAdSlots_timers.
  - by destruct (fetch_returns res w) as (w0 & -> & _ & _ & _ & Ht).
Qed.

(** ** The loader in detail *)

Lemma startsWith_spec (s p : string) :
  startsWith s p = true ↔ ∃ rest, s = p +:+ rest.
Proof.
  revert s. induction p as [|b p IH]; intros s.
  - split; [intros _; exists s; reflexivity|intros _; by destruct s].
  - destruct s as [|a s].
    + split; [done|]. intros (rest & Hrest). rewrite append_cons in Hrest. done.
    + change (startsWith (String a s) (String b p))
        with (if Ascii.eqb a b then startsWith s p else false).
      destruct (Ascii.eqb a b) eqn:Hab.
      * apply Ascii.eqb_eq in Hab as ->. rewrite IH. split.
        -- intros (rest & ->). exists rest. by rewrite append_cons.
        -- intros (rest & Hrest). rewrite append_cons in Hrest.
           injection Hrest as ->. by exists rest.
      * split; [done|]. intros (rest & Hrest). rewrite append_cons in Hrest.
        injection Hrest as -> _. by rewrite Ascii.eqb_refl in Hab.
Qed.

(** X22.  An entry for the site whose url is not a prefix of the page
    URL configures nothing: the loader publishes the banners of the entry
    as [window._adConfigBanners] and returns; the banner list, the
    selectors and the copy-sibling selector stay as they were and nothing
    is logged.  An entry without url applies to every page. *)
Theorem fetch_other_page (configs : json_doc) (cfg : config) (u : string) (w : World) :
  find_config configs = Some cfg →
  url cfg = Some u → u ≠ EmptyString → (∀ rest, pageUrl ≠ u +:+ rest) →
  fetchAllBannersFromFile (Response true (ParsedJson configs)) w =
    (Ret tt, set_adConfigBanners (Some (default [] (cfg_banners cfg))) w) ∧
  ∀ cfg', url cfg' = None → url_mismatch cfg' = false.
Proof.
  intros Hfind Hurl Hne Hprefix.
  split; [|intros cfg' Hu; unfold url_mismatch; by rewrite Hu].
  simpl. rewrite Hfind. unfold bind, modify.
  replace (url_mismatch cfg) with true; [done|].
  symmetry. unfold url_mismatch. rewrite Hurl. simpl.
  destruct u as [|a u]; [done|]. simpl.
  apply negb_true_iff, not_true_iff_false.
  intros (rest & Hrest)%startsWith_spec. by apply (Hprefix rest).
Qed.

(** X23.  Fetching an unchanged configuration again changes nothing but
    the random rotation offset: after a second successful load with the
    same response the banner list, the selectors, the copy-sibling
    selector, the configured banners, the queues, the page, the timers
    and the log are exactly those after the first. *)
Theorem refetch_same_config (res : fetch_result) (cfg : config) (w : World) :
  load_success res cfg →
  ∃ w1 w2,
    fetchAllBannersFromFile res w = (Ret tt, w1) ∧
    fetchAllBannersFromFile res w1 = (Ret tt, w2) ∧
    set_rotationOffset (rotationOffset w1) (set_rand_cursor (rand_cursor w1) w2) = w1.
Proof.
  intros (configs & -> & Hfind & Hurl). simpl. rewrite Hfind.
  unfold bind, modify, Math_random. rewrite Hurl.
  eexists _, _. split; [reflexivity|]. split; [reflexivity|]. reflexivity.
Qed.

(** ** The markup of the banners *)

Lemma append_assoc_str (x y z : string) : (x +:+ y) +:+ z = x +:+ (y +:+ z).
Proof. induction x as [|a x IH]; [done|]. rewrite !append_cons. by rewrite IH. Qed.

Lemma startsWith_app (p rest : string) : startsWith (p +:+ rest) p = true.
Proof. apply startsWith_spec. by exists rest. Qed.

Lemma includes_here (s n : string) : startsWith s n = true → includes s n = true.
Proof.
  intros H. destruct s as [|a s].
  - change (includes EmptyString n) with (startsWith EmptyString n || false).
    by rewrite H.
  - change (includes (String a s) n)
      with (startsWith (String a s) n || includes s n).
    by rewrite H.
Qed.

Lemma includes_app_r (x y n : string) :
  includes y n = true → includes (x +:+ y) n = true.
Proof.
  intros H. induction x as [|a x IH]; [done|]. rewrite append_cons.
  change (includes (String a (x +:+ y)) n)
    with (startsWith (String a (x +:+ y)) n || includes (x +:+ y) n).
  rewrite IH. apply orb_true_r.
Qed.

Lemma includes_app_l (x y n : string) :
  includes x n = true → includes (x +:+ y) n = true.
Proof.
  induction x as [|a x IH]; intros H.
  - apply includes_app_r with (x := EmptyString). destruct n; [by destruct y|done].
  - change (includes (String a x) n)
      with (startsWith (String a x) n || includes x n) in H.
    apply orb_true_iff in H as [H|H].
    + apply includes_here. apply startsWith_spec in H as (rest & ->).
      rewrite append_assoc_str. apply startsWith_app.
    + rewrite append_cons.
      change (includes (String a (x +:+ y)) n)
        with (startsWith (String a (x +:+ y)) n || includes (x +:+ y) n).
      rewrite (IH H). apply orb_true_r.
Qed.

Lemma banner_markup_image (b : banner) :
  truthy (imageUrl b) = true →
  includes (banner_markup b) (default "undefined" (imageUrl b)) = true.
Proof.
  intros Himg. unfold banner_markup. rewrite Himg.
  destruct (imageUrl b) as [u|]; [|done]. simpl default.
  destruct (truthy (targetUrl b)); cbv zeta; simpl andb; cbv iota.
  - do 13 apply includes_app_r. apply includes_app_l.
    do 2 apply includes_app_r. apply includes_here, startsWith_app.
  - do 2 apply includes_app_r. apply includes_here, startsWith_app.
Qed.

Lemma banner_markup_truthy (b : banner) :
  truthy (Some (banner_markup b)) = truthy (imageUrl b).
Proof.
  unfold banner_markup.
  destruct (truthy (imageUrl b)); [|done].
  by destruct (truthy (targetUrl b)).
Qed.

(** X24.  The banner list holds, in the order of the configuration, the
    markup of exactly the banners that have an image URL; the markup of
    a banner is an image tag, inside a link to the target when the
    banner has one, and contains the image URL.  Hence a lookup by
    image URL like that of line 302, made among the banners of the entry
    that the markup was built from, finds a banner whose image URL the
    markup contains.  Line 302 itself looks in [window._adConfigBanners],
    which a later load may have replaced; nothing is stated for that
    case. *)
Theorem render_banners_spec (cfg : config) :
  render_banners cfg =
    banner_markup <$>
      List.filter (λ b, truthy (imageUrl b)) (default [] (cfg_banners cfg)) ∧
  (∀ b, truthy (imageUrl b) = true →
        includes (banner_markup b) (default "undefined" (imageUrl b)) = true ∧
        (truthy (targetUrl b) = true →
         startsWith (banner_markup b) "<a href=" = true ∧
         includes (banner_markup b) (default EmptyString (targetUrl b)) = true) ∧
        (truthy (targetUrl b) = false →
         startsWith (banner_markup b) "<img src=" = true)) ∧
  (∀ b, b ∈ default [] (cfg_banners cfg) → truthy (imageUrl b) = true →
        ∃ b', List.find (λ b', includes (banner_markup b)
                                        (default "undefined" (imageUrl b')))
                        (default [] (cfg_banners cfg)) = Some b' ∧
              b' ∈ default [] (cfg_banners cfg) ∧
              includes (banner_markup b) (default "undefined" (imageUrl b')) = true).
Proof.
  split; [|split].
  - unfold render_banners. induction (default [] (cfg_banners cfg)) as [|b l IH];
      [done|].
    rewrite fmap_cons.
    change (List.filter (λ s, truthy (Some s)) (banner_markup b :: (banner_markup <$> l)))
      with (if truthy (Some (banner_markup b))
            then banner_markup b :: List.filter (λ s, truthy (Some s)) (banner_markup <$> l)
            else List.filter (λ s, truthy (Some s)) (banner_markup <$> l)).
    change (List.filter (λ b0, truthy (imageUrl b0)) (b :: l))
      with (if truthy (imageUrl b)
            then b :: List.filter (λ b0, truthy (imageUrl b0)) l
            else List.filter (λ b0, truthy (imageUrl b0)) l).
    rewrite banner_markup_truthy, IH.
    by destruct (truthy (imageUrl b)).
  - intros b Himg. split; [by apply banner_markup_image|]. split.
    + intros Ht. unfold banner_markup. rewrite Himg, Ht. cbv zeta. simpl andb.
      cbv iota. split; [apply startsWith_app|].
      do 2 apply includes_app_r. apply includes_here, startsWith_app.
    + intros Ht. unfold banner_markup. rewrite Himg, Ht. cbv zeta. simpl andb.
      cbv iota. apply startsWith_app.
  - intros b Hb Himg.
    destruct (List.find _ _) as [b'|] eqn:Hfind.
    + apply find_some in Hfind as [Hin Hinc]. exists b'.
      split; [done|]. split; [by apply list_elem_of_In|done].
    + apply list_elem_of_In in Hb.
      pose proof (find_none _ _ Hfind b Hb) as Hnone. simpl in Hnone.
      by rewrite banner_markup_image in Hnone.
Qed.


(** X26.  Without a [data-property] attribute on the script tag the
    script only draws its rotation offset, which is below 1000: nothing
    is fetched or logged, no ad is placed and no timer is started.  With
    one, the script is the initialization run after that draw. *)
Theorem script_needs_property (res : fetch_result) (w : World) :
  let w0 := set_rotationOffset (floor_mul (random (rand_cursor w)) 1000)
              (set_rand_cursor (S (rand_cursor w)) w) in
  rotationOffset w0 < 1000 ∧
  (truthy propertyId = false → script_main res w = (Ret tt, w0)) ∧
  (truthy propertyId = true → script_main res w = initAdInjector res w0).
Proof.
  cbv zeta. split; [|split].
  - simpl. apply floor_mul_lt. lia.
  - intros Hp. unfold script_main, bind, modify, Math_random. by rewrite Hp.
  - intros Hp. unfold script_main, bind, modify, Math_random. by rewrite Hp.
Qed.

(** X27.  The stylesheet of the animations is installed once: running
    [addAdAnimations] again changes nothing; afterwards exactly one more
    element carries its id than before when none did, and no element of
    the document is removed. *)
Theorem addAdAnimations_once (ids : list string) :
  addAdAnimations (addAdAnimations ids) = addAdAnimations ids ∧
  animations_style_id ∈ addAdAnimations ids ∧
  (animations_style_id ∉ ids →
   List.filter (String.eqb animations_style_id) (addAdAnimations ids) =
     [animations_style_id]) ∧
  (animations_style_id ∈ ids → addAdAnimations ids = ids) ∧
  ids `prefix_of` addAdAnimations ids.
Proof.
  unfold addAdAnimations. generalize animations_style_id. intros i.
  destruct (bool_decide (i ∈ ids)) eqn:Hin.
  - apply bool_decide_eq_true in Hin. rewrite bool_decide_eq_true_2 by done.
    repeat split; try done.
  - apply bool_decide_eq_false in Hin.
    rewrite bool_decide_eq_true_2 by (apply elem_of_app; right; by left).
    split; [done|]. split; [apply elem_of_app; right; by left|].
    split; [|split; [done|by eexists]].
    intros _. rewrite List.filter_app. simpl. rewrite String.eqb_refl.
    replace (List.filter _ ids) with (@nil string); [done|].
    symmetry. clear -Hin. induction ids as [|x ids IH]; [done|]. simpl.
    destruct (String.eqb_spec i x) as [->|Hne].
    + exfalso. apply Hin. by left.
    + apply IH. intros H. apply Hin. by right.
Qed.

(** ** The copy-sibling branch *)




End AdInjector.

(** * Runs on a small page *)

Example shuffle_run :
  (shuffle rng_mixed [1; 2; 3; 4; 5] (page_load [])).1 = Ret [2; 4; 3; 1; 5].
Proof. reflexivity. Qed.

(** Seven draws from three banners: two whole cycles and the start of a
    third.  A banner may come twice in a row where one cycle ends and the
    next begins. *)
Example draws_run :
  (draws rng_mixed 0 ["a"; "b"; "c"] 7 (page_load [])).1 =
  Ret [Some "b"; Some "a"; Some "c"; Some "c"; Some "b"; Some "a"; Some "b"].
Proof. reflexivity. Qed.

Example parseInt_run :
  parseInt "  -12ab" = Some (-12)%Z ∧ parseInt "abc" = None ∧
  parseInt "1e3" = Some 1%Z ∧ parseInt (string_of_nat 120) = Some 120%Z.
Proof. repeat split. Qed.

(** The initial load serves the list of four items and the preset slot,
    skips the list of two items and starts both timers; a rotation tick
    keeps the wrappers and the persisted index. *)
Example init_run :
  let r := initAdInjector rng_mixed site page all_valid by_class no_child no_markup
             demo_response (page_load demo_page) in
  r.1 = Ret tt ∧
  (λ c, length (wrappers c)) <$> document r.2 = [1; 0; 1] ∧
  ct_adIndex <$> document r.2 = [Some "1"; None; None] ∧
  timers r.2 = both_timers.
Proof. repeat split. Qed.

Example rotation_run :
  let w := (initAdInjector rng_mixed site page all_valid by_class no_child no_markup
              demo_response (page_load demo_page)).2 in
  let r := rotateAdSlots rng_mixed all_valid by_class no_child no_markup w in
  r.1 = Ret tt ∧
  (λ c, length (wrappers c)) <$> document r.2 = [1; 0; 1] ∧
  ct_adIndex <$> document r.2 = [Some "1"; None; None].
Proof. repeat split. Qed.

(** A preset slot whose child holds an element of class ad-send-banner:
    the ad is written into that element, and the child stays. *)
Example nested_slot_run :
  let r := sendAd rng_mixed all_valid no_child no_markup ["ad"] 0 true
             (page_load [slot_nested]) in
  r.1 = Ret tt ∧
  ct_tree <$> document r.2 =
    [[Node {| el_classes := ["card"]; el_id := "a"; el_shown := true;
              el_svg := false; el_content := Markup EmptyString |}
           [Node (set_content (Markup "ad") (old_wrapper "in")) []]]].
Proof. split; reflexivity. Qed.

(** A list whose first item holds an element of class ad-send-banner:
    the element is taken out of the item and put after the reference
    child, next to the wrapper the list had. *)
Example nested_move_run :
  let r := sendAd rng_half all_valid no_child no_markup ["ad"] 0 true
             (page_load [list4_nested]) in
  r.1 = Ret tt ∧
  (kids_of <$> (head (ct_tree list4_nested))) = Some [Node (old_wrapper "in") []] ∧
  (λ c, kids_of <$> (head (ct_tree c))) <$> document r.2 = [Some []] ∧
  (λ c, (λ p, el_id p.2) <$> wrappers c) <$> document r.2 = [["w"; "a-ad"]].
Proof. repeat split. Qed.

(** A list whose first item is an SVG element: the wrapper is inserted
    and made visible, the class name of the item cannot be split, and
    no ad is written. *)
Example svg_sibling_run :
  let r := sendAd rng_half all_valid no_child no_markup ["ad"] 0 true
             (page_load [list4_svg]) in
  r.1 = Throw "TypeError: ref.className.split is not a function" ∧
  (λ c, (λ p, el_content p.2) <$> wrappers c) <$> document r.2 =
    [[Markup EmptyString]].
Proof. split; reflexivity. Qed.

(** Two placements on the page that copies a card standing after the
    wrapper: the second copies the clone the first left in the wrapper. *)
Example clone_of_clone_run :
  let send := sendAd rng_mixed all_valid child_by_class no_markup ["ad"] 0 false in
  let w1 := (send copying_world).2 in
  let w2 := (send w1).2 in
  let held w :=
    (λ c, (λ t, match top t with Element e => el_id e | TextNode _ => EmptyString end)
            <$> (default [] (kids_of <$> ct_tree c !! 2))) <$> document w in
  held w1 = [["c-ad"]] ∧ held w2 = [["c-ad-ad"]].
Proof. split; reflexivity. Qed.

(** * The theorems at concrete inputs *)

(** C1 at three banners and seven draws on a fresh page. *)
Lemma getNextAd_without_replacement_witness :
  ["a"; "b"; "c"] ≠ [] ∧
  ∃ out w' cycles,
    draws rng_mixed 0 ["a"; "b"; "c"] 7 (page_load []) = (Ret out, w') ∧
    length out = 7 ∧
    Forall (λ cyc, cyc ≡ₚ ["a"; "b"; "c"]) cycles ∧
    out = take 7 (Some <$> concat cycles).
Proof.
  assert (["a"; "b"; "c"] ≠ []) as Hbs by (intros Hnil; discriminate Hnil).
  split; [exact Hbs|].
  destruct (getNextAd_without_replacement rng_mixed 0 ["a"; "b"; "c"] Hbs) as [_ Hdraws].
  destruct (Hdraws (page_load []) 7 (or_introl eq_refl))
    as (out & w' & cycles & H1 & H2 & H3 & H4 & _).
  exists out, w', cycles. exact (conj H1 (conj H2 (conj H3 H4))).
Defined.

(** C3 at the list of four items with index 2 persisted. *)
Lemma persisted_index_is_stable_witness :
  document (page_load [list4_indexed]) !! 0 = Some list4_indexed ∧
  is_slot list4_indexed = false ∧
  ct_adIndex list4_indexed = Some "2" ∧
  parseInt "2" = Some 2%Z ∧
  ∃ c',
    document (sendAd rng_mixed all_valid no_child no_markup ["ad"] 0 false
                (page_load [list4_indexed])).2 !! 0 = Some c' ∧
    ct_adIndex c' = Some "2".
Proof.
  do 4 (split; [reflexivity|]).
  destruct (persisted_index_is_stable rng_mixed all_valid no_child no_markup ["ad"] 0 false
              (page_load [list4_indexed]) list4_indexed "2" 2%Z
              eq_refl eq_refl eq_refl eq_refl) as (c' & Hdoc & Hin & _).
  exists c'. split; [exact Hdoc|].
  apply Hin. change (1 ≤ 2 < 3)%Z. lia.
Defined.

(** C4 at the list of two items. *)
Lemma sendAd_skips_small_container_witness :
  document (page_load [list2]) !! 0 = Some list2 ∧
  is_slot list2 = false ∧
  length (eligible_children (ct_nodes list2)) < 3 ∧
  sendAd rng_mixed all_valid no_child no_markup ["ad"] 0 true (page_load [list2]) =
    (Ret tt, page_load [list2]).
Proof.
  assert (length (eligible_children (ct_nodes list2)) < 3) as Hlen
    by (vm_compute; lia).
  do 2 (split; [reflexivity|]). split; [exact Hlen|].
  apply (sendAd_skips_small_container rng_mixed all_valid no_child no_markup ["ad"] 0 true
           (page_load [list2]) list2 eq_refl eq_refl Hlen).
Defined.

(** C6 at a non-OK response on a page that had loaded a banner. *)
Lemma load_failure_is_contained_witness :
  load_failure site (Response false MalformedJson) ∧
  ∃ w',
    fetchAllBannersFromFile rng_mixed site page (Response false MalformedJson)
      loaded_world = (Ret tt, w') ∧
    w' = set_console (console w') loaded_world.
Proof.
  assert (load_failure site (Response false MalformedJson)) as Hfail
    by apply fail_not_ok.
  split; [exact Hfail|].
  destruct (load_failure_is_contained rng_mixed site page all_valid by_class no_child no_markup
              (Response false MalformedJson) loaded_world Hfail)
    as [(w' & Heq & Hsame & _) _].
  exists w'. exact (conj Heq Hsame).
Defined.

(** C7 at the list of four items. *)
Lemma insertion_index_between_witness :
  document (page_load [list4]) !! 0 = Some list4 ∧
  is_slot list4 = false ∧
  3 ≤ length (eligible_children (ct_nodes list4)) ∧
  ∃ idx, 1 ≤ idx ≤ length (eligible_children (ct_nodes list4)) - 2.
Proof.
  assert (3 ≤ length (eligible_children (ct_nodes list4))) as Hlen
    by (vm_compute; lia).
  do 2 (split; [reflexivity|]). split; [exact Hlen|].
  destruct (insertion_index_between rng_mixed all_valid no_child no_markup ["ad"] 0 true
              (page_load [list4]) list4 eq_refl eq_refl Hlen)
    as (idx & c' & s & pre & ref & W & post & Hidx & _).
  exists idx. exact Hidx.
Defined.

(** C10 at a network error on a fresh page. *)
Lemma few_banners_no_refetch_witness :
  length (banners (fetchAllBannersFromFile rng_mixed site page NetworkError
                     (page_load [list4])).2) < 2 ∧
  timers (page_load [list4]) = [] ∧
  timers (initAdInjector rng_mixed site page all_valid by_class no_child no_markup
            NetworkError (page_load [list4])).2 = [].
Proof.
  assert (length (banners (fetchAllBannersFromFile rng_mixed site page NetworkError
                             (page_load [list4])).2) < 2) as Hlen
    by (vm_compute; lia).
  split; [exact Hlen|]. split; [reflexivity|].
  apply (few_banners_no_refetch rng_mixed site page all_valid by_class no_child no_markup
           NetworkError (page_load [list4]) Hlen eq_refl).
Defined.

(** * Where the specification and the code part *)

(** C1 as stated fails for a banner list that names a banner twice: the
    loader keeps such a list as it is, and three draws on a fresh page
    return x twice before y has been returned. *)
Lemma getNextAd_repeats_duplicate_counterexample :
  let bs := ["x"; "x"; "y"] in
  let out := (draws rng_mixed 0 bs 3 (page_load [])).1 in
  bs ≠ [] ∧
  out = Ret [Some "x"; Some "x"; Some "y"] ∧
  ¬ (∀ l, out = Ret l →
          ∀ i j b, i < j → l !! i = Some (Some b) → l !! j = Some (Some b) →
                   ∀ b', b' ∈ bs → ∃ i', i' < j ∧ l !! i' = Some (Some b')).
Proof.
  cbv zeta. split; [intros Hnil; discriminate Hnil|]. split; [reflexivity|].
  intros Hall.
  destruct (Hall [Some "x"; Some "x"; Some "y"] eq_refl 0 1 "x" ltac:(lia)
              eq_refl eq_refl "y") as (i' & Hi' & Hy).
  { apply elem_of_cons. right. apply elem_of_cons. right. apply elem_of_cons. by left. }
  assert (i' = 0) as -> by lia. discriminate Hy.
Qed.

(** C2, the code at the failing input.  The page loads three banners and
    serves its containers once; a re-fetch then succeeds and leaves
    banner b as the only banner.  The loader resets the banner counter
    and the rotation offset, which nothing reads, and leaves the queues:
    container 0 still holds the rest of its old shuffle, and its next
    draw returns banner a, which is no longer configured. *)
Theorem refetch_serves_withdrawn_banner :
  let w := (initAdInjector rng_mixed site page all_valid by_class no_child no_markup
              demo_response (page_load demo_page)).2 in
  let res := ok_response (config_of [SelString "products"] [banner_b]) in
  let w' := (fetchAllBannersFromFile rng_mixed site page res w).2 in
  load_success site page res (config_of [SelString "products"] [banner_b]) ∧
  banners w' = [banner_markup banner_b] ∧
  adQueues w' !! 0 = Some [banner_markup banner_a; banner_markup banner_c] ∧
  (getNextAd rng_mixed 0 (banners w') w').1 = Ret (Some (banner_markup banner_a)) ∧
  banner_markup banner_a ∉ banners w'.
Proof.
  cbv zeta. split; [|split; [|split; [|split]]].
  - eexists. split; [reflexivity|]. split; reflexivity.
  - vm_compute. reflexivity.
  - vm_compute. reflexivity.
  - vm_compute. reflexivity.
  - intros Hin. apply (bool_decide_pack _) in Hin. vm_compute in Hin. exact Hin.
Qed.


(** C6 as stated fails.  The page loads three banners; a later re-fetch
    gets a non-OK response.  Nothing is logged, and the three banners
    stay configured. *)
Lemma load_failure_logged_counterexample :
  let w := (initAdInjector rng_mixed site page all_valid by_class no_child no_markup
              demo_response (page_load demo_page)).2 in
  let w' := (fetchAllBannersFromFile rng_mixed site page
               (Response false MalformedJson) w).2 in
  load_failure site (Response false MalformedJson) ∧
  console w' = console w ∧ console w' = [] ∧
  length (banners w') = 3.
Proof.
  cbv zeta. split; [apply fail_not_ok|].
  split; [|split]; vm_compute; reflexivity.
Qed.

(** C8 as stated fails: two banners are loaded, the initialization
    returns, and no timer is started, because the entry has no container
    selector. *)
Lemma timers_iff_banners_counterexample :
  let r := initAdInjector rng_half site page all_valid by_class no_child no_markup
             (ok_response no_container_config) (page_load [list4]) in
  r.1 = Ret tt ∧ length (banners r.2) = 2 ∧ timers r.2 = [].
Proof. simpl. split; [reflexivity|]. split; reflexivity. Qed.

(** * Every order can come up *)

Lemma floor_mul_sample_of (i m : nat) : i < m → floor_mul (sample_of i m) m = i.
Proof.
  intros Hi. unfold sample_of.
  assert (Z.pos (Pos.of_nat m) = Z.of_nat m) as Hpos.
  { rewrite <- positive_nat_Z, Nat2Pos.id by lia. done. }
  destruct (Sumbool.sumbool_of_bool _) as [Hv|Hv].
  - unfold floor_mul, Qfloor, Qmult, inject_Z. cbn [sample_val Qnum Qden].
    rewrite Pos.mul_1_r, Hpos, Z.div_mul by lia. lia.
  - exfalso. apply andb_false_iff in Hv as [Hv|Hv].
    + apply not_true_iff_false in Hv. apply Hv, Qle_bool_iff.
      unfold Qle. cbn [Qnum Qden]. lia.
    + apply negb_false_iff, Qle_bool_iff in Hv.
      unfold Qle in Hv. cbn [Qnum Qden] in Hv. lia.
Qed.

(** The loop reads the stream from the cursor on only. *)
Lemma shuffle_loop_ext {A} (random1 random2 : nat → sample) m (array : list A) w :
  (∀ k, rand_cursor w ≤ k → random1 k = random2 k) →
  shuffle_loop random1 m array w = shuffle_loop random2 m array w.
Proof.
  revert array w. induction m as [|m IH]; intros array w Hagree; [done|].
  simpl. unfold bind, Math_random. rewrite (Hagree (rand_cursor w)) by lia.
  destruct (array !! m); [|done]. destruct (array !! _); [|done].
  apply IH. intros k Hk. apply Hagree. simpl in Hk. lia.
Qed.

Lemma snoc_lookup_last {A} (l : list A) m y :
  length l = S m → l !! m = Some y → l = take m l ++ [y].
Proof.
  intros Hlen Hy. rewrite <- (take_drop m l) at 1. f_equal.
  rewrite (drop_S l y m Hy), drop_ge by lia. done.
Qed.

(** With [front] still to place, the loop can leave any arrangement of
    [front] in front of the part already placed. *)
Lemma shuffle_loop_reaches {A} (n : nat) :
  ∀ (front pfront back : list A) w,
    length front = n → pfront ≡ₚ front →
    ∃ random,
      shuffle_loop random n (front ++ back) w =
        (Ret (pfront ++ back), set_rand_cursor (n + rand_cursor w) w).
Proof.
  induction n as [|m IH]; intros front pfront back w Hlen Hperm.
  - destruct front; [|done]. apply Permutation_nil_r in Hperm as ->.
    exists rng_zero. simpl. unfold ret. by rewrite set_rand_cursor_same.
  - assert (length pfront = S m) as Hplen by (by rewrite Hperm).
    destruct (lookup_lt_is_Some_2 pfront m) as [y Hy]; [lia|].
    pose proof (snoc_lookup_last pfront m y Hplen Hy) as Hsnoc.
    assert (y ∈ front) as Hin.
    { rewrite <- Hperm. by eapply list_elem_of_lookup_2. }
    apply list_elem_of_lookup in Hin as [i Hi].
    pose proof (lookup_lt_Some _ _ _ Hi) as Hilt.
    destruct (lookup_lt_is_Some_2 front m) as [t Ht]; [lia|].
    set (front2 := <[i:=t]> (<[m:=y]> front)).
    assert (front2 ≡ₚ front) as Hperm2 by (by apply swap_permutation).
    assert (length front2 = S m) as Hlen2 by (by rewrite Hperm2).
    assert (front2 !! m = Some y) as Hlast.
    { unfold front2. destruct (decide (i = m)) as [->|Hne].
      - rewrite list_lookup_insert_eq by (rewrite length_insert; lia). congruence.
      - rewrite list_lookup_insert_ne by done.
        by rewrite list_lookup_insert_eq by lia. }
    pose proof (snoc_lookup_last front2 m y Hlen2 Hlast) as Hsnoc2.
    destruct (IH (take m front2) (take m pfront) (y :: back)
                 (set_rand_cursor (S (rand_cursor w)) w)) as (random' & Hloop).
    { rewrite length_take. lia. }
    { apply (Permutation_app_inv_r [y]). by rewrite <- Hsnoc, <- Hsnoc2, Hperm2. }
    exists (λ k, if k =? rand_cursor w then sample_of i (S m) else random' k).
    simpl. unfold bind, Math_random. rewrite Nat.eqb_refl.
    rewrite floor_mul_sample_of by lia.
    rewrite !lookup_app_l by lia. rewrite Ht, Hi.
    rewrite !insert_app_l by (rewrite ?length_insert; lia).
    fold front2. rewrite Hsnoc2, <- app_assoc. simpl.
    rewrite (shuffle_loop_ext _ random').
    + rewrite Hloop. rewrite Hsnoc at 2. rewrite <- app_assoc. simpl.
      f_equal. rewrite set_rand_cursor_twice. f_equal. simpl. lia.
    + intros k Hk. simpl in Hk.
      by replace (k =? rand_cursor w) with false by (symmetry; apply Nat.eqb_neq; lia).
Qed.

(** X5.  Every arrangement of the input can be the result of [shuffle]:
    for every permutation of the array there is a stream of random
    samples on which [shuffle] returns it. *)
Theorem shuffle_reaches_every_permutation {A} (array p : list A) (w : World) :
  p ≡ₚ array →
  ∃ random, (shuffle random array w).1 = Ret p.
Proof.
  intros Hperm.
  destruct (shuffle_loop_reaches (length array) array p [] w eq_refl Hperm)
    as (random & Hloop).
  exists random. unfold shuffle. rewrite !app_nil_r in Hloop. by rewrite Hloop.
Qed.

(** X7.  Every index strictly between the first and the last eligible
    child can be picked for a container without persisted index: for
    each there is a random sample on which lines 237-241 choose it, and
    they then persist it as its decimal string. *)
Theorem pick_index_reaches_every_index (len idx : nat) (w : World) :
  1 ≤ idx ≤ len - 2 →
  ∃ random,
    pick_index random None len w =
      (Ret (Some (idx, Some (string_of_nat idx))),
       set_rand_cursor (S (rand_cursor w)) w).
Proof.
  intros Hidx. exists (λ _, sample_of (idx - 1) (len - 2)).
  unfold pick_index, bind, Math_random. rewrite length_seq.
  rewrite floor_mul_sample_of by lia.
  rewrite lookup_seq_lt by lia.
  by replace (1 + (idx - 1)) with idx by lia.
Qed.


(** * The further properties at concrete inputs *)

(** X1 at three banners and seven draws from the shared queue. *)
Lemma roundRobin_without_replacement_witness :
  ["a"; "b"; "c"] ≠ [] ∧
  ∃ out w' cycles,
    draws_global rng_mixed ["a"; "b"; "c"] 7 (page_load []) = (Ret out, w') ∧
    length out = 7 ∧
    Forall (λ cyc, cyc ≡ₚ ["a"; "b"; "c"]) cycles.
Proof.
  assert (["a"; "b"; "c"] ≠ []) as Hbs by (intros Hnil; discriminate Hnil).
  split; [exact Hbs|].
  destruct (roundRobin_without_replacement rng_mixed ["a"; "b"; "c"]
              (page_load []) 7 Hbs) as (out & w' & cycles & H1 & H2 & H3 & _).
  exists out, w', cycles. exact (conj H1 (conj H2 H3)).
Defined.

(** X2 on a fresh page. *)
Lemma getNextAd_no_banners_witness :
  (adQueues (page_load []) !! 0 = None ∨ adQueues (page_load []) !! 0 = Some []) ∧
  getNextAd rng_mixed 0 [] (page_load []) =
    (Ret None, set_adQueues (<[0:=[]]> (adQueues (page_load []))) (page_load [])).
Proof.
  assert (adQueues (page_load []) !! 0 = None ∨
          adQueues (page_load []) !! 0 = Some []) as Hq by (left; reflexivity).
  split; [exact Hq|].
  apply (getNextAd_no_banners rng_mixed 0 (page_load []) Hq).
Defined.

(** X5 at a list of three and the order that swaps its first two. *)
Lemma shuffle_reaches_every_permutation_witness :
  [2; 1; 3] ≡ₚ [1; 2; 3] ∧
  ∃ random, (shuffle random [1; 2; 3] (page_load [])).1 = Ret [2; 1; 3].
Proof.
  assert ([2; 1; 3] ≡ₚ [1; 2; 3]) as Hperm by apply perm_swap.
  split; [exact Hperm|].
  apply (shuffle_reaches_every_permutation [1; 2; 3] [2; 1; 3] (page_load []) Hperm).
Defined.

(** X7 at five eligible children and index 2. *)
Lemma pick_index_reaches_every_index_witness :
  1 ≤ 2 ≤ 5 - 2 ∧
  ∃ random,
    pick_index random None 5 (page_load []) =
      (Ret (Some (2, Some (string_of_nat 2))),
       set_rand_cursor (S (rand_cursor (page_load []))) (page_load [])).
Proof.
  assert (1 ≤ 2 ≤ 5 - 2) as Hidx by (simpl; lia).
  split; [exact Hidx|].
  apply (pick_index_reaches_every_index 5 2 (page_load []) Hidx).
Defined.

(** X8 at the index 12 followed by a unit. *)
Lemma parseInt_reads_written_index_witness :
  no_leading_digit "px" ∧ parseInt (string_of_nat 12 +:+ "px") = Some 12%Z.
Proof.
  assert (no_leading_digit "px") as Hrest by reflexivity.
  split; [exact Hrest|].
  apply (parseInt_reads_written_index 12 "px" Hrest).
Defined.


(** X11 at the preset slot whose child holds an element of the class. *)
Lemma sendAd_slot_placement_witness :
  document (page_load [slot_nested]) !! 0 = Some slot_nested ∧
  is_slot slot_nested = true ∧
  ∃ o c' w',
    sendAd rng_mixed all_valid no_child no_markup ["ad"] 0 true
      (page_load [slot_nested]) = (Ret tt, w') ∧
    document w' !! 0 = Some c' ∧
    ct_tree c' = alter_at (write_html o) [0; 0] (ct_tree slot_nested).
Proof.
  do 2 (split; [reflexivity|]).
  destruct (sendAd_slot_placement rng_mixed all_valid no_child no_markup ["ad"] 0 true
              (page_load [slot_nested]) slot_nested eq_refl eq_refl)
    as (o & c' & w' & Heq & Hdoc & _ & _ & _ & _ & Htree).
  exists o, c', w'. exact (conj Heq (conj Hdoc Htree)).
Defined.


(** X13 at the list of four items. *)
Lemma sendAd_shows_drawn_ad_witness :
  document (page_load [list4]) !! 0 = Some list4 ∧
  is_slot list4 = false ∧
  3 ≤ length (eligible_children (ct_nodes list4)) ∧
  truthy (copySiblingSelector (page_load [list4])) = false ∧
  html_siblings list4 ∧
  ∃ o c' w' W,
    sendAd rng_mixed all_valid no_child no_markup ["ad"] 0 true (page_load [list4]) =
      (Ret tt, w') ∧
    document w' !! 0 = Some c' ∧ Node W [] ∈ ct_tree c' ∧
    el_content W = innerHTML_of o.
Proof.
  assert (3 ≤ length (eligible_children (ct_nodes list4))) as Hlen
    by (vm_compute; lia).
  assert (html_siblings list4) as Hhtml by (repeat constructor).
  do 2 (split; [reflexivity|]). split; [exact Hlen|]. split; [reflexivity|].
  split; [exact Hhtml|].
  destruct (sendAd_shows_drawn_ad rng_mixed all_valid no_child no_markup ["ad"] 0 true
              (page_load [list4]) list4 eq_refl eq_refl Hlen eq_refl Hhtml)
    as (o & c' & w' & pre & rt & ref & W & post & Heq & Hdoc & _ & Htree & _ & _ & _ &
        HW & _).
  exists o, c', w', W. split; [exact Heq|]. split; [exact Hdoc|].
  split; [|exact HW].
  rewrite Htree. apply elem_of_app. right. right. left.
Defined.

(** X14 at the list of four items. *)
Lemma sendAd_never_throws_witness :
  ["ad"] ≠ [] ∧ copy_selector_ok all_valid (page_load [list4]) ∧
  (∀ c, document (page_load [list4]) !! 0 = Some c → html_siblings c) ∧
  ∃ w', sendAd rng_mixed all_valid no_child no_markup ["ad"] 0 true (page_load [list4]) =
          (Ret tt, w').
Proof.
  assert (["ad"] ≠ []) as Hbs by (intros Hnil; discriminate Hnil).
  assert (copy_selector_ok all_valid (page_load [list4])) as Hok
    by (intros _; reflexivity).
  assert (∀ c, document (page_load [list4]) !! 0 = Some c → html_siblings c) as Hhtml
    by (intros c Hc; injection Hc as <-; repeat constructor).
  split; [exact Hbs|]. split; [exact Hok|]. split; [exact Hhtml|].
  apply (sendAd_never_throws rng_mixed all_valid no_child no_markup ["ad"] 0 true
           (page_load [list4]) Hbs Hok Hhtml).
Defined.

(** X15 at a page with three matched containers. *)
Lemma rotateAdSlots_never_throws_witness :
  selectors_ok all_valid configured_world ∧
  copy_selector_ok all_valid configured_world ∧
  html_page configured_world ∧
  ∃ w', rotateAdSlots rng_mixed all_valid by_class no_child no_markup configured_world =
          (Ret tt, w').
Proof.
  assert (selectors_ok all_valid configured_world) as Hsel
    by (apply Forall_cons; split; [reflexivity|apply Forall_nil_2]).
  assert (copy_selector_ok all_valid configured_world) as Hok
    by (intros _; reflexivity).
  assert (html_page configured_world) as Hpage by (repeat constructor).
  split; [exact Hsel|]. split; [exact Hok|]. split; [exact Hpage|].
  apply (rotateAdSlots_never_throws rng_mixed all_valid by_class no_child no_markup
           configured_world Hsel Hok Hpage).
Defined.

(** X16 at the page with three containers and the configuration with
    three banners. *)
Lemma initAdInjector_never_throws_witness :
  selectors_ok all_valid
    (fetchAllBannersFromFile rng_mixed site page demo_response
       (page_load demo_page)).2 ∧
  copy_selector_ok all_valid
    (fetchAllBannersFromFile rng_mixed site page demo_response
       (page_load demo_page)).2 ∧
  html_page
    (fetchAllBannersFromFile rng_mixed site page demo_response
       (page_load demo_page)).2 ∧
  ∃ w', initAdInjector rng_mixed site page all_valid by_class no_child no_markup
          demo_response (page_load demo_page) = (Ret tt, w').
Proof.
  assert (selectors_ok all_valid
            (fetchAllBannersFromFile rng_mixed site page demo_response
               (page_load demo_page)).2) as Hsel
    by (apply Forall_forall; intros s _; reflexivity).
  assert (copy_selector_ok all_valid
            (fetchAllBannersFromFile rng_mixed site page demo_response
               (page_load demo_page)).2) as Hok
    by (intros _; reflexivity).
  assert (html_page
            (fetchAllBannersFromFile rng_mixed site page demo_response
               (page_load demo_page)).2) as Hpage
    by (repeat constructor).
  split; [exact Hsel|]. split; [exact Hok|]. split; [exact Hpage|].
  apply (initAdInjector_never_throws rng_mixed site page all_valid by_class no_child
           no_markup demo_response (page_load demo_page) Hsel Hok Hpage).
Defined.

(** X19 at the page with three containers of class products. *)
Lemma collect_containers_lists_matches_witness :
  Forall (λ s, all_valid (selector_text s) = true) [SelString "products"] ∧
  collect_containers all_valid by_class [SelString "products"] []
    (page_load demo_page) = (Ret [0; 1; 2], page_load demo_page).
Proof.
  assert (Forall (λ s, all_valid (selector_text s) = true) [SelString "products"])
    as Hsel by (apply Forall_cons; split; [reflexivity|apply Forall_nil_2]).
  split; [exact Hsel|].
  destruct (collect_containers_lists_matches all_valid by_class
              [SelString "products"] (page_load demo_page) Hsel) as [Heq _].
  rewrite Heq. reflexivity.
Defined.

(** X22 at an entry configured for another page. *)
Lemma fetch_other_page_witness :
  find_config site (Configs [other_page_config]) = Some other_page_config ∧
  url other_page_config = Some "https://other.example/" ∧
  "https://other.example/" ≠ EmptyString ∧
  (∀ rest, page ≠ "https://other.example/" +:+ rest) ∧
  fetchAllBannersFromFile rng_mixed site page
    (Response true (ParsedJson (Configs [other_page_config]))) loaded_world =
    (Ret tt, set_adConfigBanners (Some [banner_a]) loaded_world).
Proof.
  assert ("https://other.example/" ≠ EmptyString) as Hne
    by (intros Hnil; discriminate Hnil).
  assert (∀ rest, page ≠ "https://other.example/" +:+ rest) as Hprefix
    by (intros rest Heq; vm_compute in Heq; discriminate Heq).
  do 2 (split; [reflexivity|]). split; [exact Hne|]. split; [exact Hprefix|].
  apply (fetch_other_page rng_mixed site page (Configs [other_page_config])
           other_page_config "https://other.example/" loaded_world
           eq_refl eq_refl Hne Hprefix).
Defined.

(** X23 at the configuration with three banners. *)
Lemma refetch_same_config_witness :
  load_success site page demo_response
    (config_of [SelString "products"] [banner_a; banner_b; banner_c]) ∧
  ∃ w1 w2,
    fetchAllBannersFromFile rng_mixed site page demo_response
      (page_load demo_page) = (Ret tt, w1) ∧
    fetchAllBannersFromFile rng_mixed site page demo_response w1 = (Ret tt, w2) ∧
    banners w2 = banners w1.
Proof.
  assert (load_success site page demo_response
            (config_of [SelString "products"] [banner_a; banner_b; banner_c]))
    as Hload by (eexists; split; [reflexivity|split; reflexivity]).
  split; [exact Hload|].
  destruct (refetch_same_config rng_mixed site page demo_response _
              (page_load demo_page) Hload) as (w1 & w2 & H1 & H2 & H3).
  exists w1, w2. split; [exact H1|]. split; [exact H2|].
  rewrite <- H3. reflexivity.
Defined.



(** X21 at one tick of the rotation timer. *)
Lemma timers_are_permanent_witness :
  rtc (step rng_mixed site page all_valid by_class no_child no_markup) ticking_world
      (fire rng_mixed site page all_valid by_class no_child no_markup
            RotateAdSlots NetworkError ticking_world).2 ∧
  timers (fire rng_mixed site page all_valid by_class no_child no_markup
               RotateAdSlots NetworkError ticking_world).2 =
    timers ticking_world.
Proof.
  assert (rtc (step rng_mixed site page all_valid by_class no_child no_markup) ticking_world
            (fire rng_mixed site page all_valid by_class no_child no_markup
                  RotateAdSlots NetworkError ticking_world).2) as Hrun.
  { apply rtc_once.
    apply (step_timer rng_mixed site page all_valid by_class no_child no_markup
             ticking_world RotateAdSlots 10000%Z NetworkError).
    left. }
  split; [exact Hrun|].
  exact (timers_are_permanent rng_mixed site page all_valid by_class no_child no_markup
           ticking_world _ Hrun).
Defined.


(** X9 at the second item of the list of four, styled after the first. *)
Lemma replicateSiblingStyles_settles_witness :
  document (page_load [list4]) !! 0 = Some list4 ∧
  ct_tree list4 !! 2 = Some (plain "card" "b") ∧
  ∃ t',
    replicateSiblingStyles 0 2 [(0, card_a)] (page_load [list4]) =
      (Ret tt, with_child 0 2 list4 (Node t' []) (page_load [list4])) ∧
    el_classes t' = ["card"; ad_class] ∧ el_id t' = "a-ad".
Proof.
  do 2 (split; [reflexivity|]).
  destruct (replicateSiblingStyles_settles 0 2 [(0, card_a)] (page_load [list4]) list4
              _ [] eq_refl eq_refl) as (_ & _ & Hcopy).
  destruct (Hcopy 0 card_a eq_refl eq_refl) as (t' & Heq & _ & _ & _ & Hcls & Hid & _).
  exists t'. exact (conj Heq (conj Hcls Hid)).
Defined.

(** X17 at a configuration whose container entry is an object without a
    name. *)
Lemma invalid_selector_stops_all_witness :
  banners broken_world ≠ [] ∧
  Exists (λ s, strict_valid (selector_text s) = false)
         (containerSelectors broken_world) ∧
  ∃ e, rotateAdSlots rng_mixed strict_valid by_class no_child no_markup broken_world =
         (Throw e, broken_world).
Proof.
  assert (banners broken_world ≠ []) as Hbs by (intros Hnil; discriminate Hnil).
  assert (Exists (λ s, strict_valid (selector_text s) = false)
                 (containerSelectors broken_world)) as Hbad
    by (apply Exists_cons_hd; reflexivity).
  split; [exact Hbs|]. split; [exact Hbad|].
  destruct (invalid_selector_stops_all rng_mixed site page strict_valid by_class
              no_child no_markup broken_world) as [Hrotate _].
  exact (Hrotate Hbs Hbad).
Defined.

(** X20 at a page for which no banner was loaded. *)
Lemma rotateAdSlots_idle_witness :
  banners (page_load demo_page) = [] ∧
  rotateAdSlots rng_mixed all_valid by_class no_child no_markup (page_load demo_page) =
    (Ret tt, page_load demo_page).
Proof.
  split; [reflexivity|].
  destruct (rotateAdSlots_idle rng_mixed all_valid by_class no_child no_markup
              (page_load demo_page)) as [Hnone _].
  exact (Hnone eq_refl).
Defined.


(** X26 at a script tag without the attribute. *)
Lemma script_needs_property_witness :
  truthy None = false ∧
  ∃ w0,
    script_main rng_mixed None page all_valid by_class no_child no_markup demo_response
      (page_load demo_page) = (Ret tt, w0) ∧
    rotationOffset w0 < 1000 ∧ timers w0 = [].
Proof.
  split; [reflexivity|].
  destruct (script_needs_property rng_mixed None page all_valid by_class no_child no_markup
              demo_response (page_load demo_page)) as (Hlt & Hnone & _).
  eexists. split; [exact (Hnone eq_refl)|]. split; [exact Hlt|reflexivity].
Defined.
